(** * Outline extraction from positioned text lines

    A shallow embedding of the heading-inference pipeline of
    [process_pdfs.py] (and of the older variant [outline_extractor.py]):
    document profile, title extraction, heading classification and outline
    finalisation, together with the properties stated about them.

    Python values are modelled as follows.
    - [str] is a list of Unicode code points ([len], indexing and the
      regular-expression engine of Python all work on code points);
    - [int] is [Z];
    - [float] (font sizes and page coordinates) is [Q]: every finite float
      is a rational and the comparisons the code performs are exact on them;
    - a [dict] with a fixed set of keys is a record;
    - an exception is the [Raise] constructor of [result]. *)

From Stdlib Require Import List ZArith NArith QArith Qabs Bool Lia Lqa.
From Stdlib Require Import Sorted Permutation.
From Stdlib Require String Ascii.
Import ListNotations String.StringSyntax.

Set Implicit Arguments.
Close Scope Q_scope.

(** ** Strings *)

Local Open Scope N_scope.

Definition char := N.
Definition str := list char.

Definition char_eqb (a b : char) : bool := N.eqb a b.

Fixpoint str_eqb (s t : str) : bool :=
  match s, t with
  | [], [] => true
  | a :: s', b :: t' => char_eqb a b && str_eqb s' t'
  | _, _ => false
  end.

(** Source literals are written as UTF-8 text and decoded to code points. *)
Fixpoint bytes_of (s : String.string) : list N :=
  match s with
  | String.EmptyString => []
  | String.String a s' => Ascii.N_of_ascii a :: bytes_of s'
  end.

Definition cont (b : N) : N := N.land b 63.

Fixpoint utf8_decode (bs : list N) : str :=
  match bs with
  | [] => []
  | b0 :: r =>
      if b0 <? 128 then b0 :: utf8_decode r
      else if (b0 <? 224)%N then
        match r with
        | b1 :: r1 => (N.shiftl (N.land b0 31) 6 + cont b1)%N :: utf8_decode r1
        | _ => []
        end
      else if (b0 <? 240)%N then
        match r with
        | b1 :: b2 :: r2 =>
            (N.shiftl (N.land b0 15) 12 + N.shiftl (cont b1) 6 + cont b2)%N
              :: utf8_decode r2
        | _ => []
        end
      else
        match r with
        | b1 :: b2 :: b3 :: r3 =>
            (N.shiftl (N.land b0 7) 18 + N.shiftl (cont b1) 12
             + N.shiftl (cont b2) 6 + cont b3)%N :: utf8_decode r3
        | _ => []
        end
  end.

Definition u (s : String.string) : str := utf8_decode (bytes_of s).
Delimit Scope string_scope with string.
Arguments u s%_string.

(** [str.isspace] on one code point; it is the class used by [\s] in a
    [str] pattern, by [str.strip()] and by [str.split()]. *)
Definition isspace (c : char) : bool :=
  ((9 <=? c) && (c <=? 13) || (28 <=? c) && (c <=? 31) || (c =? 32)
   || (c =? 0x85) || (c =? 0xA0) || (c =? 0x1680)
   || (0x2000 <=? c) && (c <=? 0x200A)
   || (c =? 0x2028) || (c =? 0x2029) || (c =? 0x202F) || (c =? 0x205F)
   || (c =? 0x3000))%N.

(** The parts of the Unicode character database that the scripts reach
    through [\d] and [str.lower()]. *)
Class Unicode := {
  isdecimal : char -> bool;   (* category Nd, the class [\d] *)
  lower : str -> str          (* [str.lower()] *)
}.

(** On ASCII text the database is the following. *)
Definition ascii_isdecimal (c : char) : bool := ((48 <=? c) && (c <=? 57))%N.

Definition ascii_lower_char (c : char) : char :=
  if ((65 <=? c) && (c <=? 90))%N then (c + 32)%N else c.

Definition ascii_unicode : Unicode :=
  {| isdecimal := ascii_isdecimal; lower := map ascii_lower_char |}.

Fixpoint dropwhile (p : char -> bool) (s : str) : str :=
  match s with
  | [] => []
  | c :: s' => if p c then dropwhile p s' else s
  end.

Definition lstrip (s : str) : str := dropwhile isspace s.
Definition rstrip (s : str) : str := rev (dropwhile isspace (rev s)).
(** [s.strip()] *)
Definition strip (s : str) : str := rstrip (lstrip s).

Fixpoint startswith (p s : str) : bool :=
  match p, s with
  | [], _ => true
  | a :: p', b :: s' => char_eqb a b && startswith p' s'
  | _ :: _, [] => false
  end.

(** [p in s] for strings: [p] occurs as a substring of [s]. *)
Fixpoint contains (p s : str) : bool :=
  startswith p s ||
  match s with
  | [] => false
  | _ :: s' => contains p s'
  end.

(** [re.sub(r'\s+', ' ', s)]: every maximal run of whitespace becomes one
    space.  [in_run] tells that the previous character was whitespace, whose
    run has already been replaced. *)
Fixpoint collapse_from (in_run : bool) (s : str) : str :=
  match s with
  | [] => []
  | c :: s' =>
      if isspace c then
        if in_run then collapse_from true s' else 32%N :: collapse_from true s'
      else c :: collapse_from false s'
  end.

Definition collapse_ws (s : str) : str := collapse_from false s.

(** ** Regular expressions

    The patterns of the scripts are only used through [re.match(p, s)] tested
    for truth, that is: does some prefix of [s] belong to the language of
    [p].  Backtracking does not change that answer, so patterns are given
    their language and matched with derivatives. *)

Inductive regex : Type :=
| Void
| Eps
| Cls (p : char -> bool)
| Cat (r1 r2 : regex)
| Alt (r1 r2 : regex)
| Star (r : regex).

Definition Plus (r : regex) : regex := Cat r (Star r).
Definition Chr (c : char) : regex := Cls (char_eqb c).

Fixpoint Lit (s : str) : regex :=
  match s with
  | [] => Eps
  | c :: s' => Cat (Chr c) (Lit s')
  end.

Inductive matches : regex -> str -> Prop :=
| m_eps : matches Eps []
| m_cls p c : p c = true -> matches (Cls p) [c]
| m_cat r1 r2 s1 s2 :
    matches r1 s1 -> matches r2 s2 -> matches (Cat r1 r2) (s1 ++ s2)
| m_alt_l r1 r2 s : matches r1 s -> matches (Alt r1 r2) s
| m_alt_r r1 r2 s : matches r2 s -> matches (Alt r1 r2) s
| m_star_nil r : matches (Star r) []
| m_star_app r s1 s2 :
    matches r s1 -> matches (Star r) s2 -> matches (Star r) (s1 ++ s2).

Fixpoint nullable (r : regex) : bool :=
  match r with
  | Void => false
  | Eps => true
  | Cls _ => false
  | Cat r1 r2 => nullable r1 && nullable r2
  | Alt r1 r2 => nullable r1 || nullable r2
  | Star _ => true
  end.

Fixpoint deriv (c : char) (r : regex) : regex :=
  match r with
  | Void => Void
  | Eps => Void
  | Cls p => if p c then Eps else Void
  | Cat r1 r2 =>
      if nullable r1 then Alt (Cat (deriv c r1) r2) (deriv c r2)
      else Cat (deriv c r1) r2
  | Alt r1 r2 => Alt (deriv c r1) (deriv c r2)
  | Star r1 => Cat (deriv c r1) (Star r1)
  end.

(** [re.match(r, s) is not None] *)
Fixpoint re_match (r : regex) (s : str) : bool :=
  nullable r ||
  match s with
  | [] => false
  | c :: s' => re_match (deriv c r) s'
  end.

(** Character classes shared by the patterns. *)
Definition in_range (lo hi c : char) : bool := ((lo <=? c) && (c <=? hi))%N.
Definition upper_AZ (c : char) : bool := in_range 65 90 c.      (* [A-Z] *)
Definition any_char (c : char) : bool := negb (char_eqb c 10).   (* . *)

Arguments char_eqb (a b)%_N.
Arguments in_range (lo hi c)%_N.
Arguments Chr c%_N.

(** ** Python builtins used by the scripts *)

Local Close Scope N_scope.
Local Open Scope Z_scope.

Inductive exn : Type := ValueError | IndexError.

Inductive result (A : Type) : Type :=
| Ok (a : A)
| Raise (e : exn).

Arguments Ok {A} a.
Arguments Raise {A} e.

Definition bind {A B : Type} (m : result A) (k : A -> result B) : result B :=
  match m with
  | Ok a => k a
  | Raise e => Raise e
  end.

Notation "x <- m ;; k" := (bind m (fun x => k))
  (at level 61, m at next level, right associativity).

Definition len {A : Type} (l : list A) : Z := Z.of_nat (length l).

Definition Qltb (a b : Q) : bool := negb (Qle_bool b a).

(** [int(x)] on a float: truncation towards zero. *)
Definition int_of_float (q : Q) : Z := Z.quot (Qnum q) (Zpos (Qden q)).

(** [a * b] on floats: the exact product rounded to the nearest binary64
    number, ties to even.  [round_pos n d] rounds n/d: [e] is the exponent
    for which the quotient has 53 significant bits.  The exponent range is
    taken as unbounded; font sizes are far from its ends. *)
Definition scale_to (n d : positive) (e : Z) : Z * Z :=
  if 0 <=? e then (Zpos n, Zpos d * 2 ^ e) else (Zpos n * 2 ^ (- e), Zpos d).

Definition round_pos (n d : positive) : Q :=
  let e0 := Z.log2 (Zpos n) - Z.log2 (Zpos d) - 52 in
  let e := if fst (scale_to n d e0) / snd (scale_to n d e0) <? 2 ^ 52
           then e0 - 1 else e0 in
  let a := fst (scale_to n d e) in
  let b := snd (scale_to n d e) in
  let m := a / b in
  let r := a mod b in
  let m' := if 2 * r <? b then m
            else if b <? 2 * r then m + 1
            else if Z.even m then m else m + 1 in
  if 0 <=? e then inject_Z (m' * 2 ^ e)
  else Qmake m' (Z.to_pos (2 ^ (- e))).

Definition round_double (q : Q) : Q :=
  match Qnum q with
  | Z0 => 0%Q
  | Zpos n => round_pos n (Qden q)
  | Zneg n => (- round_pos n (Qden q))%Q
  end.

Definition float_mul (a b : Q) : Q := round_double (a * b)%Q.

(** The literal [1.4]: the binary64 number nearest to 7/5. *)
Definition float_1_4 : Q := 3152519739159347 # 2251799813685248.

(** [max(xs)]: the first maximal element; [ValueError] on an empty
    sequence. *)
Fixpoint max_from (m : Q) (xs : list Q) : Q :=
  match xs with
  | [] => m
  | x :: xs' => max_from (if Qltb m x then x else m) xs'
  end.

Definition py_max (xs : list Q) : result Q :=
  match xs with
  | [] => Raise ValueError
  | x :: xs' => Ok (max_from x xs')
  end.

(** [xs[0]] *)
Definition index0 {A : Type} (xs : list A) : result A :=
  match xs with
  | [] => Raise IndexError
  | x :: _ => Ok x
  end.

(** [collections.Counter]: the items in order of first insertion, and
    [most_common(1)], which is [max] over the items by count and so returns
    the first of the most frequent ones. *)
Section Counter.
Variable A : Type.
Variable eqb : A -> A -> bool.

Fixpoint counter_add (x : A) (c : list (A * Z)) : list (A * Z) :=
  match c with
  | [] => [(x, 1)]
  | (y, n) :: c' =>
      if eqb y x then (y, n + 1) :: c' else (y, n) :: counter_add x c'
  end.

Definition Counter (xs : list A) : list (A * Z) :=
  fold_left (fun c x => counter_add x c) xs [].

Fixpoint most_from (m : A * Z) (c : list (A * Z)) : A * Z :=
  match c with
  | [] => m
  | it :: c' => most_from (if snd m <? snd it then it else m) c'
  end.

Definition most_common_1 (c : list (A * Z)) : list (A * Z) :=
  match c with
  | [] => []
  | it :: c' => [most_from it c']
  end.
End Counter.

(** [list.sort(key=...)] and [sorted]: a stable sort; [lt a b] tells that
    the key of [a] is smaller than the key of [b]. *)
Section Sort.
Variable A : Type.
Variable lt : A -> A -> bool.

Fixpoint insert (x : A) (l : list A) : list A :=
  match l with
  | [] => [x]
  | y :: l' => if lt y x then y :: insert x l' else x :: l
  end.

Fixpoint sort (l : list A) : list A :=
  match l with
  | [] => []
  | x :: l' => insert x (sort l')
  end.
End Sort.

(** ** Data model *)

Record Rect : Type := mkRect { x0 : Q; y0 : Q; x1 : Q; y1 : Q }.

Record LogicalLine : Type := mkLine {
  text : str;
  font_size : Q;
  font_name : str;
  is_bold : bool;
  page : Z;
  bbox : Rect
}.

Inductive Level : Type := H1 | H2 | H3.

(** [{**line, 'level': level}] *)
Record Heading : Type := mkHeading {
  line : LogicalLine;
  level : Level
}.

Record Profile : Type := mkProfile {
  baseline_font_size : Q;
  page_offset : Z;
  left_margin : Z
}.

Record OutlineEntry : Type := mkEntry {
  o_level : Level;
  o_text : str;
  o_page : Z
}.

Record Output : Type := mkOutput {
  title : str;
  outline : list OutlineEntry
}.

(** What PyMuPDF hands over: [doc] is the sequence of its pages, a page is
    the list [page.get_text("dict")["blocks"]], a block has a ['type'] and
    ['lines'], a line a ['bbox'] and ['spans'].  A [Pdf] is a document
    that [fitz.open] has opened and whose pages [get_text] has read: a
    file for which one of the two raises never becomes a [Pdf], and what
    the scripts do with it - [process_single_pdf] returns through its
    [except] branch - lies outside of what is stated below. *)
Record Span : Type := mkSpan {
  span_text : str;
  span_size : Q;
  span_font : str;
  span_flags : Z;
  span_bbox : Rect
}.

Record TextLine : Type := mkTextLine {
  line_bbox : Rect;
  line_spans : list Span
}.

Record Block : Type := mkBlock {
  block_type : Z;
  block_lines : list TextLine     (* [block.get("lines", [])] *)
}.

Definition Page : Type := list Block.
Definition Pdf : Type := list Page.

(** [doc.page_count] *)
Definition page_count (doc : Pdf) : Z := len doc.

(** A value of the dictionary [lines]:
    [{"spans": ..., "bbox": line_bbox, "page": page_num}] *)
Record Group : Type := mkGroup {
  spans : list Span;
  group_bbox : Rect;
  group_page : Z
}.

(** [current['text'] = t] *)
Definition set_text (h : Heading) (t : str) : Heading :=
  let l := line h in
  mkHeading (mkLine t (font_size l) (font_name l) (is_bold l) (page l) (bbox l))
            (level h).

Definition space : str := [32%N].

(** Comparison of the tuples used as sort keys. *)
Definition lt_int_float (a b : Z * Q) : bool :=
  (fst a <? fst b) || ((fst a =? fst b) && Qltb (snd a) (snd b)).

Definition lt_float_float (a b : Q * Q) : bool :=
  Qltb (fst a) (fst b) || (Qeq_bool (fst a) (fst b) && Qltb (snd a) (snd b)).

Definition str_in (s : str) (set : list str) : bool := existsb (str_eqb s) set.

Definition same_page (a b : Heading) : bool := page (line a) =? page (line b).

(** The key of the [seen] set of [finalize_outline]; the set is only asked
    for membership, so it is kept as the list of the keys added. *)
Definition key_eqb (a b : str * Z) : bool :=
  str_eqb (fst a) (fst b) && (snd a =? snd b).

Definition key_in (k : str * Z) (seen : list (str * Z)) : bool :=
  existsb (key_eqb k) seen.

Definition lt_int_int (a b : Z * Z) : bool :=
  (fst a <? fst b) || ((fst a =? fst b) && (snd a <? snd b)).

Definition int_int_eqb (a b : Z * Z) : bool :=
  (fst a =? fst b) && (snd a =? snd b).

(** ** The first loop of [extract_and_group_lines]

    The dictionary [lines], keyed by [(page_num, int(line_bbox[1]))], is the
    list of its items in insertion order.  Both scripts fill it the same
    way. *)

(** [if line_key not in lines: lines[line_key] = {...}] followed by
    [lines[line_key]['spans'].extend(line['spans'])] *)
Fixpoint add_spans (line_key : Z * Z) (line : TextLine) (page_num : Z)
         (lines : list (Z * Z * Group)) : list (Z * Z * Group) :=
  match lines with
  | [] => [(line_key, mkGroup (line_spans line) (line_bbox line) page_num)]
  | (k, g) :: lines' =>
      if int_int_eqb k line_key
      then (k, mkGroup (spans g ++ line_spans line) (group_bbox g)
                       (group_page g)) :: lines'
      else (k, g) :: add_spans line_key line page_num lines'
  end.

Definition group_block (page_num : Z) (block : Block)
           (lines : list (Z * Z * Group)) : list (Z * Z * Group) :=
  if block_type block =? 0 then
    fold_left (fun lines line =>
                 add_spans (page_num, int_of_float (y0 (line_bbox line)))
                           line page_num lines)
              (block_lines block) lines
  else lines.

(** [for page_num, page in enumerate(doc)] *)
Fixpoint group_pages (page_num : Z) (doc : list Page)
         (lines : list (Z * Z * Group)) : list (Z * Z * Group) :=
  match doc with
  | [] => lines
  | page :: doc' =>
      group_pages (page_num + 1) doc'
        (fold_left (fun lines block => group_block page_num block lines)
                   page lines)
  end.

(** [for key in sorted(lines.keys()): line_data = lines[key]]: the keys are
    distinct, so the items are visited in the order of their keys. *)
Definition sorted_groups (doc : Pdf) : list Group :=
  map snd (sort (fun a b => lt_int_int (fst a) (fst b))
                (group_pages 0 doc [])).

(** [sorted(line_data['spans'], key=lambda s: s['bbox'][0])] *)
Definition sort_spans (l : list Span) : list Span :=
  sort (fun a b => Qltb (x0 (span_bbox a)) (x0 (span_bbox b))) l.

(** [sep.join(parts)] *)
Fixpoint join (sep : str) (parts : list str) : str :=
  match parts with
  | [] => []
  | p :: parts' =>
      match parts' with
      | [] => p
      | _ :: _ => p ++ sep ++ join sep parts'
      end
  end.

(** The second loop of [extract_and_group_lines]; the scripts differ in
    the separator [sep] put between the spans of a line. *)
Section LogicalLines.
Context {U : Unicode}.
Variable sep : str.

Fixpoint logical_lines_of (groups : list Group)
  : result (list LogicalLine) :=
  match groups with
  | [] => Ok []
  | line_data :: groups' =>
      let line_spans := sort_spans (spans line_data) in
      let full_text := strip (join sep (map span_text line_spans)) in
      match full_text with
      | [] => logical_lines_of groups'
      | _ :: _ =>
          first_span <- index0 line_spans ;;
          logical_lines <- logical_lines_of groups' ;;
          Ok (mkLine full_text (span_size first_span)
                     (span_font first_span)
                     (contains (u "bold") (lower (span_font first_span))
                      || negb (Z.land (span_flags first_span) 16 =? 0))
                     (group_page line_data) (group_bbox line_data)
              :: logical_lines)
      end
  end.
End LogicalLines.

(** ** The last loop of [finalize_outline]

    Sorting, cleaning, page normalisation and deduplication are written the
    same way in both scripts; only the continuation merge differs. *)

Section Finalise.
Context {U : Unicode}.

Definition clean_text (item : Heading) : str :=
  strip (collapse_ws (text (line item))).

Definition final_page (item : Heading) (page_offset : Z) : Z :=
  page (line item) + 1 - page_offset.

Definition key_of (item : Heading) (page_offset : Z) : str * Z :=
  (lower (clean_text item), final_page item page_offset).

Fixpoint format_outline (items : list Heading) (page_offset : Z)
         (seen : list (str * Z)) : list OutlineEntry :=
  match items with
  | [] => []
  | item :: items' =>
      let key := key_of item page_offset in
      if key_in key seen then format_outline items' page_offset seen
      else
        mkEntry (level item) (clean_text item ++ space)
                (final_page item page_offset)
        :: format_outline items' page_offset (key :: seen)
  end.

Definition sort_headings (headings : list Heading) : list Heading :=
  sort (fun a b => lt_int_float (page (line a), y0 (bbox (line a)))
                                (page (line b), y0 (bbox (line b))))
       headings.

End Finalise.

(** ** process_pdfs.py *)

Module process_pdfs.
Section Pipeline.
Context {U : Unicode}.

(** *** Stage 1: the document profile of [extract_and_group_lines] *)

(** The part under [# Build Document Profile]. *)
Definition build_profile (logical_lines : list LogicalLine)
           (page_count : Z) : result Profile :=
  let font_sizes :=
    map font_size (filter (fun s => 15 <? len (text s)) logical_lines) in
  baseline_font_size <-
    match font_sizes with
    | [] => Ok (10 # 1)%Q
    | _ :: _ =>
        it <- index0 (most_common_1 (Counter Qeq_bool font_sizes)) ;;
        Ok (fst it)
    end ;;
  let page_0_lines := filter (fun line => page line =? 0) logical_lines in
  let page_offset :=
    if (len page_0_lines <? 10) && (1 <? page_count) then 1 else 0 in
  let left_margins :=
    map (fun line => int_of_float (x0 (bbox line)))
        (filter (fun line => 20 <? len (text line)) logical_lines) in
  left_margin <-
    match left_margins with
    | [] => Ok 72
    | _ :: _ =>
        it <- index0 (most_common_1 (Counter Z.eqb left_margins)) ;;
        Ok (fst it)
    end ;;
  Ok (mkProfile baseline_font_size page_offset left_margin).

(** The spans of a line are joined without a separator. *)
Definition extract_and_group_lines (doc : Pdf)
  : result (list LogicalLine * Profile) :=
  logical_lines <- logical_lines_of [] (sorted_groups doc) ;;
  profile <- build_profile logical_lines (page_count doc) ;;
  Ok (logical_lines, profile).

(** *** Stage 2: title and headings *)

Definition extract_title (lines : list LogicalLine) : result str :=
  let page_0_lines := filter (fun line => page line =? 0) lines in
  match page_0_lines with
  | [] => Ok []
  | _ :: _ =>
      max_font_size <- py_max (map font_size page_0_lines) ;;
      let title_lines :=
        filter (fun line =>
                  Qltb (Qabs (font_size line - max_font_size)%Q) (1 # 2)%Q)
               page_0_lines in
      let title_lines :=
        sort (fun a b => lt_float_float (y0 (bbox a), x0 (bbox a))
                                        (y0 (bbox b), x0 (bbox b)))
             title_lines in
      Ok (strip (concat (map text title_lines)))
  end.

(** [[0-9０-９०-९]] *)
Definition numeral (c : char) : bool :=
  in_range 48 57 c || in_range 0xFF10 0xFF19 c || in_range 0x966 0x96F c.

(** [[.\．、]] *)
Definition separator (c : char) : bool :=
  char_eqb c 46 || char_eqb c 0xFF0E || char_eqb c 0x3001.

Definition dot : regex := Chr 46.
Definition ws : regex := Cls isspace.
Definition num : regex := Plus (Cls numeral).

(** [^([0-9０-９०-९]+)[.\．、]\s] *)
Definition pattern_H1 : regex := Cat num (Cat (Cls separator) ws).
(** [^([0-9０-９०-९]+\.[0-9０-９०-९]+)\s] *)
Definition pattern_H2 : regex := Cat num (Cat dot (Cat num ws)).
(** [^([0-9０-９०-९]+\.[0-9０-９०-९]+\.[0-9０-９०-९]+)\s] *)
Definition pattern_H3 : regex :=
  Cat num (Cat dot (Cat num (Cat dot (Cat num ws)))).

Definition structural_patterns : list (regex * Level) :=
  [ (pattern_H1, H1); (pattern_H2, H2); (pattern_H3, H3) ].

Definition special_h1s : list str :=
  [ u "Revision History"; u "Table of Contents"; u "Acknowledgements";
    u "References";
    u "改訂履歴"; u "目次"; u "謝辞"; u "参考文献";
    u "修订历史"; u "目录"; u "致谢";
    u "संशोधन इतिहास"; u "विषय-सूची"; u "आभार"; u "संदर्भ" ].

(** [^\d\.\d+\s+\d{1,2}\s+[A-Z]{3,}] *)
Definition table_row : regex :=
  let d := Cls isdecimal in
  let AZ := Cls upper_AZ in
  Cat d (Cat dot (Cat (Plus d) (Cat (Plus ws)
    (Cat (Cat d (Alt d Eps)) (Cat (Plus ws)
      (Cat AZ (Cat AZ (Cat AZ (Star AZ))))))))).

(** Rule 0 *)
Definition negative_filter (text : str) : bool :=
  contains (u "....") text || re_match table_row text.

(** [abs(bbox[0] - left_margin) < 15] *)
Definition near_margin (line : LogicalLine) (left_margin : Z) : bool :=
  Qltb (Qabs (x0 (bbox line) - inject_Z left_margin)%Q) (15 # 1)%Q.

(** Rule 1: the loop over [structural_patterns]; a pattern that matches
    at the wrong position does not stop the loop. *)
Fixpoint match_structure (patterns : list (regex * Level))
         (line : LogicalLine) (left_margin : Z) : option Level :=
  match patterns with
  | [] => None
  | (pattern, level) :: patterns' =>
      if re_match pattern (text line) then
        if near_margin line left_margin then Some level
        else match_structure patterns' line left_margin
      else match_structure patterns' line left_margin
  end.

(** The body of the loop of [find_headings]: the heading appended for
    [line], if any. *)
Definition classify_line (line : LogicalLine) (profile : Profile)
  : option Heading :=
  if negative_filter (text line) then None
  else
    match match_structure structural_patterns line (left_margin profile) with
    | Some level => Some (mkHeading line level)
    | None =>
        if str_in (strip (text line)) special_h1s then
          if is_bold line
             || Qltb (baseline_font_size profile) (font_size line)
          then Some (mkHeading line H1)
          else None
        else None
    end.

Fixpoint find_headings (lines : list LogicalLine) (profile : Profile)
  : list Heading :=
  match lines with
  | [] => []
  | line :: lines' =>
      match classify_line line profile with
      | Some h => h :: find_headings lines' profile
      | None => find_headings lines' profile
      end
  end.

(** *** Stage 3: finalisation *)

(** [^[0-9０-９०-९]+[.\．、]\s*] *)
Definition h1_pattern : regex := Cat num (Cat (Cls separator) (Star ws)).
(** [^[0-9０-９०-९]+[.\．、]] *)
Definition numbered : regex := Cat num (Cls separator).

(** The [while] loop: [current] absorbs [nxt] and the scan resumes after
    [nxt], or [current] is kept as it is. *)
Fixpoint merge_headings (headings : list Heading) : list Heading :=
  match headings with
  | [] => []
  | current :: rest =>
      match rest with
      | [] => [current]
      | nxt :: rest' =>
          let next_line_is_not_heading :=
            negb (re_match numbered (text (line nxt))) in
          if same_page current nxt
             && re_match h1_pattern (text (line current))
             && next_line_is_not_heading
          then
            set_text current
              (strip (text (line current)) ++ space
               ++ strip (text (line nxt)))
            :: merge_headings rest'
          else current :: merge_headings rest
      end
  end.

Definition finalize_outline (headings : list Heading) (profile : Profile)
  : list OutlineEntry :=
  match headings with
  | [] => []
  | _ :: _ =>
      let merged_headings := merge_headings (sort_headings headings) in
      format_outline merged_headings (page_offset profile) []
  end.

(** *** Orchestration *)

Definition run (doc : Pdf) : result Output :=
  lp <- extract_and_group_lines doc ;;
  let (lines, profile) := lp : list LogicalLine * Profile in
  title <- extract_title lines ;;
  let headings := find_headings lines profile in
  let outline := finalize_outline headings profile in
  Ok (mkOutput (strip title ++ u "  ") outline).

(** [try: ... except Exception: return {"title": "", "outline": []}] *)
Definition process_single_pdf (doc : Pdf) : Output :=
  match run doc with
  | Ok r => r
  | Raise _ => mkOutput [] []
  end.

End Pipeline.
End process_pdfs.

(** ** outline_extractor.py

    The older variant of the pipeline.  Only the code that runs is modelled:
    the statements after the first [return] of [extract_title] and of
    [find_headings] are unreachable. *)

(** [s.split()]: the maximal runs of characters that are not whitespace;
    only their number is used. *)
Fixpoint count_words (in_word : bool) (s : str) : Z :=
  match s with
  | [] => 0
  | c :: s' =>
      if isspace c then count_words false s'
      else if in_word then count_words true s'
      else 1 + count_words true s'
  end.

Definition word_count (s : str) : Z := count_words false s.

(** [s.replace(old, new)] for a non-empty [old]: the occurrences are
    replaced from left to right without overlap; [skip] counts the
    characters of an occurrence still to be passed over. *)
Fixpoint replace_from (skip : nat) (old new s : str) : str :=
  match s with
  | [] => []
  | c :: s' =>
      match skip with
      | S k => replace_from k old new s'
      | O =>
          if startswith old s
          then new ++ replace_from (Nat.pred (length old)) old new s'
          else c :: replace_from O old new s'
      end
  end.

Definition replace (old new s : str) : str := replace_from O old new s.

Fixpoint takewhile (p : char -> bool) (s : str) : str :=
  match s with
  | [] => []
  | c :: s' => if p c then c :: takewhile p s' else []
  end.

(** [s.count('.')] for a one-character needle *)
Definition count_char (c : char) (s : str) : Z :=
  len (filter (char_eqb c) s).
Arguments count_char c%_N s.

Module outline_extractor.

Record Profile : Type := mkProfile {
  baseline_font_size : Q;
  page_offset : Z
}.

Section Pipeline.
Context {U : Unicode}.

(** *** Stage 1: the document profile of [extract_and_group_lines] *)

(** The part under [# Build Document Profile]. *)
Definition build_profile (logical_lines : list LogicalLine)
  : result Profile :=
  let font_sizes :=
    map font_size (filter (fun s => 20 <? len (text s)) logical_lines) in
  baseline_font_size <-
    match font_sizes with
    | [] => Ok (12 # 1)%Q
    | _ :: _ =>
        it <- index0 (most_common_1 (Counter Qeq_bool font_sizes)) ;;
        Ok (fst it)
    end ;;
  let page_0_lines := filter (fun line => page line =? 0) logical_lines in
  let page_offset := if len page_0_lines <? 5 then 1 else 0 in
  Ok (mkProfile baseline_font_size page_offset).

(** The spans of a line are joined with a space. *)
Definition extract_and_group_lines (doc : Pdf)
  : result (list LogicalLine * Profile) :=
  logical_lines <- logical_lines_of space (sorted_groups doc) ;;
  profile <- build_profile logical_lines ;;
  Ok (logical_lines, profile).

(** *** Stage 2: title and headings *)

Definition extract_title (lines : list LogicalLine) : result str :=
  let page_0_lines := filter (fun line => page line =? 0) lines in
  match page_0_lines with
  | [] => Ok []
  | _ :: _ =>
      max_y <- py_max (map (fun line => y1 (bbox line)) page_0_lines) ;;
      let top_lines :=
        filter (fun line => Qltb (y0 (bbox line)) ((2 # 5) * max_y)%Q)
               page_0_lines in
      match top_lines with
      | [] => Ok []
      | _ :: _ =>
          max_font <- py_max (map font_size top_lines) ;;
          let candidate_lines :=
            filter (fun line =>
                      Qle_bool (Qabs (font_size line - max_font)%Q) (1 # 2)%Q)
                   top_lines in
          let title :=
            join space (map (fun line => strip (text line)) candidate_lines) in
          Ok (strip (collapse_ws title))
      end
  end.

Definition d : regex := Cls isdecimal.
Definition dot : regex := Chr 46.
Definition ws : regex := Cls isspace.
Definition AZ : regex := Cls upper_AZ.

(** [^\d{1,2} [A-Z]{3,}] *)
Definition date_like : regex :=
  Cat (Cat d (Alt d Eps)) (Cat (Chr 32) (Cat AZ (Cat AZ (Cat AZ (Star AZ))))).

(** [^page\s+\d+\s+of\s+\d+] *)
Definition page_footer : regex :=
  Cat (Lit (u "page")) (Cat (Plus ws) (Cat (Plus d) (Cat (Plus ws)
    (Cat (Lit (u "of")) (Cat (Plus ws) (Plus d)))))).

(** The first group of the numbering pattern: [\d+] followed by any
    number of [\.\d+]. *)
Definition numbering : regex := Cat (Plus d) (Star (Cat dot (Plus d))).

(** The numbering as group 1, then [\s+.+]. *)
Definition numbered_heading : regex :=
  Cat numbering (Cat (Plus ws) (Plus (Cls any_char))).

(** [numbered_match.group(1)]: the group ends where whitespace begins, and
    a numbering holds digits and dots only, so the group is the longest
    prefix of [text] made of digits and dots. *)
Definition group1 (text : str) : str :=
  takewhile (fun c => isdecimal c || char_eqb c 46) text.

Definition common_section_prefixes : list regex :=
  [ Cat (Lit (u "Chapter")) (Cat (Plus ws) (Plus d));
    Cat (Lit (u "Section")) (Cat (Plus ws) (Plus d));
    Cat (Lit (u "Capítulo")) (Cat (Plus ws) (Plus d));
    Cat (Lit (u "अध्याय")) (Cat (Plus ws) (Plus d));
    Cat (Lit (u "प्रकरण")) (Cat (Plus ws) (Plus d));
    Cat (Lit (u "第")) (Cat (Plus d) (Lit (u "章")));
    Cat (Lit (u "第")) (Cat (Plus d) (Lit (u "节"))) ].

(** [f'H{level}'] for [level <= 3] *)
Definition level_of (n : Z) : option Level :=
  if n =? 1 then Some H1
  else if n =? 2 then Some H2
  else if n =? 3 then Some H3
  else None.

(** The tail of [is_strong_heading], after the structural test. *)
Definition weaker_rules (line : LogicalLine) (text : str)
           (baseline_size : Q) : option Level :=
  if existsb (fun pat => re_match pat text) common_section_prefixes
  then Some H1
  else
    let is_large :=
      Qltb (float_mul baseline_size float_1_4) (font_size line) in
    let is_short := word_count text <=? 10 in
    if is_large && is_bold line && is_short then Some H2 else None.

(** [False] is [None]. *)
Definition is_strong_heading (line : LogicalLine) (baseline_size : Q)
  : option Level :=
  let text := strip (text line) in
  if (len text <? 3) || (20 <? word_count text) then None
  else if re_match date_like text then None
  else if re_match page_footer (lower text) then None
  else if re_match numbered_heading text then
    let level := count_char 46 (group1 text) + 1 in
    if level <=? 3 then level_of level
    else weaker_rules line text baseline_size
  else weaker_rules line text baseline_size.

Definition strong_H1s : list str :=
  [ u "Revision History"; u "Table of Contents"; u "Acknowledgements";
    u "References" ].

(** The first loop of [find_headings]. *)
Fixpoint special_headings (lines : list LogicalLine) : list Heading :=
  match lines with
  | [] => []
  | line :: lines' =>
      if str_in (strip (text line)) strong_H1s
      then mkHeading line H1 :: special_headings lines'
      else special_headings lines'
  end.

(** The second loop of [find_headings]. *)
Fixpoint regular_headings (lines : list LogicalLine) (baseline_size : Q)
  : list Heading :=
  match lines with
  | [] => []
  | line :: lines' =>
      if str_in (strip (text line)) strong_H1s
      then regular_headings lines' baseline_size
      else
        match is_strong_heading line baseline_size with
        | Some level =>
            mkHeading line level :: regular_headings lines' baseline_size
        | None => regular_headings lines' baseline_size
        end
  end.

Definition find_headings (lines : list LogicalLine) (profile : Profile)
  : list Heading :=
  special_headings lines
  ++ regular_headings lines (baseline_font_size profile).

(** *** Stage 3: finalisation *)

(** [^\d\.\s] *)
Definition stub_pattern : regex := Cat d (Cat dot ws).
(** [^\d\.] *)
Definition numbered : regex := Cat d dot.

Fixpoint merge_headings (headings : list Heading) : list Heading :=
  match headings with
  | [] => []
  | current :: rest =>
      match rest with
      | [] => [current]
      | nxt :: rest' =>
          if same_page current nxt
             && re_match stub_pattern (text (line current))
             && negb (re_match numbered (text (line nxt)))
          then
            set_text current
              (replace (u " - ") (u " – ") (text (line current))
               ++ text (line nxt))
            :: merge_headings rest'
          else current :: merge_headings rest
      end
  end.

Definition finalize_outline (headings : list Heading) (profile : Profile)
  : list OutlineEntry :=
  match headings with
  | [] => []
  | _ :: _ =>
      let merged_headings := merge_headings (sort_headings headings) in
      format_outline merged_headings (page_offset profile) []
  end.

(** *** Orchestration *)

Definition run (doc : Pdf) : result Output :=
  lp <- extract_and_group_lines doc ;;
  let (lines, profile) := lp : list LogicalLine * Profile in
  title <- extract_title lines ;;
  let headings := find_headings lines profile in
  let outline := finalize_outline headings profile in
  Ok (mkOutput (strip title ++ u "  ") outline).

Definition process_single_pdf (doc : Pdf) : Output :=
  match run doc with
  | Ok r => r
  | Raise _ => mkOutput [] []
  end.

End Pipeline.
End outline_extractor.

(** ** Vocabulary of the statements *)

(** A non-empty run of numerals of the three supported scripts. *)
Definition numerals (n : str) : Prop :=
  n <> [] /\ forallb process_pdfs.numeral n = true.

Definition period : char := 46%N.

(** [line] with another text. *)
Definition with_text (l : LogicalLine) (t : str) : LogicalLine :=
  mkLine t (font_size l) (font_name l) (is_bold l) (page l) (bbox l).

(** The entry that the last loop of [finalize_outline] builds for [item],
    and the deduplication key read back from an entry. *)
Definition entry_of (item : Heading) (page_offset : Z) : OutlineEntry :=
  mkEntry (level item) (clean_text item ++ space) (final_page item page_offset).

Definition entry_key {U : Unicode} (e : OutlineEntry) : str * Z :=
  (lower (removelast (o_text e)), o_page e).

(** Every whitespace character of [s] is U+0020 and no two of them are
    adjacent; [prev_space] tells that a space precedes [s]. *)
Fixpoint single_spaced (prev_space : bool) (s : str) : bool :=
  match s with
  | [] => true
  | c :: s' =>
      if isspace c then char_eqb c 32 && negb prev_space && single_spaced true s'
      else single_spaced false s'
  end.

Definition nonspace (c : char) : bool := negb (isspace c).

(** No whitespace at either end. *)
Definition trimmed (s : str) : Prop := lstrip s = s /\ rstrip s = s.

(** The text of a logical line is the result of [strip()]. *)
Definition stripped (s : str) : Prop := strip s = s.


(** The text of [a] once it has absorbed [b], in process_pdfs.py. *)
Definition merged_text (a b : Heading) : str :=
  strip (text (line a)) ++ space ++ strip (text (line b)).

(** The key under which [list.sort] orders the headings. *)
Definition sort_key (h : Heading) : Z * Q := (page (line h), y0 (bbox (line h))).

(** [a], [b] is the order in which the sort leaves the two of them. *)
Definition in_order (a b : Heading) : Prop :=
  lt_int_float (sort_key b) (sort_key a) = false.

(** The [while] loop of [finalize_outline] has one shape in both scripts:
    [absorbs current nxt] is the test and [combine current nxt] the heading
    kept. *)
Section MergeScheme.
Variable absorbs : Heading -> Heading -> bool.
Variable combine : Heading -> Heading -> Heading.

Fixpoint merge_with (headings : list Heading) : list Heading :=
  match headings with
  | [] => []
  | current :: rest =>
      match rest with
      | [] => [current]
      | nxt :: rest' =>
          if absorbs current nxt then combine current nxt :: merge_with rest'
          else current :: merge_with rest
      end
  end.
End MergeScheme.

Definition pp_absorbs (current nxt : Heading) : bool :=
  same_page current nxt
  && re_match process_pdfs.h1_pattern (text (line current))
  && negb (re_match process_pdfs.numbered (text (line nxt))).

Definition pp_combine (current nxt : Heading) : Heading :=
  set_text current (merged_text current nxt).

Definition oe_absorbs {U : Unicode} (current nxt : Heading) : bool :=
  same_page current nxt
  && re_match outline_extractor.stub_pattern (text (line current))
  && negb (re_match outline_extractor.numbered (text (line nxt))).

Definition oe_combine (current nxt : Heading) : Heading :=
  set_text current
    (replace (u " - ") (u " – ") (text (line current)) ++ text (line nxt)).


(** [s] is [l] with some elements left out, the order kept. *)
Inductive subseq (A : Type) : list A -> list A -> Prop :=
| subseq_nil : subseq [] []
| subseq_skip x s l : subseq s l -> subseq s (x :: l)
| subseq_take x s l : subseq s l -> subseq (x :: s) (x :: l).

(** The key under which [extract_and_group_lines] files a logical line:
    its page and the integer part of the top of its box. *)
Definition line_key (l : LogicalLine) : Z * Z :=
  (page l, int_of_float (y0 (bbox l))).

Definition group_key (g : Group) : Z * Z :=
  (group_page g, int_of_float (y0 (group_bbox g))).

(** The spans of the text blocks of a document, page by page. *)
Definition block_spans (b : Block) : list Span :=
  if block_type b =? 0 then concat (map line_spans (block_lines b)) else [].

Definition pdf_spans (doc : Pdf) : list Span :=
  concat (map (fun pg => concat (map block_spans pg)) doc).

(** What the dictionary [lines] satisfies all along the first loop: a group
    is filed under its page and the integer part of the top of its box, the
    pages are those visited so far, and no key occurs twice. *)
Definition lines_ok (n : Z) (lines : list (Z * Z * Group)) : Prop :=
  NoDup (map fst lines)
  /\ forall k g, In (k, g) lines -> k = group_key g /\ 0 <= group_page g < n.

(** All the spans held by the dictionary. *)
Definition held_spans (lines : list (Z * Z * Group)) : list Span :=
  concat (map (fun kg => spans (snd kg)) lines).

(** The left edge of a span. *)
Definition span_left (s : Span) : Q := x0 (span_bbox s).

(** The text lines of the document in the order in which the first loop of
    [extract_and_group_lines] visits them, each with its page number. *)
Definition block_text_lines (b : Block) : list TextLine :=
  if block_type b =? 0 then block_lines b else [].

Fixpoint pdf_lines (page_num : Z) (doc : list Page) : list (Z * TextLine) :=
  match doc with
  | [] => []
  | pg :: doc' =>
      map (pair page_num) (concat (map block_text_lines pg))
      ++ pdf_lines (page_num + 1) doc'
  end.

(** [(page_num, int(line_bbox[1]))] of a raw line. *)
Definition raw_key (ptl : Z * TextLine) : Z * Z :=
  (fst ptl, int_of_float (y0 (line_bbox (snd ptl)))).

(** The raw lines of a row: those with the key [k], in document order. *)
Definition lines_at (k : Z * Z) (L : list (Z * TextLine))
  : list (Z * TextLine) :=
  filter (fun ptl => int_int_eqb (raw_key ptl) k) L.

(** The group [g] is the row [k] of the raw lines [L]: it holds the spans of
    all the lines of the row, in document order, with the box and the page
    of the first of them. *)
Definition gathers (L : list (Z * TextLine)) (k : Z * Z) (g : Group) : Prop :=
  match lines_at k L with
  | [] => False
  | first :: _ =>
      spans g = concat (map (fun ptl => line_spans (snd ptl)) (lines_at k L))
      /\ group_bbox g = line_bbox (snd first)
      /\ group_page g = fst first
  end.

(** The dictionary [lines] after the raw lines [L] have been visited. *)
Definition rows_of (L : list (Z * TextLine)) (lines : list (Z * Z * Group))
  : Prop :=
  NoDup (map fst lines)
  /\ (forall k g, In (k, g) lines -> gathers L k g)
  /\ (forall ptl, In ptl L -> exists g, In (raw_key ptl, g) lines).

(** Spans from left to right. *)
Definition left_to_right (ss : list Span) : Prop :=
  StronglySorted (fun a b => (span_left a <= span_left b)%Q) ss.

(** The logical line [l] is read off the row [g]: its text is the trimmed
    join of the texts of the spans of the row taken from left to right, its
    font is the one of the leftmost span, its page and box are the row's. *)
Definition reads {U : Unicode} (sep : str) (g : Group) (l : LogicalLine)
  : Prop :=
  exists s ss,
    Permutation (s :: ss) (spans g)
    /\ left_to_right (s :: ss)
    /\ text l = strip (join sep (map span_text (s :: ss)))
    /\ font_size l = span_size s
    /\ font_name l = span_font s
    /\ is_bold l = contains (u "bold") (lower (span_font s))
                   || negb (Z.land (span_flags s) 16 =? 0)
    /\ page l = group_page g
    /\ bbox l = group_bbox g.

(** A row without text: the joined texts of its spans are whitespace. *)
Definition blank_row (sep : str) (g : Group) : Prop :=
  strip (join sep (map span_text (sort_spans (spans g)))) = [].

(** Lines from top to bottom, page after page, no two of them with the
    same page and integer height. *)
Definition reading_order (ls : list LogicalLine) : Prop :=
  StronglySorted (fun l l' => lt_int_int (line_key l) (line_key l') = true) ls.

(** How often [x] occurs in [xs], up to the equality [eqb] of the values. *)
Definition occurrences (A : Type) (eqb : A -> A -> bool) (x : A)
           (xs : list A) : Z :=
  len (filter (eqb x) xs).

(** [m] is the first of the most frequent values of [xs]: no value occurs
    more often, and every value in front of [m] occurs less often. *)
Definition first_mode (A : Type) (eqb : A -> A -> bool) (xs : list A)
           (m : A) : Prop :=
  exists pre post,
    xs = pre ++ m :: post
    /\ (forall y, In y pre -> occurrences eqb y xs < occurrences eqb m xs)
    /\ (forall y, In y xs -> occurrences eqb y xs <= occurrences eqb m xs).

(** The font sizes and the integer left edges of the lines whose text is
    longer than [n] characters, in the order of the lines. *)
Definition sizes_of_long (n : Z) (lines : list LogicalLine) : list Q :=
  map font_size (filter (fun s => n <? len (text s)) lines).

Definition margins_of_long (n : Z) (lines : list LogicalLine) : list Z :=
  map (fun l => int_of_float (x0 (bbox l)))
      (filter (fun l => n <? len (text l)) lines).

(** [m] is the largest of the values [f l] of the lines [ls]. *)
Definition largest (f : LogicalLine -> Q) (ls : list LogicalLine) (m : Q)
  : Prop :=
  (exists l, In l ls /\ f l = m) /\ forall l, In l ls -> (f l <= m)%Q.

Definition on_page_0 (lines : list LogicalLine) : list LogicalLine :=
  filter (fun line => page line =? 0) lines.

(** [a] is not below [b], nor right of it at the same height. *)
Definition top_left (a b : LogicalLine) : Prop :=
  lt_float_float (y0 (bbox b), x0 (bbox b)) (y0 (bbox a), x0 (bbox a)) = false.

(** The lines of page 0 that begin in the top 40% of the height [max_y]. *)
Definition top_lines (max_y : Q) (lines : list LogicalLine)
  : list LogicalLine :=
  filter (fun line => Qltb (y0 (bbox line)) ((2 # 5) * max_y)%Q)
         (on_page_0 lines).

(** A non-empty run of decimal digits, as [\d+] reads it. *)
Definition digits {U : Unicode} (n : str) : Prop :=
  n <> [] /\ forallb isdecimal n = true.

(** The two facts about the decimal digits of the character database that
    the numbering rules rest on: a digit is not whitespace, and the full
    stop is not a digit. *)
Definition decimals_are_plain (U : Unicode) : Prop :=
  forall c, isdecimal c = true -> isspace c = false /\ c <> 46%N.

(** The noise filter of [is_strong_heading] lets the trimmed text [t]
    through. *)
Definition oe_passes {U : Unicode} (t : str) : Prop :=
  3 <= len t /\ word_count t <= 20
  /\ re_match outline_extractor.date_like t = false
  /\ re_match outline_extractor.page_footer (lower t) = false.

(** The segments written with full stops between them: 2.1.3 *)
Definition dotted (segs : list str) : str := join [46%N] segs.

(** Two headings that differ in their page or in their height, and a list
    of headings of which any two do. *)
Definition apart (a b : Heading) : Prop :=
  lt_int_float (sort_key a) (sort_key b) = true
  \/ lt_int_float (sort_key b) (sort_key a) = true.

Definition distinct_positions (hs : list Heading) : Prop :=
  ForallOrdPairs apart hs.

(** The heading [m] left by the merge is built from the heading [h] of
    [hs]: it is [h], or [h] with the text that [combine] gives it when it
    absorbs a heading [h'] of [hs]. *)
Definition built_from (absorbs : Heading -> Heading -> bool)
           (combine : Heading -> Heading -> Heading) (hs : list Heading)
           (m h : Heading) : Prop :=
  m = h \/ exists h', In h' hs /\ absorbs h h' = true /\ m = combine h h'.

(** [m] stands for [h] after the merge: it is built from [h], or it is the
    heading that absorbed [h]. *)
Definition stands_for (absorbs : Heading -> Heading -> bool)
           (combine : Heading -> Heading -> Heading) (hs : list Heading)
           (m h : Heading) : Prop :=
  built_from absorbs combine hs m h
  \/ exists h0, In h0 hs /\ absorbs h0 h = true /\ m = combine h0 h.

(** The page law of a finaliser that is given the headings [hs], whose
    merge leaves the headings [merged] and whose outline is [out]: every
    entry is the entry of one merged heading - its level, its cleaned text
    and its page together - and that heading is built from a heading of
    [hs] which gives the entry its level and its page, raw page plus one
    minus the offset; every heading of [hs] has a merged heading standing
    for it, and the entry under the key of that merged heading reports the
    page of the heading. *)
Definition normalises_pages {U : Unicode}
           (absorbs : Heading -> Heading -> bool)
           (combine : Heading -> Heading -> Heading)
           (hs merged : list Heading) (out : list OutlineEntry) (off : Z)
  : Prop :=
  (forall e, In e out ->
     exists m h,
       In m merged /\ In h hs /\ built_from absorbs combine hs m h
       /\ e = entry_of m off
       /\ o_level e = level h
       /\ o_page e = page (line h) + 1 - off
       /\ (off = 1 -> page (line h) = 1 -> o_page e = 1)
       /\ (off = 0 -> page (line h) = 0 -> o_page e = 1))
  /\ (forall h, In h hs ->
        exists m e,
          In m merged /\ stands_for absorbs combine hs m h
          /\ In e out /\ entry_key e = key_of m off
          /\ o_page e = page (line h) + 1 - off).

(** ** Sample inputs *)

Definition sample_line (t : str) (size : Q) (bold : bool) (pg : Z) (x y : Q)
  : LogicalLine :=
  mkLine t size (u "Helvetica") bold pg (mkRect x y (x + 200) (y + size)).

Definition sample_span (t : str) (size : Q) (flags : Z) (x y : Q) : Span :=
  mkSpan t size (u "Helvetica") flags (mkRect x y (x + 200) (y + size)).

(** A block holding one line made of one span. *)
Definition one_line (s : Span) : Block :=
  mkBlock 0 [mkTextLine (span_bbox s) [s]].

(** Two pages: a cover that holds one numbered line, then a page of body
    text. *)
Definition cover_pdf : Pdf :=
  [ [ one_line (sample_span (u "1. Introduction") 16 16 72 100) ];
    [ one_line (sample_span (u "This is the body text of the report.")
                            10 0 72 100) ] ].

(** One page holding two short lines. *)
Definition flyer_pdf : Pdf :=
  [ [ one_line (sample_span (u "References") 10 0 72 100);
      one_line (sample_span (u "See you there") 10 0 72 130) ] ].

(** A page whose only span is blank: no logical line comes out of it. *)
Definition blank_pdf : Pdf :=
  [ [ one_line (sample_span (u "   ") 10 0 72 100) ] ].

(** Scenario B of the specification. *)
Definition overview : Heading :=
  mkHeading (sample_line (u "3. Overview") 14 true 2 72 100) H1.
Definition syllabus : Heading :=
  mkHeading (sample_line (u "Syllabus") 14 true 2 72 120) H1.
Definition appendix : Heading :=
  mkHeading (sample_line (u "References") 14 true 2 72 140) H1.


(** A first page with a two-line heading in large type above a paragraph. *)
Definition title_page : list LogicalLine :=
  [ sample_line (u "Annual") 24 true 0 72 80;
    sample_line (u "Report") 24 true 0 72 110;
    sample_line (u "This is the body text of the report.") 10 false 0 72 300;
    sample_line (u "1. Introduction") 16 true 1 72 100 ].


(** The keyword in the body type: baseline size, not bold. *)
Definition plain_references : LogicalLine :=
  sample_line (u "References") 12 false 4 72 100.

(** * Properties *)

(** ** The matcher computes the language *)

Lemma nullable_spec (r : regex) : nullable r = true <-> matches r [].
Proof.
  split.
  - induction r; simpl; intros H; try discriminate.
    + constructor.
    + apply andb_true_iff in H as [H1 H2].
      change (@nil char) with (@nil char ++ []). constructor; auto.
    + apply orb_true_iff in H as [H | H]; [apply m_alt_l | apply m_alt_r]; auto.
    + constructor.
  - intros H. remember (@nil char) as s eqn:E.
    induction H; simpl; auto; try discriminate.
    + apply app_eq_nil in E as [-> ->]. rewrite IHmatches1, IHmatches2; auto.
    + rewrite IHmatches; auto.
    + rewrite IHmatches; auto. apply orb_true_r.
Qed.

Lemma matches_void_inv (s : str) : ~ matches Void s.
Proof. intros H. inversion H. Qed.

Lemma matches_eps_inv (s : str) : matches Eps s -> s = [].
Proof. intros H. now inversion H. Qed.

Lemma matches_cls_inv (p : char -> bool) (s : str) :
  matches (Cls p) s -> exists c, s = [c] /\ p c = true.
Proof. intros H. inversion H; subst. now exists c. Qed.

Lemma matches_cat_inv (r1 r2 : regex) (s : str) :
  matches (Cat r1 r2) s ->
  exists s1 s2, s = s1 ++ s2 /\ matches r1 s1 /\ matches r2 s2.
Proof. intros H. inversion H; subst. now exists s1, s2. Qed.

Lemma matches_alt_inv (r1 r2 : regex) (s : str) :
  matches (Alt r1 r2) s -> matches r1 s \/ matches r2 s.
Proof. intros H. inversion H; subst; auto. Qed.

Lemma deriv_sound (c : char) (r : regex) :
  forall s, matches (deriv c r) s -> matches r (c :: s).
Proof.
  induction r; simpl; intros s H.
  - now apply matches_void_inv in H.
  - now apply matches_void_inv in H.
  - destruct (p c) eqn:E.
    + apply matches_eps_inv in H as ->. now constructor.
    + now apply matches_void_inv in H.
  - assert (C : forall t, matches (Cat (deriv c r1) r2) t ->
                          matches (Cat r1 r2) (c :: t)).
    { intros t M. apply matches_cat_inv in M as (s1 & s2 & -> & M1 & M2).
      change (c :: s1 ++ s2) with ((c :: s1) ++ s2). constructor; auto. }
    destruct (nullable r1) eqn:N; auto.
    apply matches_alt_inv in H as [H | H]; auto.
    change (c :: s) with ([] ++ c :: s). constructor; auto.
    now apply nullable_spec.
  - apply matches_alt_inv in H as [H | H]; [apply m_alt_l | apply m_alt_r]; auto.
  - apply matches_cat_inv in H as (s1 & s2 & -> & M1 & M2).
    change (c :: s1 ++ s2) with ((c :: s1) ++ s2). constructor; auto.
Qed.

Lemma deriv_complete (c : char) (r : regex) (t : str) :
  matches r t -> forall tl, t = c :: tl -> matches (deriv c r) tl.
Proof.
  induction 1 as [| p a Hp | r1 r2 s1 s2 M1 IH1 M2 IH2 | r1 r2 s M IH
                  | r1 r2 s M IH | r | r s1 s2 M1 IH1 M2 IH2];
    intros tl E; simpl.
  - discriminate.
  - injection E as -> <-. rewrite Hp. constructor.
  - destruct s1 as [| a s1'].
    + simpl in E. subst s2.
      apply nullable_spec in M1 as ->. apply m_alt_r. now apply IH2.
    + simpl in E. injection E as -> <-.
      assert (M : matches (Cat (deriv c r1) r2) (s1' ++ s2))
        by (constructor; auto).
      destruct (nullable r1); [now apply m_alt_l | exact M].
  - apply m_alt_l; auto.
  - apply m_alt_r; auto.
  - discriminate.
  - destruct s1 as [| a s1'].
    + simpl in E. now apply IH2.
    + simpl in E. injection E as -> <-. constructor; auto.
Qed.

Lemma re_match_spec (r : regex) (s : str) :
  re_match r s = true <-> exists p q, s = p ++ q /\ matches r p.
Proof.
  revert r. induction s as [| c s IH]; intros r; simpl.
  - rewrite orb_false_r, nullable_spec. split.
    + intros M. now exists [], [].
    + intros (p & q & E & M). symmetry in E.
      apply app_eq_nil in E as [-> _]. exact M.
  - rewrite orb_true_iff, nullable_spec, IH. split.
    + intros [M | (p & q & -> & M)].
      * now exists [], (c :: s).
      * exists (c :: p), q. split; auto. now apply deriv_sound.
    + intros (p & q & E & M). destruct p as [| a p].
      * now left.
      * right. simpl in E. injection E as <- ->.
        exists p, q. split; auto. now apply deriv_complete with (t := c :: p).
Qed.

Lemma re_match_false (r : regex) (s : str) :
  re_match r s = false <-> forall p q, s = p ++ q -> ~ matches r p.
Proof.
  rewrite <- not_true_iff_false, re_match_spec. split.
  - intros N p q E M. apply N. now exists p, q.
  - intros N (p & q & E & M). exact (N p q E M).
Qed.

Lemma matches_star_cls (P : char -> bool) (s : str) :
  matches (Star (Cls P)) s <-> forallb P s = true.
Proof.
  split.
  - intros M. remember (Star (Cls P)) as r eqn:E.
    induction M as [| | | | | r | r s1 s2 M1 _ M2 IH2]; try discriminate; auto.
    injection E as ->.
    apply matches_cls_inv in M1 as (c & -> & Hc).
    simpl. rewrite Hc. now apply IH2.
  - induction s as [| c s IH]; simpl; intros H.
    + constructor.
    + apply andb_true_iff in H as [Hc Hs].
      change (c :: s) with ([c] ++ s). constructor; auto. now constructor.
Qed.

Lemma matches_plus_cls (P : char -> bool) (s : str) :
  matches (Plus (Cls P)) s <-> s <> [] /\ forallb P s = true.
Proof.
  unfold Plus. split.
  - intros M. apply matches_cat_inv in M as (s1 & s2 & -> & M1 & M2).
    apply matches_cls_inv in M1 as (c & -> & Hc).
    apply matches_star_cls in M2. simpl. rewrite Hc. split; auto. discriminate.
  - intros [N H]. destruct s as [| c s]; [congruence |].
    simpl in H. apply andb_true_iff in H as [Hc Hs].
    change (c :: s) with ([c] ++ s). constructor.
    + now constructor.
    + now apply matches_star_cls.
Qed.

Lemma matches_chr (c : char) (s : str) : matches (Chr c) s <-> s = [c].
Proof.
  unfold Chr. split.
  - intros M. apply matches_cls_inv in M as (a & -> & H).
    apply N.eqb_eq in H. now subst.
  - intros ->. constructor. apply N.eqb_refl.
Qed.

(** A pattern that begins with a run of a class only matches text that
    begins with a character of the class. *)
Lemma re_match_plus_head (P : char -> bool) (r : regex) (s : str) :
  re_match (Cat (Plus (Cls P)) r) s = true ->
  exists c s', s = c :: s' /\ P c = true.
Proof.
  intros H. apply re_match_spec in H as (p & q & -> & M).
  apply matches_cat_inv in M as (s1 & s2 & -> & M1 & _).
  apply matches_plus_cls in M1 as [N F].
  destruct s1 as [| c s1]; [congruence |].
  simpl in F. apply andb_true_iff in F as [Hc _].
  exists c, ((s1 ++ s2) ++ q). now rewrite <- !app_assoc.
Qed.

(** Two readings of one text as a run of a class closed by a character
    outside the class agree. *)
Lemma span_unique (P : char -> bool) :
  forall (xs ys : str) (a b : char) (r1 r2 : str),
    forallb P xs = true -> forallb P ys = true ->
    P a = false -> P b = false ->
    xs ++ a :: r1 = ys ++ b :: r2 ->
    xs = ys /\ a = b /\ r1 = r2.
Proof.
  induction xs as [| x xs IH]; intros [| y ys] a b r1 r2 Fx Fy Ha Hb E;
    simpl in *.
  - now injection E as -> ->.
  - injection E as -> _. apply andb_true_iff in Fy as [Fy _]. congruence.
  - injection E as -> _. apply andb_true_iff in Fx as [Fx _]. congruence.
  - injection E as -> E.
    apply andb_true_iff in Fx as [_ Fx]. apply andb_true_iff in Fy as [_ Fy].
    destruct (IH ys a b r1 r2 Fx Fy Ha Hb E) as (-> & -> & ->). auto.
Qed.

(** ** Whitespace and trimming *)

Lemma dropwhile_app_stop (P : char -> bool) (xs ys : str) (c : char) :
  P c = false ->
  dropwhile P (xs ++ c :: ys) = dropwhile P xs ++ c :: ys.
Proof.
  intros Hc. induction xs as [| x xs IH]; simpl.
  - now rewrite Hc.
  - destruct (P x); auto.
Qed.

Lemma rstrip_nil : rstrip [] = [].
Proof. reflexivity. Qed.

Lemma rstrip_cons_keep (c : char) (s : str) :
  isspace c = false -> rstrip (c :: s) = c :: rstrip s.
Proof.
  intros Hc. unfold rstrip. simpl.
  rewrite dropwhile_app_stop with (ys := []) by exact Hc.
  rewrite rev_app_distr. reflexivity.
Qed.

Lemma rstrip_cons (c : char) (s : str) :
  rstrip (c :: s) =
  match rstrip s with
  | [] => if isspace c then [] else [c]
  | _ :: _ => c :: rstrip s
  end.
Proof.
  destruct (isspace c) eqn:Hc.
  - unfold rstrip. simpl.
    destruct (dropwhile isspace (rev s)) as [| x l] eqn:D.
    + assert (E : dropwhile isspace (rev s ++ [c]) = []).
      { clear - D Hc. induction (rev s) as [| y l IH]; simpl in *.
        - now rewrite Hc.
        - destruct (isspace y); [auto | discriminate]. }
      now rewrite E.
    + assert (E : dropwhile isspace (rev s ++ [c]) = (x :: l) ++ [c]).
      { clear - D. induction (rev s) as [| y l' IH]; simpl in *.
        - discriminate.
        - destruct (isspace y); [auto | now injection D as -> ->]. }
      rewrite E, rev_app_distr. simpl.
      destruct (rev l ++ [x]) eqn:R; [now destruct (rev l) | reflexivity].
  - rewrite rstrip_cons_keep by exact Hc. now destruct (rstrip s).
Qed.


Lemma strip_cons_keep (c : char) (s : str) :
  isspace c = false -> strip (c :: s) = c :: rstrip s.
Proof.
  intros Hc. unfold strip, lstrip. simpl. rewrite Hc.
  now apply rstrip_cons_keep.
Qed.

(** ** Character classes *)

Ltac prop_of_bool :=
  repeat match goal with
    | H : (_ || _) = true |- _ => apply orb_true_iff in H as [H | H]
    | H : (_ && _) = true |- _ => apply andb_true_iff in H as [? H]
    | H : N.leb _ _ = true |- _ => apply N.leb_le in H
    | H : N.eqb _ _ = true |- _ => apply N.eqb_eq in H
    end.

Ltac class_disjoint :=
  apply not_true_iff_false; intros ?;
  unfold process_pdfs.numeral, process_pdfs.separator, isspace, upper_AZ,
    in_range, char_eqb, period in *;
  prop_of_bool; lia.

Lemma numeral_not_space (c : char) :
  process_pdfs.numeral c = true -> isspace c = false.
Proof. intros H. class_disjoint. Qed.


Lemma separator_not_numeral (c : char) :
  process_pdfs.separator c = true -> process_pdfs.numeral c = false.
Proof. intros H. class_disjoint. Qed.

Lemma space_not_numeral (c : char) :
  isspace c = true -> process_pdfs.numeral c = false.
Proof. intros H. class_disjoint. Qed.

Lemma period_not_numeral : process_pdfs.numeral period = false.
Proof. reflexivity. Qed.

Lemma period_separator : process_pdfs.separator period = true.
Proof. reflexivity. Qed.

Lemma numerals_head (n : str) :
  numerals n -> exists c n', n = c :: n' /\ process_pdfs.numeral c = true.
Proof.
  intros [N F]. destruct n as [| c n']; [congruence |].
  simpl in F. apply andb_true_iff in F as [Hc _]. now exists c, n'.
Qed.

Lemma str_eqb_eq (s t : str) : str_eqb s t = true <-> s = t.
Proof.
  revert t. induction s as [| a s IH]; intros [| b t]; simpl;
    try (split; [discriminate | congruence]); [tauto |].
  unfold char_eqb. rewrite andb_true_iff, N.eqb_eq, IH.
  split; [intros [-> ->] | intros E; injection E]; auto.
Qed.

Lemma str_eqb_refl (s : str) : str_eqb s s = true.
Proof. now apply str_eqb_eq. Qed.

Lemma key_eqb_eq (a b : str * Z) : key_eqb a b = true <-> a = b.
Proof.
  destruct a as [s n], b as [t m]. unfold key_eqb. simpl.
  rewrite andb_true_iff, str_eqb_eq, Z.eqb_eq.
  split; [intros [-> ->] | intros E; injection E]; auto.
Qed.

(** ** Classification in process_pdfs.py *)

Section Classification.
Context {U : Unicode}.
Import process_pdfs.

Lemma pattern_H1_intro (n rest : str) (s w : char) :
  numerals n -> separator s = true -> isspace w = true ->
  re_match pattern_H1 (n ++ s :: w :: rest) = true.
Proof.
  intros Hn Hs Hw. apply re_match_spec. exists (n ++ [s] ++ [w]), rest.
  split; [now rewrite <- !app_assoc |].
  unfold pattern_H1, num, ws. repeat constructor; auto.
  now apply matches_plus_cls.
Qed.

Lemma pattern_H1_inv (t : str) :
  re_match pattern_H1 t = true ->
  exists n s w rest, t = n ++ s :: w :: rest /\ numerals n
                     /\ separator s = true /\ isspace w = true.
Proof.
  intros H. apply re_match_spec in H as (p & q & -> & M).
  unfold pattern_H1, num, ws in M.
  apply matches_cat_inv in M as (n & p1 & -> & Mn & M).
  apply matches_cat_inv in M as (p2 & p3 & -> & Ms & Mw).
  apply matches_cls_inv in Ms as (s & -> & Hs).
  apply matches_cls_inv in Mw as (w & -> & Hw).
  apply matches_plus_cls in Mn.
  exists n, s, w, q. now rewrite <- !app_assoc.
Qed.

Lemma pattern_H2_intro (n m rest : str) (w : char) :
  numerals n -> numerals m -> isspace w = true ->
  re_match pattern_H2 (n ++ period :: m ++ w :: rest) = true.
Proof.
  intros Hn Hm Hw. apply re_match_spec.
  exists (n ++ [period] ++ m ++ [w]), rest.
  split; [now rewrite <- !app_assoc |].
  unfold pattern_H2, num, ws, dot.
  repeat constructor; auto; try now apply matches_plus_cls.
Qed.

Lemma pattern_H2_inv (t : str) :
  re_match pattern_H2 t = true ->
  exists n m w rest, t = n ++ period :: m ++ w :: rest /\ numerals n
                     /\ numerals m /\ isspace w = true.
Proof.
  intros H. apply re_match_spec in H as (p & q & -> & M).
  unfold pattern_H2, num, ws, dot in M.
  apply matches_cat_inv in M as (n & p1 & -> & Mn & M).
  apply matches_cat_inv in M as (p2 & p3 & -> & Md & M).
  apply matches_cat_inv in M as (m & p4 & -> & Mm & Mw).
  apply matches_chr in Md as ->.
  apply matches_cls_inv in Mw as (w & -> & Hw).
  apply matches_plus_cls in Mn. apply matches_plus_cls in Mm.
  exists n, m, w, q. now rewrite <- !app_assoc.
Qed.

Lemma pattern_H3_intro (n m k rest : str) (w : char) :
  numerals n -> numerals m -> numerals k -> isspace w = true ->
  re_match pattern_H3 (n ++ period :: m ++ period :: k ++ w :: rest) = true.
Proof.
  intros Hn Hm Hk Hw. apply re_match_spec.
  exists (n ++ [period] ++ m ++ [period] ++ k ++ [w]), rest.
  split; [now rewrite <- !app_assoc |].
  unfold pattern_H3, num, ws, dot.
  repeat constructor; auto; try now apply matches_plus_cls.
Qed.

Lemma pattern_H3_inv (t : str) :
  re_match pattern_H3 t = true ->
  exists n m k w rest,
    t = n ++ period :: m ++ period :: k ++ w :: rest /\ numerals n
    /\ numerals m /\ numerals k /\ isspace w = true.
Proof.
  intros H. apply re_match_spec in H as (p & q & -> & M).
  unfold pattern_H3, num, ws, dot in M.
  apply matches_cat_inv in M as (n & p1 & -> & Mn & M).
  apply matches_cat_inv in M as (p2 & p3 & -> & Md & M).
  apply matches_cat_inv in M as (m & p4 & -> & Mm & M).
  apply matches_cat_inv in M as (p5 & p6 & -> & Md' & M).
  apply matches_cat_inv in M as (k & p7 & -> & Mk & Mw).
  apply matches_chr in Md as ->. apply matches_chr in Md' as ->.
  apply matches_cls_inv in Mw as (w & -> & Hw).
  apply matches_plus_cls in Mn. apply matches_plus_cls in Mm.
  apply matches_plus_cls in Mk.
  exists n, m, k, w, q. now rewrite <- !app_assoc.
Qed.

Lemma pattern_H1_rejects (n m tail : str) :
  numerals n -> numerals m ->
  re_match pattern_H1 (n ++ period :: m ++ tail) = false.
Proof.
  intros Hn Hm. apply not_true_iff_false. intros H.
  apply pattern_H1_inv in H as (n' & s & w & rest & E & Hn' & Hs & Hw).
  apply span_unique with (P := numeral) in E as (_ & _ & E);
    try apply Hn; try apply Hn'; auto using period_not_numeral,
      separator_not_numeral.
  apply numerals_head in Hm as (c & m' & -> & Hc).
  simpl in E. injection E as -> _.
  apply numeral_not_space in Hc. congruence.
Qed.

Lemma pattern_H2_rejects (n m tail : str) :
  numerals n -> numerals m ->
  re_match pattern_H2 (n ++ period :: m ++ period :: tail) = false.
Proof.
  intros Hn Hm. apply not_true_iff_false. intros H.
  apply pattern_H2_inv in H as (n' & m' & w & rest & E & Hn' & Hm' & Hw).
  apply span_unique with (P := numeral) in E as (_ & _ & E);
    try apply Hn; try apply Hn'; auto using period_not_numeral.
  apply span_unique with (P := numeral) in E as (_ & E & _);
    try apply Hm; try apply Hm';
    auto using period_not_numeral, space_not_numeral.
  subst w. discriminate.
Qed.

Lemma pattern_H3_rejects (n m k tail : str) :
  numerals n -> numerals m -> numerals k ->
  re_match pattern_H3 (n ++ period :: m ++ period :: k ++ period :: tail)
  = false.
Proof.
  intros Hn Hm Hk. apply not_true_iff_false. intros H.
  apply pattern_H3_inv in H
    as (n' & m' & k' & w & rest & E & Hn' & Hm' & Hk' & Hw).
  apply span_unique with (P := numeral) in E as (_ & _ & E);
    try apply Hn; try apply Hn'; auto using period_not_numeral.
  apply span_unique with (P := numeral) in E as (_ & _ & E);
    try apply Hm; try apply Hm'; auto using period_not_numeral.
  apply span_unique with (P := numeral) in E as (_ & E & _);
    try apply Hk; try apply Hk';
    auto using period_not_numeral, space_not_numeral.
  subst w. discriminate.
Qed.

(** The loop over the three patterns, unrolled. *)
Lemma match_structure_unfold (line : LogicalLine) (lm : Z) :
  match_structure structural_patterns line lm =
  if near_margin line lm then
    if re_match pattern_H1 (text line) then Some H1
    else if re_match pattern_H2 (text line) then Some H2
    else if re_match pattern_H3 (text line) then Some H3
    else None
  else None.
Proof.
  unfold structural_patterns. simpl.
  destruct (near_margin line lm), (re_match pattern_H1 (text line)),
    (re_match pattern_H2 (text line)), (re_match pattern_H3 (text line));
    reflexivity.
Qed.

(** No keyword begins with a numeral. *)
Lemma special_h1s_heads :
  forallb (fun kw => match kw with
                     | [] => true
                     | c :: _ => negb (numeral c)
                     end) special_h1s = true.
Proof. vm_compute. reflexivity. Qed.

Lemma str_in_head (P : char -> bool) (set : list str) (c : char) (s : str) :
  forallb (fun kw => match kw with
                     | [] => true
                     | k :: _ => negb (P k)
                     end) set = true ->
  P c = true -> str_in (c :: s) set = false.
Proof.
  unfold str_in. induction set as [| kw set IH]; intros F Hc; [reflexivity |].
  cbn [forallb] in F. apply andb_true_iff in F as [Hk F].
  cbn [existsb]. rewrite (IH F Hc), orb_false_r.
  destruct kw as [| k kw]; [reflexivity |]. cbn [str_eqb].
  destruct (char_eqb c k) eqn:E; [| reflexivity].
  apply N.eqb_eq in E. subst k. rewrite Hc in Hk. discriminate.
Qed.

Lemma numbered_text_not_special (c : char) (s : str) :
  numeral c = true -> str_in (strip (c :: s)) special_h1s = false.
Proof.
  intros Hc. rewrite strip_cons_keep by now apply numeral_not_space.
  now apply str_in_head with (P := numeral); [apply special_h1s_heads |].
Qed.

(** A structural pattern only fires on text that begins with a
    numeral. *)
Lemma match_structure_head (line : LogicalLine) (lm : Z) (level : Level) :
  match_structure structural_patterns line lm = Some level ->
  exists c s, text line = c :: s /\ numeral c = true.
Proof.
  rewrite match_structure_unfold. intros H.
  destruct (near_margin line lm); [| discriminate].
  destruct (re_match pattern_H1 (text line)) eqn:E1;
    [now apply re_match_plus_head in E1 |].
  destruct (re_match pattern_H2 (text line)) eqn:E2;
    [now apply re_match_plus_head in E2 |].
  destruct (re_match pattern_H3 (text line)) eqn:E3;
    [now apply re_match_plus_head in E3 | discriminate].
Qed.

Lemma keyword_not_structural (line : LogicalLine) (lm : Z) :
  str_in (strip (text line)) special_h1s = true ->
  match_structure structural_patterns line lm = None.
Proof.
  intros K. destruct (match_structure structural_patterns line lm) eqn:E; auto.
  apply match_structure_head in E as (c & s & Et & Hc).
  rewrite Et, numbered_text_not_special in K by exact Hc. discriminate.
Qed.

Lemma Qltb_lt (a b : Q) : Qltb a b = true <-> (a < b)%Q.
Proof.
  unfold Qltb. rewrite negb_true_iff, <- not_true_iff_false, Qle_bool_iff.
  split; [apply Qnot_le_lt | apply Qlt_not_le].
Qed.

Lemma classify_line_line (l : LogicalLine) (profile : Profile) (h : Heading) :
  classify_line l profile = Some h -> line h = l.
Proof.
  unfold classify_line. intros H.
  destruct (negative_filter (text l)); [discriminate |].
  destruct (match_structure structural_patterns l (left_margin profile)).
  - now injection H as <-.
  - destruct (str_in (strip (text l)) special_h1s); [| discriminate].
    destruct (is_bold l || Qltb (baseline_font_size profile) (font_size l));
      [| discriminate].
    now injection H as <-.
Qed.

Lemma find_headings_In (lines : list LogicalLine) (profile : Profile)
      (h : Heading) :
  In h (find_headings lines profile) <->
  exists l, In l lines /\ classify_line l profile = Some h.
Proof.
  induction lines as [| l lines IH]; simpl.
  - split; [tauto | now intros (l & [] & _)].
  - destruct (classify_line l profile) as [h' |] eqn:E; simpl; rewrite IH.
    + split.
      * intros [<- | (l' & I & C)]; [exists l | exists l']; auto.
      * intros (l' & [<- | I] & C); [left; congruence | right; now exists l'].
    + split.
      * intros (l' & I & C). exists l'; auto.
      * intros (l' & [<- | I] & C); [congruence | now exists l'].
Qed.

Lemma near_margin_with_text (l : LogicalLine) (t : str) (lm : Z) :
  near_margin (with_text l t) lm = near_margin l lm.
Proof. reflexivity. Qed.

Lemma deep_numbering_not_structural (l : LogicalLine) (lm : Z)
      (n m k rest : str) :
  numerals n -> numerals m -> numerals k ->
  text l = n ++ period :: m ++ period :: k ++ period :: rest ->
  match_structure structural_patterns l lm = None.
Proof.
  intros Hn Hm Hk E. rewrite match_structure_unfold, E.
  rewrite pattern_H1_rejects, pattern_H2_rejects, pattern_H3_rejects by auto.
  now destruct (near_margin l lm).
Qed.

(** C1, as amended: on a line that passes the negative filter and starts
    within 15pt of the left margin, a numbering of one segment closed by a
    separator and whitespace gives H1, of two segments and whitespace H2,
    of three segments and whitespace H3; a line whose numbering goes on
    after the third segment is not classified by the structural rule,
    nor by any other rule. *)
Theorem numbering_depth_law (l : LogicalLine) (profile : Profile)
        (n m k rest tail : str) (s w : char) :
  numerals n -> numerals m -> numerals k ->
  separator s = true -> isspace w = true ->
  let t1 := n ++ s :: w :: rest in
  let t2 := n ++ period :: m ++ w :: rest in
  let t3 := n ++ period :: m ++ period :: k ++ w :: rest in
  let t4 := n ++ period :: m ++ period :: k ++ period :: tail in
  (near_margin l (left_margin profile) = true ->
   (negative_filter t1 = false ->
    classify_line (with_text l t1) profile
    = Some (mkHeading (with_text l t1) H1))
   /\ (negative_filter t2 = false ->
       classify_line (with_text l t2) profile
       = Some (mkHeading (with_text l t2) H2))
   /\ (negative_filter t3 = false ->
       classify_line (with_text l t3) profile
       = Some (mkHeading (with_text l t3) H3)))
  /\ match_structure structural_patterns (with_text l t4)
                     (left_margin profile) = None
  /\ classify_line (with_text l t4) profile = None.
Proof.
  intros Hn Hm Hk Hs Hw t1 t2 t3 t4. split; [| split].
  - intros Near. repeat split; intros NF; unfold classify_line;
      cbn [text with_text]; rewrite NF, match_structure_unfold,
      near_margin_with_text, Near; cbn [text with_text].
    + unfold t1. now rewrite pattern_H1_intro.
    + unfold t2. now rewrite pattern_H1_rejects, pattern_H2_intro.
    + unfold t3.
      now rewrite pattern_H1_rejects, pattern_H2_rejects, pattern_H3_intro.
  - now apply deep_numbering_not_structural with n m k tail.
  - unfold classify_line.
    rewrite deep_numbering_not_structural with (n := n) (m := m) (k := k)
                                               (rest := tail) by auto.
    cbn [text with_text].
    destruct (negative_filter t4); [reflexivity |].
    destruct (numerals_head Hn) as (c & n' & -> & Hc).
    unfold t4. cbn [app]. now rewrite numbered_text_not_special.
Qed.

(** The keyword rule of process_pdfs.py: a line whose trimmed text is one
    of the section keywords is classified only when it is bold or larger
    than the baseline, and then as H1; when it is neither, it is not a
    heading. *)
Lemma pp_keyword_gating (l : LogicalLine) (profile : Profile) :
  str_in (strip (text l)) special_h1s = true ->
  (is_bold l = false ->
   (font_size l <= baseline_font_size profile)%Q ->
   classify_line l profile = None
   /\ forall lines h, In h (find_headings lines profile) -> line h <> l)
  /\ (forall lines h,
        In h (find_headings lines profile) -> line h = l ->
        level h = H1
        /\ (is_bold l = true
            \/ (baseline_font_size profile < font_size l)%Q))
  /\ (negative_filter (text l) = false ->
      is_bold l = true \/ (baseline_font_size profile < font_size l)%Q ->
      forall lines, In l lines ->
                    In (mkHeading l H1) (find_headings lines profile)).
Proof.
  intros K.
  assert (C : classify_line l profile
              = if negative_filter (text l) then None
                else if is_bold l
                        || Qltb (baseline_font_size profile) (font_size l)
                     then Some (mkHeading l H1) else None).
  { unfold classify_line. now rewrite keyword_not_structural, K. }
  split; [| split].
  - intros B S.
    assert (N : classify_line l profile = None).
    { rewrite C, B. simpl.
      destruct (Qltb (baseline_font_size profile) (font_size l)) eqn:E.
      - apply Qltb_lt in E. now apply Qlt_not_le in E.
      - now destruct (negative_filter (text l)). }
    split; [exact N |]. intros lines h I E.
    apply find_headings_In in I as (l' & _ & C').
    apply classify_line_line in C' as E'. congruence.
  - intros lines h I E.
    apply find_headings_In in I as (l' & _ & C').
    apply classify_line_line in C' as E'.
    assert (X : l' = l) by congruence. rewrite X, C in C'.
    destruct (negative_filter (text l)); [discriminate |].
    destruct (is_bold l) eqn:B; simpl in C'.
    + injection C' as <-. auto.
    + destruct (Qltb (baseline_font_size profile) (font_size l)) eqn:Q;
        [| discriminate].
      injection C' as <-. apply Qltb_lt in Q. auto.
  - intros NF G lines I. apply find_headings_In. exists l. split; auto.
    rewrite C, NF. destruct G as [-> | G]; [reflexivity |].
    apply Qltb_lt in G. rewrite G. now rewrite orb_true_r.
Qed.

End Classification.

(** ** The stable sort *)

Section SortFacts.
Variable A : Type.
Variable lt : A -> A -> bool.

Lemma insert_In (x y : A) (l : list A) :
  In y (insert lt x l) <-> y = x \/ In y l.
Proof.
  induction l as [| z l IH]; simpl.
  - intuition auto.
  - destruct (lt z x); simpl; rewrite ?IH; intuition auto.
Qed.

Lemma sort_In (y : A) (l : list A) : In y (sort lt l) <-> In y l.
Proof.
  induction l as [| x l IH]; simpl; [tauto |].
  rewrite insert_In, IH. intuition auto.
Qed.

Lemma sort_pair (a b : A) :
  lt b a = false -> sort lt [a; b] = [a; b].
Proof. intros H. simpl. now rewrite H. Qed.

End SortFacts.

Lemma sort_headings_In (h : Heading) (hs : list Heading) :
  In h (sort_headings hs) <-> In h hs.
Proof. apply sort_In. Qed.

(** ** The last loop: cleaning, page normalisation, deduplication *)

Section FormatFacts.
Context {U : Unicode}.

Lemma entry_key_entry_of (item : Heading) (off : Z) :
  entry_key (entry_of item off) = key_of item off.
Proof.
  unfold entry_key, entry_of, key_of, space. simpl.
  now rewrite removelast_last.
Qed.

Lemma key_in_true (k : str * Z) (seen : list (str * Z)) :
  key_in k seen = true <-> In k seen.
Proof.
  unfold key_in. rewrite existsb_exists. split.
  - intros (x & I & E). apply key_eqb_eq in E. now subst.
  - intros I. exists k. split; auto. now apply key_eqb_eq.
Qed.


(** Every entry comes from an item, in the format of [entry_of]. *)
Lemma format_outline_In (items : list Heading) (off : Z) :
  forall seen e,
    In e (format_outline items off seen) ->
    exists item, In item items /\ e = entry_of item off
                 /\ ~ In (key_of item off) seen.
Proof.
  induction items as [| item items IH]; simpl; intros seen e I; [tauto |].
  destruct (key_in (key_of item off) seen) eqn:K.
  - destruct (IH _ _ I) as (it & I' & E & N). exists it. auto.
  - destruct I as [<- | I].
    + exists item. repeat split; auto.
      rewrite <- key_in_true. congruence.
    + destruct (IH _ _ I) as (it & I' & E & N). exists it.
      repeat split; auto. intros X. apply N. now right.
Qed.

(** Every item is represented: an entry carries its key, unless the key
    was seen before the loop started. *)
Lemma format_outline_covers (items : list Heading) (off : Z) :
  forall seen item,
    In item items ->
    (exists e, In e (format_outline items off seen)
               /\ entry_key e = key_of item off)
    \/ In (key_of item off) seen.
Proof.
  induction items as [| it items IH]; simpl; intros seen item I; [tauto |].
  destruct (key_in (key_of it off) seen) eqn:K.
  - destruct I as [<- | I]; [right; now apply key_in_true | now apply IH].
  - destruct I as [<- | I].
    + left. exists (entry_of it off). split; [now left |].
      apply entry_key_entry_of.
    + destruct (IH (key_of it off :: seen) item I) as [(e & Ie & Ee) | [X | X]].
      * left. exists e. split; [now right | exact Ee].
      * left. exists (entry_of it off). split; [now left |].
        now rewrite entry_key_entry_of.
      * now right.
Qed.



End FormatFacts.

(** ** The continuation merge *)

Lemma list_pair_ind (A : Type) (P : list A -> Prop) :
  P [] -> (forall x, P [x]) ->
  (forall x y l, P l -> P (y :: l) -> P (x :: y :: l)) ->
  forall l, P l.
Proof.
  intros H0 H1 H2 l.
  assert (G : P l /\ forall x, P (x :: l)).
  { induction l as [| y l [IH1 IH2]]; split; auto. }
  apply G.
Qed.

Section MergeFacts.
Variable absorbs : Heading -> Heading -> bool.
Variable combine : Heading -> Heading -> Heading.

Lemma merge_with_cons2 (x y : Heading) (l : list Heading) :
  merge_with absorbs combine (x :: y :: l)
  = if absorbs x y then combine x y :: merge_with absorbs combine l
    else x :: merge_with absorbs combine (y :: l).
Proof. reflexivity. Qed.

Hypothesis combine_page :
  forall a b, page (line (combine a b)) = page (line a).
Hypothesis absorbs_page :
  forall a b, absorbs a b = true -> page (line b) = page (line a).

(** A heading kept by the loop sits on the page of a heading given to
    it. *)
Lemma merge_with_page (l : list Heading) :
  forall m, In m (merge_with absorbs combine l) ->
            exists h, In h l /\ page (line m) = page (line h).
Proof.
  induction l as [| x | x y l IH1 IH2] using list_pair_ind; intros m I.
  - destruct I.
  - destruct I as [<- | []]. exists x. split; [now left | reflexivity].
  - rewrite merge_with_cons2 in I. destruct (absorbs x y).
    + destruct I as [<- | I].
      * exists x. split; [now left | apply combine_page].
      * destruct (IH1 m I) as (h & Ih & E). exists h. split; auto.
        now right; right.
    + destruct I as [<- | I].
      * exists x. split; [now left | reflexivity].
      * destruct (IH2 m I) as (h & Ih & E). exists h. split; auto.
        now right.
Qed.

(** The page of every heading given to the loop is the page of a heading
    it keeps: an absorbed heading is on the page of the one that absorbs
    it. *)
Lemma merge_with_covers (l : list Heading) :
  forall h, In h l ->
            exists m, In m (merge_with absorbs combine l)
                      /\ page (line m) = page (line h).
Proof.
  induction l as [| x | x y l IH1 IH2] using list_pair_ind; intros h I.
  - destruct I.
  - destruct I as [-> | []]. exists h. split; [now left | reflexivity].
  - rewrite merge_with_cons2. destruct (absorbs x y) eqn:A.
    + destruct I as [-> | [-> | I]].
      * exists (combine h y). split; [now left | apply combine_page].
      * exists (combine x h). split; [now left |].
        rewrite combine_page. symmetry. now apply absorbs_page.
      * destruct (IH1 h I) as (m & Im & E). exists m. split; auto.
        now right.
    + destruct I as [-> | I].
      * exists h. split; [now left | reflexivity].
      * destruct (IH2 h I) as (m & Im & E). exists m. split; auto.
        now right.
Qed.

(** A heading that cannot be absorbed is reached as [current], whatever
    comes before it. *)
Lemma merge_with_reaches (a : Heading) (tail : list Heading) :
  (forall x, absorbs x a = false) ->
  forall pre, exists pre',
    merge_with absorbs combine (pre ++ a :: tail)
    = pre' ++ merge_with absorbs combine (a :: tail).
Proof.
  intros N pre.
  induction pre as [| x | x y l IH1 IH2] using list_pair_ind.
  - now exists [].
  - exists [x]. cbn [app merge_with]. now rewrite N.
  - change ((x :: y :: l) ++ a :: tail) with (x :: y :: (l ++ a :: tail)).
    rewrite merge_with_cons2. destruct (absorbs x y).
    + destruct IH1 as (pre' & ->). now exists (combine x y :: pre').
    + destruct IH2 as (pre' & E). exists (x :: pre').
      change (y :: l ++ a :: tail) with ((y :: l) ++ a :: tail).
      now rewrite E.
Qed.
End MergeFacts.

Lemma pp_merge_headings (l : list Heading) :
  process_pdfs.merge_headings l = merge_with pp_absorbs pp_combine l.
Proof. reflexivity. Qed.

Lemma oe_merge_headings {U : Unicode} (l : list Heading) :
  outline_extractor.merge_headings l = merge_with oe_absorbs oe_combine l.
Proof. reflexivity. Qed.

Lemma same_page_eq (a b : Heading) :
  same_page a b = true -> page (line b) = page (line a).
Proof. unfold same_page. intros H. apply Z.eqb_eq in H. now symmetry. Qed.

Lemma pp_absorbs_page (a b : Heading) :
  pp_absorbs a b = true -> page (line b) = page (line a).
Proof.
  unfold pp_absorbs. intros H.
  apply andb_true_iff in H as [H _]. apply andb_true_iff in H as [H _].
  now apply same_page_eq.
Qed.

Lemma oe_absorbs_page {U : Unicode} (a b : Heading) :
  oe_absorbs a b = true -> page (line b) = page (line a).
Proof.
  unfold oe_absorbs. intros H.
  apply andb_true_iff in H as [H _]. apply andb_true_iff in H as [H _].
  now apply same_page_eq.
Qed.

(** ** Trimming and whitespace collapse *)

Lemma dropwhile_length (P : char -> bool) (s : str) :
  (length (dropwhile P s) <= length s)%nat.
Proof.
  induction s as [| c s IH]; simpl; auto. destruct (P c); simpl; lia.
Qed.

Lemma dropwhile_fixed (P : char -> bool) (s : str) :
  dropwhile P s = s <->
  match s with [] => True | c :: _ => P c = false end.
Proof.
  destruct s as [| c s]; simpl; [tauto |].
  destruct (P c) eqn:E; split; auto; try discriminate.
  intros H. pose proof (dropwhile_length P s) as L.
  rewrite H in L. simpl in L. lia.
Qed.

Lemma dropwhile_idem (P : char -> bool) (s : str) :
  dropwhile P (dropwhile P s) = dropwhile P s.
Proof.
  induction s as [| c s IH]; simpl; auto.
  destruct (P c) eqn:E; auto. simpl. now rewrite E.
Qed.

Lemma rstrip_idem (s : str) : rstrip (rstrip s) = rstrip s.
Proof. unfold rstrip. now rewrite rev_involutive, dropwhile_idem. Qed.

Lemma lstrip_rstrip (s : str) : lstrip s = s -> lstrip (rstrip s) = rstrip s.
Proof.
  unfold lstrip. rewrite !dropwhile_fixed. destruct s as [| c s]; auto.
  intros Hc. now rewrite rstrip_cons_keep.
Qed.

Lemma strip_trimmed (s : str) : trimmed (strip s).
Proof.
  unfold trimmed, strip. split.
  - apply lstrip_rstrip. apply dropwhile_idem.
  - apply rstrip_idem.
Qed.

Lemma strip_idem (s : str) : strip (strip s) = strip s.
Proof.
  destruct (strip_trimmed s) as [L R]. unfold strip at 1. now rewrite L, R.
Qed.

Lemma stripped_head (s : str) :
  stripped s -> match s with [] => True | c :: _ => isspace c = false end.
Proof.
  intros E. destruct (strip_trimmed s) as [L _]. rewrite E in L.
  now apply dropwhile_fixed in L.
Qed.

Lemma rstrip_prefix (s : str) : exists tl, s = rstrip s ++ tl.
Proof.
  induction s as [| c s (tl & IH)]; [now exists [] |].
  rewrite rstrip_cons. destruct (rstrip s) as [| x l] eqn:R.
  - destruct (isspace c); [now exists (c :: s) | exists s; reflexivity].
  - exists tl. simpl. f_equal. exact IH.
Qed.

Lemma single_spaced_weaken (s : str) :
  single_spaced true s = true -> single_spaced false s = true.
Proof.
  destruct s as [| c s]; simpl; auto.
  destruct (isspace c); auto. rewrite andb_false_r. discriminate.
Qed.

Lemma single_spaced_collapse (b : bool) (s : str) :
  single_spaced b (collapse_from b s) = true.
Proof.
  revert b. induction s as [| c s IH]; intros b; simpl; auto.
  destruct (isspace c) eqn:E.
  - destruct b; [apply IH |]. simpl. now rewrite IH.
  - simpl. rewrite E. apply IH.
Qed.

Lemma single_spaced_lstrip (b : bool) (s : str) :
  single_spaced b s = true -> single_spaced false (lstrip s) = true.
Proof.
  unfold lstrip. revert b. induction s as [| c s IH]; intros b; simpl; auto.
  destruct (isspace c) eqn:E.
  - intros H. apply andb_true_iff in H as [_ H]. now apply IH with true.
  - intros H. simpl. now rewrite E.
Qed.

Lemma single_spaced_prefix (p q : str) (b : bool) :
  single_spaced b (p ++ q) = true -> single_spaced b p = true.
Proof.
  revert b. induction p as [| c p IH]; intros b; simpl; auto.
  destruct (isspace c); [| apply IH].
  intros H. apply andb_true_iff in H as [H1 H2]. rewrite H1. now apply IH.
Qed.

Lemma single_spaced_clean (s : str) :
  single_spaced false (strip (collapse_ws s)) = true.
Proof.
  unfold strip, collapse_ws.
  pose proof (single_spaced_collapse false s) as H.
  apply single_spaced_lstrip in H.
  destruct (rstrip_prefix (lstrip (collapse_from false s))) as (tl & E).
  rewrite E in H. now apply single_spaced_prefix in H.
Qed.






(** ** No stage raises *)

Section Totality.
Variable A : Type.
Variable eqb : A -> A -> bool.

Lemma counter_add_nonempty (x : A) (c : list (A * Z)) :
  counter_add eqb x c <> [].
Proof. destruct c as [| [y n] c]; simpl; [| destruct (eqb y x)]; discriminate. Qed.

Lemma Counter_nonempty (x : A) (xs : list A) : Counter eqb (x :: xs) <> [].
Proof.
  unfold Counter. simpl.
  assert (G : forall l c, c <> [] ->
                          fold_left (fun c x => counter_add eqb x c) l c <> []).
  { induction l as [| y l IH]; simpl; auto.
    intros c _. apply IH, counter_add_nonempty. }
  apply G. discriminate.
Qed.

Lemma mode_total (x : A) (xs : list A) :
  exists it, index0 (most_common_1 (Counter eqb (x :: xs))) = Ok it.
Proof.
  pose proof (Counter_nonempty x xs) as N.
  destruct (Counter eqb (x :: xs)) as [| it c]; [congruence |].
  simpl. eauto.
Qed.
End Totality.

Section Stage1.
Context {U : Unicode}.

(** The second loop of [extract_and_group_lines] never raises, and the
    text of every logical line is a non-empty result of [strip()]. *)
Lemma logical_lines_of_total (sep : str) (groups : list Group) :
  exists ls, logical_lines_of sep groups = Ok ls
             /\ forall l, In l ls -> stripped (text l) /\ text l <> [].
Proof.
  induction groups as [| g groups (ls & E & I)]; simpl.
  - exists []. split; [reflexivity | intros l []].
  - destruct (strip (join sep (map span_text (sort_spans (spans g)))))
      as [| c t] eqn:T.
    + exists ls. auto.
    + destruct (sort_spans (spans g)) as [| first_span sp] eqn:S;
        [discriminate |].
      simpl. rewrite E. simpl. eexists. split; [reflexivity |].
      intros l [<- | Il]; [| now apply I]. simpl. split; [| discriminate].
      unfold stripped. rewrite <- T. apply strip_idem.
Qed.

Lemma pp_build_profile_ok (lines : list LogicalLine) (pc : Z) :
  exists baseline lm,
    process_pdfs.build_profile lines pc
    = Ok (mkProfile baseline
            (if (len (filter (fun l => page l =? 0) lines) <? 10)
                && (1 <? pc) then 1 else 0)
            lm).
Proof.
  unfold process_pdfs.build_profile.
  destruct (map font_size
              (filter (fun s => 15 <? len (text s)) lines)) as [| f fs];
    [| destruct (mode_total Qeq_bool f fs) as (it & ->)];
    (destruct (map (fun l => int_of_float (x0 (bbox l)))
                   (filter (fun l => 20 <? len (text l)) lines))
       as [| m ms];
     [| destruct (mode_total Z.eqb m ms) as (it' & ->)]);
    simpl; eauto.
Qed.

Lemma oe_build_profile_ok (lines : list LogicalLine) :
  exists baseline,
    outline_extractor.build_profile lines
    = Ok (outline_extractor.mkProfile baseline
            (if len (filter (fun l => page l =? 0) lines) <? 5
             then 1 else 0)).
Proof.
  unfold outline_extractor.build_profile.
  destruct (map font_size
              (filter (fun s => 20 <? len (text s)) lines)) as [| f fs];
    [| destruct (mode_total Qeq_bool f fs) as (it & ->)];
    simpl; eauto.
Qed.

Lemma pp_extract_title_total (lines : list LogicalLine) :
  exists t, process_pdfs.extract_title lines = Ok t.
Proof.
  unfold process_pdfs.extract_title.
  destruct (filter (fun l => page l =? 0) lines); simpl; eauto.
Qed.

Lemma oe_extract_title_total (lines : list LogicalLine) :
  exists t, outline_extractor.extract_title lines = Ok t.
Proof.
  unfold outline_extractor.extract_title.
  destruct (filter (fun l => page l =? 0) lines) as [| l0 ls];
    [simpl; eauto |].
  cbn [map py_max bind].
  destruct (filter _ (l0 :: ls)) as [| l1 ls1]; simpl; eauto.
Qed.

(** The whole of [run]: every stage returns. *)
Lemma pp_run_ok (doc : Pdf) :
  exists lines profile t,
    logical_lines_of [] (sorted_groups doc) = Ok lines
    /\ process_pdfs.build_profile lines (page_count doc) = Ok profile
    /\ process_pdfs.extract_title lines = Ok t
    /\ process_pdfs.run doc
       = Ok (mkOutput (strip t ++ u "  ")
               (process_pdfs.finalize_outline
                  (process_pdfs.find_headings lines profile) profile)).
Proof.
  destruct (logical_lines_of_total [] (sorted_groups doc)) as (lines & E & _).
  destruct (pp_build_profile_ok lines (page_count doc)) as (b & lm & P).
  destruct (pp_extract_title_total lines) as (t & T).
  exists lines. eexists. exists t. repeat split; eauto.
  unfold process_pdfs.run, process_pdfs.extract_and_group_lines.
  rewrite E. cbn [bind]. rewrite P. cbn [bind]. now rewrite T.
Qed.

Lemma oe_run_ok (doc : Pdf) :
  exists lines profile t,
    logical_lines_of space (sorted_groups doc) = Ok lines
    /\ outline_extractor.build_profile lines = Ok profile
    /\ outline_extractor.extract_title lines = Ok t
    /\ outline_extractor.run doc
       = Ok (mkOutput (strip t ++ u "  ")
               (outline_extractor.finalize_outline
                  (outline_extractor.find_headings lines profile) profile)).
Proof.
  destruct (logical_lines_of_total space (sorted_groups doc))
    as (lines & E & _).
  destruct (oe_build_profile_ok lines) as (b & P).
  destruct (oe_extract_title_total lines) as (t & T).
  exists lines. eexists. exists t. repeat split; eauto.
  unfold outline_extractor.run, outline_extractor.extract_and_group_lines.
  rewrite E. cbn [bind]. rewrite P. cbn [bind]. now rewrite T.
Qed.

End Stage1.

(** ** Finalisation in process_pdfs.py *)

Section PPFinalise.
Context {U : Unicode}.
Import process_pdfs.

Lemma pp_combine_page (a b : Heading) :
  page (line (pp_combine a b)) = page (line a).
Proof. reflexivity. Qed.

Lemma finalize_outline_eq (hs : list Heading) (profile : Profile) :
  finalize_outline hs profile
  = format_outline (merge_headings (sort_headings hs))
                   (page_offset profile) [].
Proof. destruct hs; reflexivity. Qed.



Lemma numbered_intro (n rest : str) (s : char) :
  numerals n -> separator s = true ->
  re_match numbered (n ++ s :: rest) = true.
Proof.
  intros Hn Hs. apply re_match_spec. exists (n ++ [s]), rest.
  split; [now rewrite <- app_assoc |].
  unfold numbered, num. constructor; [now apply matches_plus_cls |].
  now constructor.
Qed.


Lemma h1_pattern_inv (t : str) :
  re_match h1_pattern t = true ->
  exists n s rest, t = n ++ s :: rest /\ numerals n /\ separator s = true.
Proof.
  intros H. apply re_match_spec in H as (p & q & -> & M).
  unfold h1_pattern, num in M.
  apply matches_cat_inv in M as (n & p1 & -> & Mn & M).
  apply matches_cat_inv in M as (p2 & p3 & -> & Ms & _).
  apply matches_cls_inv in Ms as (s & -> & Hs).
  apply matches_plus_cls in Mn.
  exists n, s, (p3 ++ q). now rewrite <- !app_assoc.
Qed.

(** What [h1_pattern] accepts, [numbered] accepts: such a heading is
    never taken for a continuation. *)
Lemma h1_pattern_numbered (t : str) :
  re_match h1_pattern t = true -> re_match numbered t = true.
Proof.
  intros H. apply h1_pattern_inv in H as (n & s & rest & -> & Hn & Hs).
  now apply numbered_intro.
Qed.



Lemma merge_fires (a b : Heading) (rest : list Heading) :
  same_page a b = true ->
  re_match h1_pattern (text (line a)) = true ->
  re_match numbered (text (line b)) = false ->
  merge_headings (a :: b :: rest)
  = set_text a (merged_text a b) :: merge_headings rest.
Proof.
  intros P A B. cbn [merge_headings]. now rewrite P, A, B.
Qed.

Lemma sort_headings_pair (a b : Heading) :
  in_order a b -> sort_headings [a; b] = [a; b].
Proof. intros H. unfold sort_headings. now apply sort_pair. Qed.


(** The pages of the entries are the normalised pages of the headings. *)
Lemma finalize_outline_pages (hs : list Heading) (profile : Profile) :
  (forall e, In e (finalize_outline hs profile) ->
             exists h, In h hs
                       /\ o_page e = page (line h) + 1 - page_offset profile)
  /\ (forall h, In h hs ->
                exists e, In e (finalize_outline hs profile)
                          /\ o_page e
                             = page (line h) + 1 - page_offset profile).
Proof.
  split.
  - intros e I. rewrite finalize_outline_eq in I.
    apply format_outline_In in I as (m & Im & -> & _).
    destruct (@merge_with_page pp_absorbs pp_combine pp_combine_page _ _ Im)
      as (h & Ih & E).
    exists h. split; [now apply sort_headings_In |].
    simpl. unfold final_page. now rewrite E.
  - intros h I. apply sort_headings_In in I.
    destruct (@merge_with_covers pp_absorbs pp_combine pp_combine_page
                                 pp_absorbs_page _ _ I) as (m & Im & E).
    destruct (format_outline_covers _ (page_offset profile) [] _ Im)
      as [(e & Ie & K) | []].
    exists e. split; [now rewrite finalize_outline_eq |].
    apply (f_equal snd) in K. simpl in K. unfold final_page in K.
    now rewrite <- E.
Qed.

(** C9, as amended: with raw pages counted from 0 and an offset of 0 or
    1, every entry has a page of at least [1 - page_offset], hence at
    least 0; it is at least 1 when no heading lies on a raw page below the
    offset. *)
Theorem output_pages_bound (hs : list Heading) (profile : Profile) :
  (forall h, In h hs -> 0 <= page (line h)) ->
  page_offset profile = 0 \/ page_offset profile = 1 ->
  (forall e, In e (finalize_outline hs profile) ->
             1 - page_offset profile <= o_page e /\ 0 <= o_page e)
  /\ ((forall h, In h hs -> page_offset profile <= page (line h)) ->
      forall e, In e (finalize_outline hs profile) -> 1 <= o_page e).
Proof.
  intros Hp Ho. destruct (finalize_outline_pages hs profile) as (A & _).
  split.
  - intros e I. destruct (A e I) as (h & Ih & ->).
    specialize (Hp h Ih). lia.
  - intros Hq e I. destruct (A e I) as (h & Ih & ->).
    specialize (Hq h Ih). lia.
Qed.

End PPFinalise.

Section PPOutline.
Context {U : Unicode}.
Import process_pdfs.



(** The continuation merge of process_pdfs.py: a heading matching the
    numbered pattern that is followed, on its page, by a heading that is
    not numbered absorbs it: its text becomes the two trimmed texts joined
    by one space and the second heading is dropped.  Given just the two of
    them, the outline is that single entry. *)
Lemma pp_continuation_merge (a b : Heading) (profile : Profile) :
  same_page a b = true ->
  in_order a b ->
  re_match h1_pattern (text (line a)) = true ->
  re_match numbered (text (line b)) = false ->
  (forall pre post, exists pre',
      merge_headings (pre ++ a :: b :: post)
      = pre' ++ set_text a (strip (text (line a)) ++ [32%N]
                            ++ strip (text (line b)))
             :: merge_headings post)
  /\ finalize_outline [a; b] profile
     = [mkEntry (level a)
                (strip (collapse_ws (strip (text (line a)) ++ [32%N]
                                     ++ strip (text (line b))))
                 ++ [32%N])
                (page (line a) + 1 - page_offset profile)].
Proof.
  intros P O A B. split.
  - intros pre post.
    assert (N : forall x, pp_absorbs x a = false).
    { intros x. unfold pp_absorbs.
      now rewrite (h1_pattern_numbered _ A), andb_false_r. }
    destruct (merge_with_reaches pp_absorbs pp_combine a (b :: post) N pre)
      as (pre' & E).
    exists pre'. change (merge_headings (pre ++ a :: b :: post))
      with (merge_with pp_absorbs pp_combine (pre ++ a :: b :: post)).
    rewrite E. f_equal. now apply merge_fires.
  - unfold finalize_outline.
    rewrite sort_headings_pair by exact O.
    now rewrite merge_fires by auto.
Qed.


End PPOutline.

(** ** The pipeline of process_pdfs.py *)

Section PPPipeline.
Context {U : Unicode}.
Import process_pdfs.

(** C2, as amended: when the document yields no logical line, no stage
    raises, the outline is empty and the title is the two spaces that
    [process_single_pdf] appends to every title. *)
Theorem empty_input (doc : Pdf) :
  logical_lines_of [] (sorted_groups doc) = Ok [] ->
  (exists profile,
      extract_and_group_lines doc = Ok ([], profile)
      /\ extract_title [] = Ok []
      /\ find_headings [] profile = []
      /\ finalize_outline [] profile = [])
  /\ run doc = Ok (mkOutput [32%N; 32%N] [])
  /\ process_single_pdf doc = mkOutput [32%N; 32%N] [].
Proof.
  intros E.
  assert (R : run doc = Ok (mkOutput [32%N; 32%N] [])).
  { unfold run, extract_and_group_lines. rewrite E. reflexivity. }
  split; [| split; [exact R | unfold process_single_pdf; now rewrite R]].
  eexists. repeat split.
  unfold extract_and_group_lines. rewrite E. reflexivity.
Qed.

(** The offset of process_pdfs.py is 1 exactly when the first page holds
    fewer than 10 logical lines and the document has more than one page,
    and 0 otherwise; a document of one page always gets 0. *)
Lemma pp_page_offset_rule (doc : Pdf) :
  exists lines profile,
    extract_and_group_lines doc = Ok (lines, profile)
    /\ (page_offset profile = 1 <->
        len (filter (fun l => page l =? 0) lines) < 10 /\ 1 < page_count doc)
    /\ (page_offset profile = 0 <->
        ~ (len (filter (fun l => page l =? 0) lines) < 10
           /\ 1 < page_count doc))
    /\ (page_count doc <= 1 -> page_offset profile = 0).
Proof.
  destruct (logical_lines_of_total [] (sorted_groups doc)) as (lines & E & _).
  destruct (pp_build_profile_ok lines (page_count doc)) as (b & lm & P).
  exists lines. eexists. split.
  - unfold extract_and_group_lines. rewrite E. cbn [bind]. rewrite P.
    reflexivity.
  - cbn [page_offset].
    destruct (len (filter (fun l => page l =? 0) lines) <? 10) eqn:A;
      destruct (1 <? page_count doc) eqn:B; simpl;
      rewrite ?Z.ltb_lt, ?Z.ltb_ge in A, B; repeat split; intros; lia.
Qed.

End PPPipeline.

(** ** Lowercasing of ASCII text *)






(** ** The claims on concrete inputs *)

(** C1 as stated fails: the line "1. Introduction" starts with a numeral
    sequence, a separator and text that is not a numeral, and passes the
    negative filter, but it starts 128pt to the right of the left margin
    and [find_headings] gives it no level. *)
Lemma numbering_depth_law_counterexample :
  text (sample_line (u "1. Introduction") 12 false 1 200 100)
  = u "1" ++ period :: u " Introduction"
  /\ numerals (u "1")
  /\ process_pdfs.separator period = true
  /\ process_pdfs.negative_filter (U := ascii_unicode) (u "1. Introduction")
     = false
  /\ process_pdfs.find_headings (U := ascii_unicode)
       [sample_line (u "1. Introduction") 12 false 1 200 100]
       (mkProfile 12 0 72)
     = [].
Proof.
  repeat split; try (vm_compute; reflexivity). discriminate.
Qed.

Lemma numbering_depth_law_witness :
  (process_pdfs.classify_line (U := ascii_unicode)
     (sample_line (u "2. Scope") 12 false 1 72 100) (mkProfile 12 0 72)
   = Some (mkHeading (sample_line (u "2. Scope") 12 false 1 72 100) H1)
   /\ process_pdfs.classify_line (U := ascii_unicode)
        (sample_line (u "2.1 Scope") 12 false 1 72 100) (mkProfile 12 0 72)
      = Some (mkHeading (sample_line (u "2.1 Scope") 12 false 1 72 100) H2)
   /\ process_pdfs.classify_line (U := ascii_unicode)
        (sample_line (u "2.1.3 Scope") 12 false 1 72 100) (mkProfile 12 0 72)
      = Some (mkHeading (sample_line (u "2.1.3 Scope") 12 false 1 72 100) H3))
  /\ process_pdfs.match_structure process_pdfs.structural_patterns
       (sample_line (u "2.1.3.4 Details") 12 false 1 72 100) 72
     = None
  /\ process_pdfs.classify_line (U := ascii_unicode)
       (sample_line (u "2.1.3.4 Details") 12 false 1 72 100)
       (mkProfile 12 0 72)
     = None.
Proof.
  assert (N : forall t, t <> [] -> forallb process_pdfs.numeral t = true ->
                        numerals t) by (intros t A B; now split).
  destruct (@numbering_depth_law ascii_unicode
              (sample_line [] 12 false 1 72 100) (mkProfile 12 0 72)
              (u "2") (u "1") (u "3") (u "Scope") (u "4 Details")
              period 32%N)
    as (A & B & C);
    try (apply N; [discriminate | reflexivity]); try reflexivity.
  split; [| split; [exact B | exact C]].
  destruct A as (A1 & A2 & A3); [reflexivity |].
  split; [apply A1; reflexivity |].
  split; [apply A2; reflexivity | apply A3; reflexivity].
Defined.

(** C2 as stated fails: for a document without pages no stage raises, and
    the title is two spaces, not the empty string. *)
Lemma empty_input_counterexample :
  logical_lines_of (U := ascii_unicode) [] (sorted_groups []) = Ok []
  /\ process_pdfs.run (U := ascii_unicode) []
     = Ok (mkOutput (u "  ") [])
  /\ process_pdfs.process_single_pdf (U := ascii_unicode) []
     <> mkOutput [] [].
Proof. repeat split. discriminate. Qed.

Lemma empty_input_witness :
  process_pdfs.run (U := ascii_unicode) blank_pdf
  = Ok (mkOutput [32%N; 32%N] [])
  /\ process_pdfs.process_single_pdf (U := ascii_unicode) blank_pdf
     = mkOutput [32%N; 32%N] [].
Proof.
  apply (@empty_input ascii_unicode blank_pdf). vm_compute. reflexivity.
Defined.




(** C9 as stated fails: the cover of [cover_pdf] is sparse and the document
    has two pages, so the offset is 1 and the heading of raw page 0 is
    reported on page 0. *)
Lemma output_pages_bound_counterexample :
  (exists lines profile,
      process_pdfs.extract_and_group_lines (U := ascii_unicode) cover_pdf
      = Ok (lines, profile)
      /\ page_offset profile = 1)
  /\ outline (process_pdfs.process_single_pdf (U := ascii_unicode) cover_pdf)
     = [mkEntry H1 (u "1. Introduction ") 0].
Proof.
  split; [| vm_compute; reflexivity].
  eexists. eexists. split; [vm_compute; reflexivity | reflexivity].
Qed.

Lemma output_pages_bound_witness :
  (forall e,
      In e (process_pdfs.finalize_outline (U := ascii_unicode)
              [overview; syllabus; appendix] (mkProfile 12 1 72)) ->
      1 - 1 <= o_page e /\ 0 <= o_page e)
  /\ (forall e,
         In e (process_pdfs.finalize_outline (U := ascii_unicode)
                 [overview; syllabus; appendix] (mkProfile 12 1 72)) ->
         1 <= o_page e).
Proof.
  destruct (@output_pages_bound ascii_unicode [overview; syllabus; appendix]
              (mkProfile 12 1 72)) as [A B].
  - intros h [<- | [<- | [<- | []]]]; vm_compute; discriminate.
  - now right.
  - split; [exact A |]. apply B.
    intros h [<- | [<- | [<- | []]]]; vm_compute; discriminate.
Defined.


(** ** outline_extractor.py, where it differs and where it agrees *)

Section OEFacts.
Context {U : Unicode}.
Import outline_extractor.

Lemma oe_combine_page (a b : Heading) :
  page (line (oe_combine a b)) = page (line a).
Proof. reflexivity. Qed.

Lemma oe_finalize_outline_eq (hs : list Heading) (profile : Profile) :
  finalize_outline hs profile
  = format_outline (merge_headings (sort_headings hs))
                   (page_offset profile) [].
Proof. destruct hs; reflexivity. Qed.

(** X5: The profiler of outline_extractor.py looks at the first page only: the
    offset is 1 exactly when it holds fewer than 5 logical lines, whatever
    the number of pages. *)
Theorem oe_page_offset_rule (doc : Pdf) :
  exists lines profile,
    extract_and_group_lines doc = Ok (lines, profile)
    /\ (page_offset profile = 1 <->
        len (filter (fun l => page l =? 0) lines) < 5)
    /\ (page_offset profile = 0 <->
        5 <= len (filter (fun l => page l =? 0) lines)).
Proof.
  destruct (logical_lines_of_total space (sorted_groups doc))
    as (lines & E & _).
  destruct (oe_build_profile_ok lines) as (b & P).
  exists lines. eexists. split.
  - unfold extract_and_group_lines. rewrite E. cbn [bind]. rewrite P.
    reflexivity.
  - cbn [page_offset].
    destruct (len (filter (fun l => page l =? 0) lines) <? 5) eqn:A;
      rewrite ?Z.ltb_lt, ?Z.ltb_ge in A; repeat split; intros; lia.
Qed.

(** X15: The finaliser of outline_extractor.py normalises pages as the one of
    process_pdfs.py does. *)
Theorem oe_page_normalization (hs : list Heading) (profile : Profile) :
  (forall e, In e (finalize_outline hs profile) ->
             exists h, In h hs
                       /\ o_page e = page (line h) + 1 - page_offset profile)
  /\ (forall h, In h hs ->
                exists e, In e (finalize_outline hs profile)
                          /\ o_page e
                             = page (line h) + 1 - page_offset profile).
Proof.
  split.
  - intros e I. rewrite oe_finalize_outline_eq in I.
    apply format_outline_In in I as (m & Im & -> & _).
    destruct (@merge_with_page oe_absorbs oe_combine oe_combine_page _ _ Im)
      as (h & Ih & E).
    exists h. split; [now apply sort_headings_In |].
    simpl. unfold final_page. now rewrite E.
  - intros h I. apply sort_headings_In in I.
    destruct (@merge_with_covers oe_absorbs oe_combine oe_combine_page
                                 oe_absorbs_page _ _ I) as (m & Im & E).
    destruct (format_outline_covers _ (page_offset profile) [] _ Im)
      as [(e & Ie & K) | []].
    exists e. split; [now rewrite oe_finalize_outline_eq |].
    apply (f_equal snd) in K. simpl in K. unfold final_page in K.
    now rewrite <- E.
Qed.

(** X12: The keyword override of outline_extractor.py has no gate: a line whose
    trimmed text is one of the four keywords is an H1 heading, whatever its
    size and weight. *)
Theorem oe_keyword_override (lines : list LogicalLine) (profile : Profile)
        (l : LogicalLine) :
  In l lines ->
  str_in (strip (text l)) strong_H1s = true ->
  In (mkHeading l H1) (find_headings lines profile).
Proof.
  intros I K. unfold find_headings. apply in_or_app. left.
  induction lines as [| x lines IH]; [destruct I |].
  cbn [special_headings]. destruct I as [-> | I].
  - rewrite K. now left.
  - destruct (str_in (strip (text x)) strong_H1s); [right |]; auto.
Qed.

(** X21: what [process_single_pdf] of outline_extractor.py returns from
    its [try] block is the trimmed title followed by two spaces, with the
    outline of the headings found in the lines; when the document yields
    no logical line that is the title of two spaces and the empty
    outline. *)
Theorem oe_title_and_empty_input (doc : Pdf) :
  (forall out,
      run doc = Ok out ->
      exists lines profile t,
        extract_and_group_lines doc = Ok (lines, profile)
        /\ extract_title lines = Ok t
        /\ title out = strip t ++ [32%N; 32%N]
        /\ outline out
           = finalize_outline (find_headings lines profile) profile
        /\ process_single_pdf doc = out)
  /\ (logical_lines_of space (sorted_groups doc) = Ok [] ->
      process_single_pdf doc = mkOutput [32%N; 32%N] []).
Proof.
  split.
  - intros out R.
    destruct (oe_run_ok doc) as (lines & profile & t & E & P & T & R').
    rewrite R' in R. injection R as <-.
    exists lines, profile, t. repeat split; auto.
    + unfold extract_and_group_lines. rewrite E. cbn [bind]. now rewrite P.
    + unfold process_single_pdf. now rewrite R'.
  - intros E. unfold process_single_pdf, run, extract_and_group_lines.
    rewrite E. reflexivity.
Qed.

End OEFacts.

(** A sparse document of one page gets the offset 1 in outline_extractor.py
    and its keyword heading is reported on page 0; process_pdfs.py gives
    the same document the offset 0. *)
Lemma oe_sparse_single_page :
  (exists lines profile,
      outline_extractor.extract_and_group_lines (U := ascii_unicode) flyer_pdf
      = Ok (lines, profile)
      /\ outline_extractor.page_offset profile = 1)
  /\ outline (outline_extractor.process_single_pdf (U := ascii_unicode)
                flyer_pdf)
     = [mkEntry H1 (u "References ") 0]
  /\ (exists lines profile,
         process_pdfs.extract_and_group_lines (U := ascii_unicode) flyer_pdf
         = Ok (lines, profile)
         /\ page_offset profile = 0).
Proof.
  split; [| split].
  - eexists. eexists. split; [vm_compute; reflexivity | reflexivity].
  - vm_compute. reflexivity.
  - eexists. eexists. split; [vm_compute; reflexivity | reflexivity].
Qed.

(** Scenario B in outline_extractor.py: the continuation is appended
    without a separator. *)
Lemma oe_continuation_merge_example :
  outline_extractor.finalize_outline (U := ascii_unicode) [overview; syllabus]
    (outline_extractor.mkProfile 12 0)
  = [mkEntry H1 (u "3. OverviewSyllabus ") 3]
  /\ outline_extractor.finalize_outline (U := ascii_unicode)
       [overview; syllabus; appendix] (outline_extractor.mkProfile 12 0)
     = [mkEntry H1 (u "3. OverviewSyllabus ") 3;
        mkEntry H1 (u "References ") 3].
Proof. split; vm_compute; reflexivity. Qed.

(** The structural rule of outline_extractor.py wants whitespace right
    after the numbering: "1. Introduction" is not matched by it, "1
    Introduction", "2.1 Scope" and "2.1.3 Details" get H1, H2 and H3, and
    four segments get nothing. *)
Lemma oe_numbering_examples :
  map (fun t => outline_extractor.is_strong_heading (U := ascii_unicode)
                  (sample_line t 12 false 1 72 100) 12)
      [u "1. Introduction"; u "1 Introduction"; u "2.1 Scope";
       u "2.1.3 Details"; u "2.1.3.4 Deep"]
  = [None; Some H1; Some H2; Some H3; None].
Proof. vm_compute. reflexivity. Qed.

Lemma oe_keyword_override_witness :
  outline_extractor.find_headings (U := ascii_unicode)
    [sample_line (u "References") 12 false 4 72 100]
    (outline_extractor.mkProfile 12 0)
  = [mkHeading (sample_line (u "References") 12 false 4 72 100) H1]
  /\ In (mkHeading (sample_line (u "References") 12 false 4 72 100) H1)
        (outline_extractor.find_headings (U := ascii_unicode)
           [sample_line (u "References") 12 false 4 72 100]
           (outline_extractor.mkProfile 12 0)).
Proof.
  split; [vm_compute; reflexivity |].
  apply (@oe_keyword_override ascii_unicode); [now left | reflexivity].
Defined.

(** * Further properties of the two scripts *)

(** ** What [finalize_outline] keeps *)

Section OutlineShape.
Context {U : Unicode}.
Variable absorbs : Heading -> Heading -> bool.
Variable combine : Heading -> Heading -> Heading.

Hypothesis combine_page :
  forall a b, page (line (combine a b)) = page (line a).
Hypothesis combine_level :
  forall a b, level (combine a b) = level a.

Lemma merge_with_length (l : list Heading) :
  (length (merge_with absorbs combine l) <= length l)%nat.
Proof.
  induction l as [| x | x y l IH1 IH2] using list_pair_ind; simpl; auto.
  destruct (absorbs x y); simpl in *; lia.
Qed.

Lemma merge_with_nonempty (l : list Heading) :
  l <> [] -> merge_with absorbs combine l <> [].
Proof.
  destruct l as [| x [| y l]]; simpl; try congruence.
  intros _. destruct (absorbs x y); discriminate.
Qed.

(** A heading kept by the loop has the page and the level of a heading
    given to it. *)
Lemma merge_with_origin (l : list Heading) :
  forall m, In m (merge_with absorbs combine l) ->
            exists h, In h l /\ page (line m) = page (line h)
                      /\ level m = level h.
Proof.
  induction l as [| x | x y l IH1 IH2] using list_pair_ind; intros m I.
  - destruct I.
  - destruct I as [<- | []]. exists x. repeat split. now left.
  - rewrite merge_with_cons2 in I. destruct (absorbs x y).
    + destruct I as [<- | I].
      * exists x. repeat split; auto. now left.
      * destruct (IH1 m I) as (h & Ih & E). exists h. split; auto.
        now right; right.
    + destruct I as [<- | I].
      * exists x. repeat split. now left.
      * destruct (IH2 m I) as (h & Ih & E). exists h. split; auto.
        now right.
Qed.

Lemma merge_with_sorted (l : list Heading) :
  StronglySorted Z.le (map (fun h => page (line h)) l) ->
  StronglySorted Z.le
    (map (fun h => page (line h)) (merge_with absorbs combine l)).
Proof.
  induction l as [| x | x y l IH1 IH2] using list_pair_ind; intros S; auto.
  rewrite merge_with_cons2.
  assert (Sy : StronglySorted Z.le (map (fun h => page (line h)) (y :: l)))
    by now inversion S.
  assert (Fx : Forall (Z.le (page (line x)))
                      (map (fun h => page (line h)) (y :: l)))
    by now inversion S.
  destruct (absorbs x y).
  - simpl. constructor.
    + apply IH1. now inversion Sy.
    + rewrite combine_page. apply Forall_forall. intros p I.
      apply in_map_iff in I as (m & <- & Im).
      destruct (@merge_with_origin _ _ Im) as (h & Ih & -> & _).
      rewrite Forall_forall in Fx. apply Fx.
      apply (in_map (fun h => page (line h))). now right.
  - change (map (fun h => page (line h))
                (x :: merge_with absorbs combine (y :: l)))
      with (page (line x)
            :: map (fun h => page (line h))
                   (merge_with absorbs combine (y :: l))).
    constructor; [now apply IH2 |].
    apply Forall_forall. intros p I.
    apply in_map_iff in I as (m & <- & Im).
    destruct (@merge_with_origin _ _ Im) as (h & Ih & -> & _).
    rewrite Forall_forall in Fx. apply Fx.
    now apply (in_map (fun h => page (line h))).
Qed.

Lemma format_outline_length (items : list Heading) (off : Z) :
  forall seen, (length (format_outline items off seen) <= length items)%nat.
Proof.
  induction items as [| it items IH]; intros seen; simpl; auto.
  destruct (key_in (key_of it off) seen); simpl.
  - specialize (IH seen). lia.
  - specialize (IH (key_of it off :: seen)). lia.
Qed.

Lemma format_outline_keys (items : list Heading) (off : Z) :
  forall seen, NoDup (map entry_key (format_outline items off seen)).
Proof.
  induction items as [| it items IH]; intros seen; simpl; [constructor |].
  destruct (key_in (key_of it off) seen); [apply IH |].
  simpl. fold (entry_of it off). rewrite entry_key_entry_of.
  constructor; [| apply IH].
  intros I. apply in_map_iff in I as (e & Ee & Ie).
  apply format_outline_In in Ie as (m & _ & -> & N).
  rewrite entry_key_entry_of in Ee. apply N. left. now symmetry.
Qed.

Lemma format_outline_sorted (items : list Heading) (off : Z) :
  forall seen,
    StronglySorted Z.le (map (fun h => page (line h)) items) ->
    StronglySorted Z.le (map o_page (format_outline items off seen)).
Proof.
  induction items as [| it items IH]; intros seen S; simpl; [constructor |].
  assert (Si : StronglySorted Z.le (map (fun h => page (line h)) items))
    by now inversion S.
  assert (Fi : Forall (Z.le (page (line it)))
                      (map (fun h => page (line h)) items))
    by now inversion S.
  destruct (key_in (key_of it off) seen); [now apply IH |].
  simpl. constructor; [now apply IH |].
  apply Forall_forall. intros p I.
  apply in_map_iff in I as (e & <- & Ie).
  apply format_outline_In in Ie as (m & Im & -> & _). simpl.
  rewrite Forall_forall in Fi. unfold final_page.
  assert (page (line it) <= page (line m))
    by (apply Fi; now apply (in_map (fun h => page (line h)))).
  lia.
Qed.

End OutlineShape.

Section SortOrder.
Variable A : Type.
Variable lt : A -> A -> bool.
Variable f : A -> Z.

Hypothesis lt_le : forall a b, lt a b = true -> f a <= f b.
Hypothesis not_lt_le : forall a b, lt a b = false -> f b <= f a.

Lemma insert_length (x : A) (l : list A) :
  length (insert lt x l) = S (length l).
Proof.
  induction l as [| y l IH]; simpl; auto. destruct (lt y x); simpl; auto.
Qed.

Lemma sort_length (l : list A) : length (sort lt l) = length l.
Proof.
  induction l as [| x l IH]; simpl; auto. now rewrite insert_length, IH.
Qed.

Lemma insert_sorted (x : A) (l : list A) :
  StronglySorted Z.le (map f l) ->
  StronglySorted Z.le (map f (insert lt x l)).
Proof.
  induction l as [| y l IH]; simpl; intros S.
  - repeat constructor.
  - assert (Sl : StronglySorted Z.le (map f l)) by now inversion S.
    assert (Fy : Forall (Z.le (f y)) (map f l)) by now inversion S.
    destruct (lt y x) eqn:E; simpl.
    + constructor; [now apply IH |].
      apply Forall_forall. intros p I.
      apply in_map_iff in I as (z & <- & Iz).
      apply insert_In in Iz as [-> | Iz]; [now apply lt_le |].
      rewrite Forall_forall in Fy. apply Fy. now apply in_map.
    + constructor; [exact S |].
      apply not_lt_le in E. constructor; [exact E |].
      apply Forall_forall. intros p I.
      rewrite Forall_forall in Fy. specialize (Fy p I). lia.
Qed.

Lemma sort_sorted (l : list A) : StronglySorted Z.le (map f (sort lt l)).
Proof.
  induction l as [| x l IH]; simpl; [constructor | now apply insert_sorted].
Qed.
End SortOrder.

Lemma sort_headings_sorted (hs : list Heading) :
  StronglySorted Z.le (map (fun h => page (line h)) (sort_headings hs)).
Proof.
  unfold sort_headings. apply sort_sorted; intros a b; unfold lt_int_float;
    simpl; intros H.
  - apply orb_true_iff in H as [H | H].
    + apply Z.ltb_lt in H. lia.
    + apply andb_true_iff in H as [H _]. apply Z.eqb_eq in H. lia.
  - apply orb_false_iff in H as [H _]. apply Z.ltb_ge in H. lia.
Qed.

Lemma sort_headings_length (hs : list Heading) :
  length (sort_headings hs) = length hs.
Proof. apply sort_length. Qed.

Lemma oe_combine_level (a b : Heading) : level (oe_combine a b) = level a.
Proof. reflexivity. Qed.

Lemma pp_combine_level (a b : Heading) : level (pp_combine a b) = level a.
Proof. reflexivity. Qed.

Section OutlineFacts.
Context {U : Unicode}.

(** X16: In both scripts no two entries of an outline have the same lowercased
    text on the same page. *)
Theorem outline_keys_distinct (hs : list Heading) (p : Profile)
        (q : outline_extractor.Profile) :
  NoDup (map entry_key (process_pdfs.finalize_outline hs p))
  /\ NoDup (map entry_key (outline_extractor.finalize_outline hs q)).
Proof.
  rewrite finalize_outline_eq, oe_finalize_outline_eq.
  split; apply format_outline_keys.
Qed.

(** X17: In both scripts the outline has at most as many entries as there are
    headings, and it is empty only for the empty list of headings. *)
Theorem outline_size (hs : list Heading) (p : Profile)
        (q : outline_extractor.Profile) :
  ((length (process_pdfs.finalize_outline hs p) <= length hs)%nat
   /\ (process_pdfs.finalize_outline hs p = [] <-> hs = []))
  /\ ((length (outline_extractor.finalize_outline hs q) <= length hs)%nat
      /\ (outline_extractor.finalize_outline hs q = [] <-> hs = [])).
Proof.
  assert (G : forall absorbs combine off,
             (length (format_outline
                        (merge_with absorbs combine (sort_headings hs))
                        off []) <= length hs)%nat
             /\ (format_outline
                   (merge_with absorbs combine (sort_headings hs)) off [] = []
                 <-> hs = [])).
  { intros absorbs combine off. split.
    - pose proof (format_outline_length
                    (merge_with absorbs combine (sort_headings hs)) off []).
      pose proof (merge_with_length absorbs combine (sort_headings hs)).
      rewrite sort_headings_length in *. lia.
    - split; [| intros ->; reflexivity].
      intros E. destruct hs as [| h hs]; [reflexivity | exfalso].
      assert (N : sort_headings (h :: hs) <> []).
      { intros X. apply (f_equal (@length _)) in X.
        rewrite sort_headings_length in X. discriminate. }
      apply (merge_with_nonempty absorbs combine) in N.
      destruct (merge_with absorbs combine (sort_headings (h :: hs)));
        [congruence | discriminate]. }
  rewrite finalize_outline_eq, oe_finalize_outline_eq.
  split; apply G.
Qed.

(** X18: In both scripts the pages of the outline never decrease from one entry
    to the next. *)
Theorem outline_in_page_order (hs : list Heading) (p : Profile)
        (q : outline_extractor.Profile) :
  StronglySorted Z.le (map o_page (process_pdfs.finalize_outline hs p))
  /\ StronglySorted Z.le
       (map o_page (outline_extractor.finalize_outline hs q)).
Proof.
  rewrite finalize_outline_eq, oe_finalize_outline_eq.
  split; apply format_outline_sorted.
  - apply (merge_with_sorted pp_absorbs pp_combine pp_combine_page
                             pp_combine_level), sort_headings_sorted.
  - apply (merge_with_sorted oe_absorbs oe_combine oe_combine_page
                             oe_combine_level), sort_headings_sorted.
Qed.

(** X19: In both scripts every entry has the level and the normalised page of
    one and the same heading of the input: merging and deduplication change
    neither. *)
Theorem outline_entry_origin (hs : list Heading) (p : Profile)
        (q : outline_extractor.Profile) :
  (forall e, In e (process_pdfs.finalize_outline hs p) ->
             exists h, In h hs /\ o_level e = level h
                       /\ o_page e = page (line h) + 1 - page_offset p)
  /\ (forall e, In e (outline_extractor.finalize_outline hs q) ->
                exists h, In h hs /\ o_level e = level h
                          /\ o_page e = page (line h) + 1
                                        - outline_extractor.page_offset q).
Proof.
  rewrite finalize_outline_eq, oe_finalize_outline_eq. split; intros e I;
    apply format_outline_In in I as (m & Im & -> & _).
  - destruct (@merge_with_origin pp_absorbs pp_combine pp_combine_page
                                 pp_combine_level _ _ Im) as (h & Ih & E & L).
    exists h. split; [now apply sort_headings_In |]. simpl.
    unfold final_page. now rewrite E, L.
  - destruct (@merge_with_origin oe_absorbs oe_combine oe_combine_page
                                 oe_combine_level _ _ Im) as (h & Ih & E & L).
    exists h. split; [now apply sort_headings_In |]. simpl.
    unfold final_page. now rewrite E, L.
Qed.

End OutlineFacts.

(** ** What [find_headings] returns *)

Section HeadingFacts.
Context {U : Unicode}.

Lemma pp_find_headings_app (l1 l2 : list LogicalLine) (p : Profile) :
  process_pdfs.find_headings (l1 ++ l2) p
  = process_pdfs.find_headings l1 p ++ process_pdfs.find_headings l2 p.
Proof.
  induction l1 as [| l l1 IH]; simpl; auto.
  destruct (process_pdfs.classify_line l p); simpl; now rewrite IH.
Qed.

(** X8: In process_pdfs.py the headings are lines of the input in their order,
    each line giving at most one heading, and a line is classified on its
    own: the headings of two lists put end to end are the headings of the
    first followed by those of the second. *)
Theorem pp_headings_follow_lines (lines more : list LogicalLine)
        (p : Profile) :
  subseq (map line (process_pdfs.find_headings lines p)) lines
  /\ (length (process_pdfs.find_headings lines p) <= length lines)%nat
  /\ process_pdfs.find_headings (lines ++ more) p
     = process_pdfs.find_headings lines p
       ++ process_pdfs.find_headings more p.
Proof.
  split; [| split; [| apply pp_find_headings_app]].
  - induction lines as [| l lines IH]; simpl; [constructor |].
    destruct (process_pdfs.classify_line l p) as [h |] eqn:E.
    + simpl. rewrite (classify_line_line _ _ E). now constructor.
    + now constructor.
  - induction lines as [| l lines IH]; simpl; auto.
    destruct (process_pdfs.classify_line l p); simpl; lia.
Qed.

(** X9: in process_pdfs.py the headings are exactly these: the line is one
    of the input lines, it passed the negative filter, and either it stands
    within 15pt of the left margin and matches a structural pattern - the
    level is H1, H2 or H3 for the first of the three patterns that matches -
    or no structural pattern applies at that position, its trimmed text is a
    keyword, it is bold or larger than the baseline, and the level is H1.
    Size and weight alone never make a heading. *)
Theorem pp_heading_characterization (lines : list LogicalLine) (p : Profile)
        (h : Heading) :
  let t := text (line h) in
  let near := process_pdfs.near_margin (line h) (left_margin p) in
  let m1 := re_match process_pdfs.pattern_H1 t in
  let m2 := re_match process_pdfs.pattern_H2 t in
  let m3 := re_match process_pdfs.pattern_H3 t in
  In h (process_pdfs.find_headings lines p) <->
  In (line h) lines
  /\ process_pdfs.negative_filter t = false
  /\ ((near = true
       /\ ((m1 = true /\ level h = H1)
           \/ (m1 = false /\ m2 = true /\ level h = H2)
           \/ (m1 = false /\ m2 = false /\ m3 = true /\ level h = H3)))
      \/ ((near = false \/ (m1 = false /\ m2 = false /\ m3 = false))
          /\ str_in (strip t) process_pdfs.special_h1s = true
          /\ (is_bold (line h) = true
              \/ (baseline_font_size p < font_size (line h))%Q)
          /\ level h = H1)).
Proof.
  intros t near m1 m2 m3. rewrite find_headings_In. split.
  - intros (l & Il & C).
    pose proof (classify_line_line _ _ C) as E. subst l.
    split; [exact Il |]. unfold process_pdfs.classify_line in C.
    fold t in C. destruct (process_pdfs.negative_filter t); [discriminate |].
    split; [reflexivity |].
    rewrite match_structure_unfold in C. fold t near m1 m2 m3 in C.
    destruct near.
    + destruct m1; [left; injection C as <-; auto 6 |].
      destruct m2; [left; injection C as <-; auto 6 |].
      destruct m3; [left; injection C as <-; auto 8 |].
      right. split; [now right |].
      destruct (str_in (strip t) process_pdfs.special_h1s);
        [| discriminate].
      destruct (is_bold (line h)) eqn:B; cbn [orb] in C.
      * injection C as <-. auto.
      * destruct (Qltb (baseline_font_size p) (font_size (line h))) eqn:Q;
          [| discriminate].
        injection C as <-. apply Qltb_lt in Q. auto.
    + right. split; [now left |].
      destruct (str_in (strip t) process_pdfs.special_h1s);
        [| discriminate].
      destruct (is_bold (line h)) eqn:B; cbn [orb] in C.
      * injection C as <-. auto.
      * destruct (Qltb (baseline_font_size p) (font_size (line h))) eqn:Q;
          [| discriminate].
        injection C as <-. apply Qltb_lt in Q. auto.
  - intros (Il & NF & R). exists (line h). split; [exact Il |].
    unfold process_pdfs.classify_line. fold t. rewrite NF.
    rewrite match_structure_unfold. fold t near m1 m2 m3.
    destruct h as [l lv]. cbn [line level] in *.
    destruct R as [(N & S) | (N & K & G & L)].
    + rewrite N.
      destruct S as [(A & ->) | [(A & B & ->) | (A & B & C & ->)]].
      * now rewrite A.
      * now rewrite A, B.
      * now rewrite A, B, C.
    + assert (X : (if near
                   then if m1 then Some H1
                        else if m2 then Some H2
                             else if m3 then Some H3 else None
                   else None) = None).
      { destruct N as [-> | (-> & -> & ->)]; [reflexivity |].
        now destruct near. }
      rewrite X, K. subst lv.
      destruct G as [-> | G]; [reflexivity |].
      apply Qltb_lt in G. rewrite G. now rewrite orb_true_r.
Qed.

End HeadingFacts.

Lemma pp_heading_characterization_witness :
  process_pdfs.find_headings (U := ascii_unicode)
    [sample_line (u "Page 3 of 10") 30 true 1 72 700;
     sample_line (u "2.1 Scope") 12 false 1 72 100;
     sample_line (u "2.1 Far away") 12 false 1 200 100]
    (mkProfile 12 0 72)
  = [mkHeading (sample_line (u "2.1 Scope") 12 false 1 72 100) H2]
  /\ In (mkHeading (sample_line (u "2.1 Scope") 12 false 1 72 100) H2)
        (process_pdfs.find_headings (U := ascii_unicode)
           [sample_line (u "Page 3 of 10") 30 true 1 72 700;
            sample_line (u "2.1 Scope") 12 false 1 72 100;
            sample_line (u "2.1 Far away") 12 false 1 200 100]
           (mkProfile 12 0 72)).
Proof.
  split; [vm_compute; reflexivity |].
  apply (@pp_heading_characterization ascii_unicode).
  split; [right; now left |]. split; [reflexivity |].
  left. split; [reflexivity |]. right. left.
  repeat split; reflexivity.
Defined.

Section OEHeadingFacts.
Context {U : Unicode}.
Import outline_extractor.

Lemma special_headings_In (lines : list LogicalLine) (h : Heading) :
  In h (special_headings lines) <->
  In (line h) lines /\ level h = H1
  /\ str_in (strip (text (line h))) strong_H1s = true.
Proof.
  induction lines as [| l lines IH]; cbn [special_headings In].
  - tauto.
  - destruct (str_in (strip (text l)) strong_H1s) eqn:K; cbn [In];
      rewrite IH; split.
    + intros [<- | (A & B & C)]; simpl; auto.
    + intros ([-> | A] & B & C); auto. left. destruct h; simpl in *.
      now subst.
    + intros (A & B & C). auto.
    + intros ([-> | A] & B & C); [congruence | auto].
Qed.

Lemma regular_headings_In (lines : list LogicalLine) (b : Q) (h : Heading) :
  In h (regular_headings lines b) <->
  In (line h) lines
  /\ str_in (strip (text (line h))) strong_H1s = false
  /\ is_strong_heading (line h) b = Some (level h).
Proof.
  induction lines as [| l lines IH]; cbn [regular_headings In].
  - tauto.
  - destruct (str_in (strip (text l)) strong_H1s) eqn:K.
    + rewrite IH. split.
      * intros (A & B & C). auto.
      * intros ([-> | A] & B & C); [congruence | auto].
    + destruct (is_strong_heading l b) as [lv |] eqn:S; cbn [In];
        rewrite IH; split.
      * intros [<- | (A & B & C)]; simpl; auto.
      * intros ([-> | A] & B & C); auto. left. destruct h; simpl in *.
        congruence.
      * intros (A & B & C). auto.
      * intros ([-> | A] & B & C); [congruence | auto].
Qed.

Lemma special_regular_length (lines : list LogicalLine) (b : Q) :
  (length (special_headings lines) + length (regular_headings lines b)
   <= length lines)%nat.
Proof.
  induction lines as [| l lines IH];
    cbn [special_headings regular_headings length]; auto.
  destruct (str_in (strip (text l)) strong_H1s); cbn [length]; [lia |].
  destruct (is_strong_heading l b); cbn [length]; lia.
Qed.

Lemma special_headings_subseq (lines : list LogicalLine) :
  subseq (map line (special_headings lines)) lines.
Proof.
  induction lines as [| l lines IH]; cbn [special_headings]; [constructor |].
  destruct (str_in (strip (text l)) strong_H1s); simpl; now constructor.
Qed.

Lemma regular_headings_subseq (lines : list LogicalLine) (b : Q) :
  subseq (map line (regular_headings lines b)) lines.
Proof.
  induction lines as [| l lines IH]; cbn [regular_headings]; [constructor |].
  destruct (str_in (strip (text l)) strong_H1s); [now constructor |].
  destruct (is_strong_heading l b); simpl; now constructor.
Qed.

(** X10: In outline_extractor.py the keyword headings come first, in the order
    of the lines, then the other headings, in the order of the lines; no
    line gives two headings. *)
Theorem oe_headings_shape (lines : list LogicalLine) (q : Profile) :
  exists ks rs,
    find_headings lines q = ks ++ rs
    /\ subseq (map line ks) lines
    /\ subseq (map line rs) lines
    /\ (forall h, In h ks ->
                  level h = H1
                  /\ str_in (strip (text (line h))) strong_H1s = true)
    /\ (forall h, In h rs ->
                  str_in (strip (text (line h))) strong_H1s = false)
    /\ (length (find_headings lines q) <= length lines)%nat.
Proof.
  exists (special_headings lines),
    (regular_headings lines (baseline_font_size q)).
  split; [reflexivity |].
  split; [apply special_headings_subseq |].
  split; [apply regular_headings_subseq |].
  split; [| split].
  - intros h I. now apply special_headings_In in I.
  - intros h I. now apply regular_headings_In in I.
  - unfold find_headings. rewrite length_app. apply special_regular_length.
Qed.

(** X11: In outline_extractor.py a heading that is not a keyword has a trimmed
    text of at least 3 characters and at most 20 words that looks neither
    like a date nor, in lower case, like a page footer: such lines are
    never headings, whatever their size and weight. *)
Theorem oe_noise_rejection (lines : list LogicalLine) (q : Profile)
        (h : Heading) :
  In h (find_headings lines q) ->
  In (line h) lines
  /\ ((level h = H1 /\ str_in (strip (text (line h))) strong_H1s = true)
      \/ (3 <= len (strip (text (line h)))
          /\ word_count (strip (text (line h))) <= 20
          /\ re_match date_like (strip (text (line h))) = false
          /\ re_match page_footer (lower (strip (text (line h)))) = false)).
Proof.
  unfold find_headings. intros I. apply in_app_or in I as [I | I].
  - apply special_headings_In in I as (A & B & C). auto.
  - apply regular_headings_In in I as (A & _ & S). split; [exact A |].
    right. unfold is_strong_heading in S.
    destruct (len (strip (text (line h))) <? 3) eqn:L; [discriminate |].
    destruct (20 <? word_count (strip (text (line h)))) eqn:W;
      [discriminate |].
    simpl in S.
    destruct (re_match date_like (strip (text (line h)))); [discriminate |].
    destruct (re_match page_footer (lower (strip (text (line h)))));
      [discriminate |].
    apply Z.ltb_ge in L, W. auto.
Qed.

End OEHeadingFacts.

Lemma oe_noise_rejection_witness :
  In (line (mkHeading (sample_line (u "Hello World") 30 true 1 72 100) H2))
     [sample_line (u "Page 3 of 10") 30 true 1 72 700;
      sample_line (u "18 JUN 2013") 30 true 1 72 720;
      sample_line (u "Hello World") 30 true 1 72 100]
  /\ outline_extractor.find_headings (U := ascii_unicode)
       [sample_line (u "Page 3 of 10") 30 true 1 72 700;
        sample_line (u "18 JUN 2013") 30 true 1 72 720;
        sample_line (u "Hello World") 30 true 1 72 100]
       (outline_extractor.mkProfile 12 0)
     = [mkHeading (sample_line (u "Hello World") 30 true 1 72 100) H2].
Proof.
  assert (E : outline_extractor.find_headings (U := ascii_unicode)
                [sample_line (u "Page 3 of 10") 30 true 1 72 700;
                 sample_line (u "18 JUN 2013") 30 true 1 72 720;
                 sample_line (u "Hello World") 30 true 1 72 100]
                (outline_extractor.mkProfile 12 0)
              = [mkHeading (sample_line (u "Hello World") 30 true 1 72 100)
                           H2])
    by (vm_compute; reflexivity).
  split; [| exact E].
  apply (@oe_noise_rejection ascii_unicode
           [sample_line (u "Page 3 of 10") 30 true 1 72 700;
            sample_line (u "18 JUN 2013") 30 true 1 72 720;
            sample_line (u "Hello World") 30 true 1 72 100]
           (outline_extractor.mkProfile 12 0)).
  rewrite E. now left.
Defined.

(** ** The grouping loops of [extract_and_group_lines] *)

Section SortRel.
Variable A : Type.
Variable lt : A -> A -> bool.
Variable R : A -> A -> Prop.

Hypothesis R_trans : forall a b c, R a b -> R b c -> R a c.
Hypothesis lt_R : forall a b, lt a b = true -> R a b.
Hypothesis not_lt_R : forall a b, lt a b = false -> R b a.

Lemma insert_perm (x : A) (l : list A) : Permutation (insert lt x l) (x :: l).
Proof.
  induction l as [| y l IH]; simpl; auto.
  destruct (lt y x); auto.
  rewrite IH. apply perm_swap.
Qed.

Lemma sort_perm (l : list A) : Permutation (sort lt l) l.
Proof.
  induction l as [| x l IH]; simpl; auto.
  rewrite insert_perm. now constructor.
Qed.

Lemma insert_rel (x : A) (l : list A) :
  StronglySorted R l -> StronglySorted R (insert lt x l).
Proof.
  induction l as [| y l IH]; simpl; intros S.
  - repeat constructor.
  - assert (Sl : StronglySorted R l) by now inversion S.
    assert (Fy : Forall (R y) l) by now inversion S.
    destruct (lt y x) eqn:E.
    + constructor; [now apply IH |].
      apply Forall_forall. intros z Iz.
      apply (Permutation_in _ (insert_perm x l)) in Iz.
      destruct Iz as [<- | Iz]; [now apply lt_R |].
      rewrite Forall_forall in Fy. now apply Fy.
    + constructor; [exact S |].
      apply not_lt_R in E. constructor; [exact E |].
      apply Forall_forall. intros z Iz.
      rewrite Forall_forall in Fy. apply R_trans with y; auto.
Qed.

Lemma sort_rel (l : list A) : StronglySorted R (sort lt l).
Proof.
  induction l as [| x l IH]; simpl; [constructor | now apply insert_rel].
Qed.
End SortRel.

Lemma subseq_In (A : Type) (s l : list A) (x : A) :
  subseq s l -> In x s -> In x l.
Proof.
  induction 1 as [| y s l _ IH | y s l _ IH]; simpl; auto.
  intros [-> | I]; auto.
Qed.

Lemma subseq_sorted (A : Type) (R : A -> A -> Prop) (s l : list A) :
  subseq s l -> StronglySorted R l -> StronglySorted R s.
Proof.
  induction 1 as [| y s l H IH | y s l H IH]; intros S; auto.
  - apply IH. now inversion S.
  - assert (Sl : StronglySorted R l) by now inversion S.
    assert (Fy : Forall (R y) l) by now inversion S.
    constructor; auto. apply Forall_forall. intros z Iz.
    rewrite Forall_forall in Fy. apply Fy. now apply subseq_In with s.
Qed.

Lemma subseq_map (A B : Type) (f : A -> B) (s l : list A) :
  subseq s l -> subseq (map f s) (map f l).
Proof. induction 1; simpl; now constructor. Qed.

Lemma int_int_eqb_eq (a b : Z * Z) : int_int_eqb a b = true <-> a = b.
Proof.
  destruct a, b. unfold int_int_eqb. simpl.
  rewrite andb_true_iff, !Z.eqb_eq. split; [intros [-> ->] | intros E];
    [reflexivity | now injection E].
Qed.

Lemma add_spans_fst (key : Z * Z) (l : TextLine) (pn : Z)
      (lines : list (Z * Z * Group)) :
  map fst (add_spans key l pn lines)
  = if existsb (fun kg => int_int_eqb (fst kg) key) lines
    then map fst lines else map fst lines ++ [key].
Proof.
  induction lines as [| [k g] lines IH]; simpl; auto.
  destruct (int_int_eqb k key); simpl; auto.
  rewrite IH. now destruct (existsb _ lines).
Qed.

Lemma add_spans_In (key : Z * Z) (l : TextLine) (pn : Z)
      (lines : list (Z * Z * Group)) (k : Z * Z) (g : Group) :
  In (k, g) (add_spans key l pn lines) ->
  In (k, g) lines
  \/ (k = key /\ group_bbox g = line_bbox l /\ group_page g = pn)
  \/ exists g0, In (k, g0) lines /\ group_bbox g = group_bbox g0
                /\ group_page g = group_page g0.
Proof.
  induction lines as [| [k0 g0] lines IH]; simpl.
  - intros [E | []]. injection E as <- <-. auto.
  - destruct (int_int_eqb k0 key); simpl.
    + intros [E | I]; [| auto]. injection E as <- <-.
      right; right. exists g0. auto.
    + intros [E | I]; [auto |].
      destruct (IH I) as [A | [A | (g1 & A & B)]]; auto.
      right; right. exists g1. auto.
Qed.

Lemma add_spans_held (key : Z * Z) (l : TextLine) (pn : Z)
      (lines : list (Z * Z * Group)) :
  Permutation (held_spans (add_spans key l pn lines))
              (held_spans lines ++ line_spans l).
Proof.
  unfold held_spans. induction lines as [| [k g] lines IH]; simpl.
  - now rewrite app_nil_r.
  - destruct (int_int_eqb k key); simpl.
    + rewrite <- !app_assoc. apply Permutation_app_head.
      apply Permutation_app_comm.
    + rewrite <- app_assoc. now apply Permutation_app_head.
Qed.

Lemma add_spans_ok (n pn : Z) (l : TextLine) (lines : list (Z * Z * Group)) :
  0 <= pn < n -> lines_ok n lines ->
  lines_ok n (add_spans (pn, int_of_float (y0 (line_bbox l))) l pn lines).
Proof.
  intros B [N K]. split.
  - rewrite add_spans_fst.
    destruct (existsb _ lines) eqn:E; auto.
    apply NoDup_app; auto; [repeat constructor; auto |].
    intros x Ix [<- | []].
    apply in_map_iff in Ix as ([k g] & Ek & Ikg). simpl in Ek. subst k.
    assert (X : existsb (fun kg => int_int_eqb (fst kg)
                           (pn, int_of_float (y0 (line_bbox l)))) lines
                = true).
    { apply existsb_exists. eexists. split; [exact Ikg |].
      now apply int_int_eqb_eq. }
    congruence.
  - intros k g I. apply add_spans_In in I as [I | [(-> & E1 & E2) | I]].
    + now apply K.
    + unfold group_key. rewrite E1, E2. split; auto.
    + destruct I as (g0 & I & E1 & E2). destruct (K k g0 I) as [-> R].
      unfold group_key. rewrite E1, E2. split; auto.
Qed.

Lemma lines_ok_weaken (n m : Z) (lines : list (Z * Z * Group)) :
  n <= m -> lines_ok n lines -> lines_ok m lines.
Proof.
  intros L [N K]. split; auto. intros k g I.
  destruct (K k g I) as [E R]. split; auto. lia.
Qed.

Lemma group_block_ok (n pn : Z) (b : Block) (lines : list (Z * Z * Group)) :
  0 <= pn < n -> lines_ok n lines -> lines_ok n (group_block pn b lines).
Proof.
  intros B. unfold group_block. destruct (block_type b =? 0); auto.
  revert lines. induction (block_lines b) as [| l ls IH]; simpl; auto.
  intros lines O. apply IH. now apply add_spans_ok.
Qed.

Lemma group_block_held (pn : Z) (b : Block) (lines : list (Z * Z * Group)) :
  Permutation (held_spans (group_block pn b lines))
              (held_spans lines ++ block_spans b).
Proof.
  unfold group_block, block_spans. destruct (block_type b =? 0);
    [| now rewrite app_nil_r].
  revert lines. induction (block_lines b) as [| l ls IH]; simpl; intros lines.
  - now rewrite app_nil_r.
  - rewrite IH, add_spans_held. now rewrite <- app_assoc.
Qed.

Lemma group_page_ok (n pn : Z) (pg : Page) (lines : list (Z * Z * Group)) :
  0 <= pn < n -> lines_ok n lines ->
  lines_ok n (fold_left (fun lines block => group_block pn block lines)
                        pg lines).
Proof.
  intros B. revert lines. induction pg as [| b pg IH]; simpl; auto.
  intros lines O. apply IH. now apply group_block_ok.
Qed.

Lemma group_page_held (pn : Z) (pg : Page) (lines : list (Z * Z * Group)) :
  Permutation
    (held_spans (fold_left (fun lines block => group_block pn block lines)
                           pg lines))
    (held_spans lines ++ concat (map block_spans pg)).
Proof.
  revert lines. induction pg as [| b pg IH]; simpl; intros lines.
  - now rewrite app_nil_r.
  - rewrite IH, group_block_held. now rewrite <- app_assoc.
Qed.

Lemma group_pages_ok (doc : list Page) :
  forall pn lines,
    0 <= pn -> lines_ok pn lines ->
    lines_ok (pn + len doc) (group_pages pn doc lines).
Proof.
  induction doc as [| pg doc IH]; intros pn lines P O.
  - simpl. unfold len. simpl. now rewrite Z.add_0_r.
  - cbn [group_pages].
    replace (pn + len (pg :: doc)) with ((pn + 1) + len doc)
      by (unfold len; simpl length; lia).
    apply IH; [lia |].
    apply group_page_ok; [lia |]. apply lines_ok_weaken with pn; [lia | auto].
Qed.

Lemma group_pages_held (doc : list Page) :
  forall pn lines,
    Permutation (held_spans (group_pages pn doc lines))
                (held_spans lines ++ pdf_spans doc).
Proof.
  unfold pdf_spans.
  induction doc as [| pg doc IH]; intros pn lines; simpl.
  - now rewrite app_nil_r.
  - rewrite IH, group_page_held. now rewrite <- app_assoc.
Qed.

Lemma lt_int_int_asym (a b : Z * Z) :
  lt_int_int a b = true -> lt_int_int b a = false.
Proof.
  unfold lt_int_int. intros H. apply orb_true_iff in H.
  apply orb_false_iff. rewrite andb_false_iff, Z.ltb_ge, Z.eqb_neq, Z.ltb_ge.
  destruct H as [H | H].
  - apply Z.ltb_lt in H. lia.
  - apply andb_true_iff in H as [H1 H2].
    apply Z.eqb_eq in H1. apply Z.ltb_lt in H2. lia.
Qed.

Lemma lt_int_int_le_trans (a b c : Z * Z) :
  lt_int_int b a = false -> lt_int_int c b = false -> lt_int_int c a = false.
Proof.
  unfold lt_int_int. rewrite !orb_false_iff, !andb_false_iff, !Z.ltb_ge,
    !Z.eqb_neq. lia.
Qed.

Lemma lt_int_int_total (a b : Z * Z) :
  lt_int_int b a = false -> a <> b -> lt_int_int a b = true.
Proof.
  destruct a as [a1 a2], b as [b1 b2]. unfold lt_int_int. simpl.
  rewrite orb_false_iff, andb_false_iff, !Z.ltb_ge, Z.eqb_neq.
  intros H N. apply orb_true_iff. rewrite andb_true_iff, !Z.ltb_lt, Z.eqb_eq.
  destruct (Z.eq_dec a1 b1) as [-> | D]; [right | left; lia].
  split; auto. assert (a2 <> b2) by congruence. lia.
Qed.

Lemma sorted_strict (l : list (Z * Z * Group)) :
  StronglySorted (fun a b => lt_int_int (fst b) (fst a) = false) l ->
  NoDup (map fst l) ->
  StronglySorted (fun a b => lt_int_int (fst a) (fst b) = true) l.
Proof.
  induction l as [| x l IH]; intros S N; [constructor |].
  assert (Sl : StronglySorted
                 (fun a b => lt_int_int (fst b) (fst a) = false) l)
    by now inversion S.
  assert (Fx : Forall (fun b => lt_int_int (fst b) (fst x) = false) l)
    by now inversion S.
  simpl in N. inversion N as [| k ks Nk Nl]; subst.
  constructor; [now apply IH |].
  apply Forall_forall. intros y Iy. rewrite Forall_forall in Fx.
  apply lt_int_int_total; [now apply Fx |].
  intros E. apply Nk. rewrite E. now apply in_map.
Qed.

(** The items of the dictionary as the second loop visits them: in the
    strict order of their keys, each group under its own key and on a page
    of the document. *)
Lemma sorted_items_ok (doc : Pdf) :
  let items := sort (fun a b => lt_int_int (fst a) (fst b))
                    (group_pages 0 doc []) in
  StronglySorted (fun a b => lt_int_int (fst a) (fst b) = true) items
  /\ (forall k g, In (k, g) items ->
                  k = group_key g /\ 0 <= group_page g < page_count doc)
  /\ Permutation items (group_pages 0 doc []).
Proof.
  intros items.
  assert (O : lines_ok (page_count doc) (group_pages 0 doc [])).
  { apply (@group_pages_ok doc 0 []); [lia |].
    split; [constructor | intros k g []]. }
  assert (P : Permutation items (group_pages 0 doc [])) by apply sort_perm.
  destruct O as [N K]. split; [| split; [| exact P]].
  - apply sorted_strict.
    + apply sort_rel.
      * intros a b c. apply lt_int_int_le_trans.
      * intros a b. apply lt_int_int_asym.
      * auto.
    + apply Permutation_NoDup with (map fst (group_pages 0 doc [])); auto.
      apply Permutation_map. now symmetry.
  - intros k g I. apply K. now apply (Permutation_in _ P).
Qed.

Lemma sorted_groups_ok (doc : Pdf) :
  StronglySorted (fun g g' => lt_int_int (group_key g) (group_key g') = true)
                 (sorted_groups doc)
  /\ (forall g, In g (sorted_groups doc) ->
                0 <= group_page g < page_count doc).
Proof.
  destruct (sorted_items_ok doc) as (S & K & _). unfold sorted_groups.
  revert S K.
  generalize (sort (fun a b => lt_int_int (fst a) (fst b))
                   (group_pages 0 doc [])).
  intros items. induction items as [| [k g] items IH]; intros S K; simpl.
  - split; [constructor | intros g []].
  - assert (Si : StronglySorted
                   (fun a b => lt_int_int (fst a) (fst b) = true) items)
      by now inversion S.
    assert (Fi : Forall (fun b => lt_int_int k (fst b) = true) items)
      by now inversion S.
    destruct IH as [IS IK]; auto. { intros k' g' I. apply K. now right. }
    destruct (K k g (or_introl eq_refl)) as [Ek Rk]. split.
    + constructor; auto. apply Forall_forall. intros g' I.
      apply in_map_iff in I as ([k' g''] & E & I). simpl in E. subst g''.
      rewrite Forall_forall in Fi. specialize (Fi _ I). simpl in Fi.
      destruct (K k' g' (or_intror I)) as [Ek' _]. now rewrite <- Ek, <- Ek'.
    + intros g' [<- | I]; auto.
Qed.

Lemma sort_spans_ok (sp : list Span) :
  Permutation (sort_spans sp) sp
  /\ StronglySorted (fun a b => (span_left a <= span_left b)%Q)
                    (sort_spans sp).
Proof.
  unfold sort_spans. split; [apply sort_perm |].
  apply sort_rel; unfold span_left.
  - intros a b c. apply Qle_trans.
  - intros a b H. apply Qltb_lt in H. now apply Qlt_le_weak.
  - intros a b H. unfold Qltb in H. apply negb_false_iff in H.
    now apply Qle_bool_iff.
Qed.

(** ** The rows of the first loop *)

Lemma lines_at_app (k : Z * Z) (L : list (Z * TextLine)) (x : Z * TextLine) :
  lines_at k (L ++ [x])
  = lines_at k L ++ (if int_int_eqb (raw_key x) k then [x] else []).
Proof.
  unfold lines_at. rewrite filter_app. simpl.
  now destruct (int_int_eqb (raw_key x) k).
Qed.

Lemma lines_at_none (k : Z * Z) (L : list (Z * TextLine)) :
  (forall ptl, In ptl L -> raw_key ptl <> k) -> lines_at k L = [].
Proof.
  unfold lines_at. induction L as [| x L IH]; simpl; auto. intros H.
  destruct (int_int_eqb (raw_key x) k) eqn:E.
  - apply int_int_eqb_eq in E. now destruct (H x (or_introl eq_refl)).
  - apply IH. intros ptl I. apply H. now right.
Qed.

Lemma gathers_key (L : list (Z * TextLine)) (k : Z * Z) (g : Group) :
  gathers L k g -> k = group_key g.
Proof.
  unfold gathers. destruct (lines_at k L) as [| first rest] eqn:E; [easy |].
  intros (_ & B & P).
  assert (I : In first (lines_at k L)) by (rewrite E; now left).
  apply filter_In in I as [_ I]. apply int_int_eqb_eq in I.
  unfold group_key. rewrite B, P. now symmetry.
Qed.

Lemma add_spans_cases (key : Z * Z) (l : TextLine) (pn : Z)
      (lines : list (Z * Z * Group)) (k : Z * Z) (g : Group) :
  NoDup (map fst lines) ->
  In (k, g) (add_spans key l pn lines) ->
  (k <> key /\ In (k, g) lines)
  \/ (k = key /\ (forall g0, ~ In (key, g0) lines)
      /\ g = mkGroup (line_spans l) (line_bbox l) pn)
  \/ (k = key /\ exists g0, In (key, g0) lines
                 /\ g = mkGroup (spans g0 ++ line_spans l) (group_bbox g0)
                                (group_page g0)).
Proof.
  induction lines as [| [k0 g0] lines IH]; simpl; intros N.
  - intros [E | []]. injection E as <- <-. right; left. auto.
  - inversion N as [| a b Nk Nl]; subst.
    destruct (int_int_eqb k0 key) eqn:E; simpl.
    + apply int_int_eqb_eq in E. subst k0. intros [X | I].
      * injection X as <- <-. right; right. split; auto. exists g0. auto.
      * left. split; auto. intros ->. apply Nk.
        now apply (in_map fst) in I.
    + assert (D : k0 <> key).
      { intros ->. assert (int_int_eqb key key = true)
          by now apply int_int_eqb_eq. congruence. }
      intros [X | I].
      * injection X as <- <-. left. auto.
      * destruct (IH Nl I) as [[A B] | [(A & B & C) | (A & g1 & B & C)]].
        -- left. auto.
        -- right; left. split; auto. split; auto.
           intros g1 [X | X]; [congruence | now apply (B g1)].
        -- right; right. split; auto. exists g1. auto.
Qed.

Lemma add_spans_NoDup (key : Z * Z) (l : TextLine) (pn : Z)
      (lines : list (Z * Z * Group)) :
  NoDup (map fst lines) -> NoDup (map fst (add_spans key l pn lines)).
Proof.
  intros N. rewrite add_spans_fst.
  destruct (existsb _ lines) eqn:E; auto.
  apply NoDup_app; auto; [repeat constructor; auto |].
  intros x Ix [<- | []].
  apply in_map_iff in Ix as ([k g] & Ek & Ikg). simpl in Ek. subst k.
  assert (X : existsb (fun kg => int_int_eqb (fst kg) key) lines = true).
  { apply existsb_exists. eexists. split; [exact Ikg |].
    now apply int_int_eqb_eq. }
  congruence.
Qed.

Lemma add_spans_keeps (key : Z * Z) (l : TextLine) (pn : Z)
      (lines : list (Z * Z * Group)) (k : Z * Z) :
  k = key \/ In k (map fst lines) ->
  exists g, In (k, g) (add_spans key l pn lines).
Proof.
  intros H.
  assert (I : In k (map fst (add_spans key l pn lines))).
  { rewrite add_spans_fst. destruct (existsb _ lines) eqn:E.
    - destruct H as [-> | H]; auto.
      apply existsb_exists in E as ([k0 g0] & I & E).
      apply int_int_eqb_eq in E. simpl in E. subst k0.
      now apply (in_map fst) in I.
    - apply in_or_app. destruct H as [-> | H]; [right; now left | now left]. }
  apply in_map_iff in I as ([k' g] & E & I). simpl in E. subst k'.
  now exists g.
Qed.

Lemma add_spans_rows (L : list (Z * TextLine)) (pn : Z) (l : TextLine)
      (lines : list (Z * Z * Group)) :
  rows_of L lines ->
  rows_of (L ++ [(pn, l)]) (add_spans (raw_key (pn, l)) l pn lines).
Proof.
  intros (N & G & C). split; [now apply add_spans_NoDup | split].
  - intros k g I. unfold gathers. rewrite lines_at_app.
    destruct (@add_spans_cases _ _ _ _ _ _ N I)
      as [[A B] | [(-> & B & ->) | (-> & g0 & B & ->)]].
    + destruct (int_int_eqb (raw_key (pn, l)) k) eqn:E.
      { apply int_int_eqb_eq in E. congruence. }
      rewrite app_nil_r. now apply G.
    + rewrite lines_at_none.
      2:{ intros ptl Ip E. destruct (C ptl Ip) as (g0 & I0).
          rewrite E in I0. now apply (B g0). }
      replace (int_int_eqb (raw_key (pn, l)) (raw_key (pn, l))) with true
        by (symmetry; now apply int_int_eqb_eq).
      simpl. now rewrite app_nil_r.
    + replace (int_int_eqb (raw_key (pn, l)) (raw_key (pn, l))) with true
        by (symmetry; now apply int_int_eqb_eq).
      specialize (G _ _ B). unfold gathers in G.
      destruct (lines_at (raw_key (pn, l)) L) as [| first rest]; [easy |].
      destruct G as (S & Bx & Pg). simpl. rewrite S. simpl.
      rewrite map_app, concat_app. simpl. rewrite app_nil_r, app_assoc.
      auto.
  - intros ptl I. apply add_spans_keeps. apply in_app_or in I as [I | I].
    + right. destruct (C ptl I) as (g & Ig). now apply (in_map fst) in Ig.
    + left. destruct I as [<- | []]. reflexivity.
Qed.

Lemma group_block_rows (L : list (Z * TextLine)) (pn : Z) (b : Block)
      (lines : list (Z * Z * Group)) :
  rows_of L lines ->
  rows_of (L ++ map (pair pn) (block_text_lines b)) (group_block pn b lines).
Proof.
  unfold group_block, block_text_lines. destruct (block_type b =? 0);
    [| simpl; now rewrite app_nil_r].
  revert L lines. induction (block_lines b) as [| l ls IH]; simpl;
    intros L lines R.
  - now rewrite app_nil_r.
  - replace (L ++ (pn, l) :: map (pair pn) ls)
      with ((L ++ [(pn, l)]) ++ map (pair pn) ls)
      by now rewrite <- app_assoc.
    apply IH. now apply add_spans_rows.
Qed.

Lemma group_page_rows (pn : Z) (pg : Page) :
  forall (L : list (Z * TextLine)) (lines : list (Z * Z * Group)),
    rows_of L lines ->
    rows_of (L ++ map (pair pn) (concat (map block_text_lines pg)))
            (fold_left (fun lines block => group_block pn block lines)
                       pg lines).
Proof.
  induction pg as [| b pg IH]; simpl; intros L lines R.
  - now rewrite app_nil_r.
  - rewrite map_app, app_assoc. apply IH. now apply group_block_rows.
Qed.

Lemma group_pages_rows (doc : list Page) :
  forall (pn : Z) (L : list (Z * TextLine)) (lines : list (Z * Z * Group)),
    rows_of L lines ->
    rows_of (L ++ pdf_lines pn doc) (group_pages pn doc lines).
Proof.
  induction doc as [| pg doc IH]; simpl; intros pn L lines R.
  - now rewrite app_nil_r.
  - rewrite app_assoc. apply IH. now apply group_page_rows.
Qed.

Lemma pdf_lines_pages (doc : list Page) :
  forall (pn : Z) (ptl : Z * TextLine),
    In ptl (pdf_lines pn doc) -> pn <= fst ptl < pn + len doc.
Proof.
  induction doc as [| pg doc IH]; simpl; intros pn ptl I; [easy |].
  assert (0 <= len doc) by (unfold len; lia).
  replace (len (pg :: doc)) with (len doc + 1)
    by (unfold len; simpl length; lia).
  apply in_app_or in I as [I | I].
  - apply in_map_iff in I as (tl & <- & _). simpl. lia.
  - apply IH in I. lia.
Qed.

Lemma sorted_groups_rows (doc : Pdf) :
  (forall g, In g (sorted_groups doc) ->
             gathers (pdf_lines 0 doc) (group_key g) g)
  /\ (forall ptl, In ptl (pdf_lines 0 doc) ->
                  exists g, In g (sorted_groups doc)
                            /\ group_key g = raw_key ptl).
Proof.
  assert (R : rows_of (pdf_lines 0 doc) (group_pages 0 doc [])).
  { apply (group_pages_rows doc 0 (L:=[]) (lines:=[])).
    split; [constructor | split; [intros k g [] | intros ptl []]]. }
  destruct R as (_ & G & C).
  destruct (sorted_items_ok doc) as (_ & _ & P). unfold sorted_groups.
  split.
  - intros g I. apply in_map_iff in I as ([k g'] & E & I). simpl in E.
    subst g'. apply (Permutation_in _ P) in I. specialize (G _ _ I).
    now rewrite <- (@gathers_key _ _ _ G).
  - intros ptl I. destruct (C ptl I) as (g & Ig).
    assert (K := @gathers_key _ _ _ (G _ _ Ig)).
    apply (Permutation_in _ (Permutation_sym P)) in Ig.
    exists g. split; [| now symmetry]. now apply (in_map snd) in Ig.
Qed.

Section LinesTrace.
Context {U : Unicode}.
Variable sep : str.

Lemma reads_key (g : Group) (l : LogicalLine) :
  reads sep g l -> line_key l = group_key g.
Proof.
  intros (s & ss & _ & _ & _ & _ & _ & _ & P & B).
  unfold line_key, group_key. now rewrite P, B.
Qed.

Lemma logical_lines_of_trace (R : Z * Z -> Z * Z -> Prop)
      (groups : list Group) :
  StronglySorted (fun g g' => R (group_key g) (group_key g')) groups ->
  exists ls,
    logical_lines_of sep groups = Ok ls
    /\ StronglySorted (fun l l' => R (line_key l) (line_key l')) ls
    /\ (forall l, In l ls ->
                  exists g, In g groups /\ reads sep g l /\ text l <> [])
    /\ (forall g, In g groups ->
                  blank_row sep g \/ exists l, In l ls /\ reads sep g l).
Proof.
  induction groups as [| g groups IH]; intros S.
  - exists []. simpl.
    split; [reflexivity | split; [constructor | split; intros ? []]].
  - assert (Sg : StronglySorted
                   (fun g g' => R (group_key g) (group_key g')) groups)
      by now inversion S.
    assert (Fg : Forall (fun g' => R (group_key g) (group_key g')) groups)
      by now inversion S.
    destruct (IH Sg) as (ls & E & Sl & A & B). simpl. unfold blank_row.
    destruct (strip (join sep (map span_text (sort_spans (spans g)))))
      as [| c t] eqn:T.
    + exists ls. repeat split; auto.
      * intros l I. destruct (A l I) as (g' & Ig & Rd). exists g'. auto.
      * intros g' [<- | I]; [now left | now apply B].
    + destruct (sort_spans_ok (spans g)) as [Pm St].
      destruct (sort_spans (spans g)) as [| s ss] eqn:Sp;
        [simpl in T; discriminate |].
      simpl index0. cbn [bind]. rewrite E. cbn [bind].
      eexists. split; [reflexivity |].
      assert (Rd : reads sep g
                     (mkLine (c :: t) (span_size s) (span_font s)
                        (contains (u "bold") (lower (span_font s))
                         || negb (Z.land (span_flags s) 16 =? 0))
                        (group_page g) (group_bbox g))).
      { exists s, ss. simpl. rewrite <- T. repeat split; auto. }
      split; [| split].
      * constructor; auto. apply Forall_forall. intros l I.
        destruct (A l I) as (g' & Ig & Rd' & _).
        rewrite (reads_key Rd'). rewrite Forall_forall in Fg.
        now apply Fg.
      * intros l [<- | I].
        -- exists g. repeat split; auto. simpl. discriminate.
        -- destruct (A l I) as (g' & Ig & Rd'). exists g'. auto.
      * intros g' [<- | I].
        -- right. eexists. split; [now left | exact Rd].
        -- destruct (B g' I) as [Bl | (l & Il & Rl)]; [now left |].
           right. exists l. split; [now right | exact Rl].
Qed.

(** What the second loop of [extract_and_group_lines] returns for a
    document. *)
Lemma logical_lines_of_doc (doc : Pdf) :
  exists ls,
    logical_lines_of sep (sorted_groups doc) = Ok ls
    /\ reading_order ls
    /\ (forall l, In l ls ->
          text l <> [] /\ stripped (text l)
          /\ 0 <= page l < page_count doc
          /\ exists g, gathers (pdf_lines 0 doc) (line_key l) g
                       /\ reads sep g l)
    /\ (forall ptl, In ptl (pdf_lines 0 doc) ->
          (exists l, In l ls /\ line_key l = raw_key ptl)
          \/ exists g, gathers (pdf_lines 0 doc) (raw_key ptl) g
                       /\ blank_row sep g).
Proof.
  destruct (sorted_groups_ok doc) as [S Pg].
  destruct (sorted_groups_rows doc) as [G C].
  destruct (logical_lines_of_trace
              (fun a b => lt_int_int a b = true) S) as (ls & E & Sl & A & B).
  destruct (logical_lines_of_total sep (sorted_groups doc))
    as (ls' & E' & T).
  assert (ls' = ls) by congruence. subst ls'.
  exists ls. repeat split; auto.
  - now apply T.
  - now apply T.
  - destruct (A l H) as (g & Ig & (s & ss & Rd) & _).
    destruct Rd as (_ & _ & _ & _ & _ & _ & -> & _). now apply Pg.
  - destruct (A l H) as (g & Ig & (s & ss & Rd) & _).
    destruct Rd as (_ & _ & _ & _ & _ & _ & -> & _). now apply Pg.
  - destruct (A l H) as (g & Ig & Rd & _). exists g.
    rewrite (reads_key Rd). auto.
  - intros ptl I. destruct (C ptl I) as (g & Ig & K).
    destruct (B g Ig) as [Bl | (l & Il & Rl)].
    + right. exists g. rewrite <- K. auto.
    + left. exists l. rewrite (reads_key Rl). auto.
Qed.
End LinesTrace.

Section Stage1Facts.
Context {U : Unicode}.

(** X1 (both scripts, [extract_and_group_lines]): the logical lines that
    the function returns for a document come out from top to bottom, page
    after page, with at most one line for a page and an integer height; the
    text of a line is non-empty and has no whitespace at either end, and
    its page is a page of the document. *)
Theorem logical_lines_in_reading_order (doc : Pdf) :
  (forall ls pr,
      process_pdfs.extract_and_group_lines doc = Ok (ls, pr) ->
      reading_order ls
      /\ forall l, In l ls ->
           text l <> [] /\ stripped (text l)
           /\ 0 <= page l < page_count doc)
  /\ (forall ls pr,
         outline_extractor.extract_and_group_lines doc = Ok (ls, pr) ->
         reading_order ls
         /\ forall l, In l ls ->
              text l <> [] /\ stripped (text l)
              /\ 0 <= page l < page_count doc).
Proof.
  split; intros ls pr R.
  - destruct (logical_lines_of_doc [] doc) as (ls0 & E & O & A & _).
    unfold process_pdfs.extract_and_group_lines in R.
    rewrite E in R. cbn [bind] in R.
    destruct (process_pdfs.build_profile ls0 (page_count doc)) as [pr0 |];
      [| discriminate].
    cbn [bind] in R. injection R as <- _. split; [exact O |].
    intros l I. destruct (A l I) as (T & S & Pg & _). auto.
  - destruct (logical_lines_of_doc space doc) as (ls0 & E & O & A & _).
    unfold outline_extractor.extract_and_group_lines in R.
    rewrite E in R. cbn [bind] in R.
    destruct (outline_extractor.build_profile ls0) as [pr0 |];
      [| discriminate].
    cbn [bind] in R. injection R as <- _. split; [exact O |].
    intros l I. destruct (A l I) as (T & S & Pg & _). auto.
Qed.

(** X2 (both scripts, [extract_and_group_lines]): a logical line is one row
    of the page.  The raw lines with the same page and the same integer
    [bbox[1]] form a row; the logical line of the row has the box and the
    page of the first raw line of the row, the font size, font name and
    weight of the leftmost span of the row, and as text the texts of the
    spans of the row from left to right, joined without a separator in
    process_pdfs.py and with a space in outline_extractor.py, and trimmed.
    Every raw line of a text block is in the row of a logical line, unless
    the text of its row is blank. *)
Theorem logical_line_is_a_row (doc : Pdf) :
  (exists ls pr,
      process_pdfs.extract_and_group_lines doc = Ok (ls, pr)
      /\ (forall l, In l ls ->
            exists g, gathers (pdf_lines 0 doc) (line_key l) g
                      /\ reads [] g l)
      /\ (forall ptl, In ptl (pdf_lines 0 doc) ->
            (exists l, In l ls /\ line_key l = raw_key ptl)
            \/ exists g, gathers (pdf_lines 0 doc) (raw_key ptl) g
                         /\ blank_row [] g))
  /\ (exists ls pr,
         outline_extractor.extract_and_group_lines doc = Ok (ls, pr)
         /\ (forall l, In l ls ->
               exists g, gathers (pdf_lines 0 doc) (line_key l) g
                         /\ reads space g l)
         /\ (forall ptl, In ptl (pdf_lines 0 doc) ->
               (exists l, In l ls /\ line_key l = raw_key ptl)
               \/ exists g, gathers (pdf_lines 0 doc) (raw_key ptl) g
                            /\ blank_row space g)).
Proof.
  split.
  - destruct (logical_lines_of_doc [] doc) as (ls & E & _ & A & B).
    destruct (pp_build_profile_ok ls (page_count doc)) as (b & lm & P).
    exists ls. eexists. unfold process_pdfs.extract_and_group_lines.
    rewrite E. cbn [bind]. rewrite P. cbn [bind].
    split; [reflexivity | split; [| exact B]].
    intros l I. destruct (A l I) as (_ & _ & _ & G). exact G.
  - destruct (logical_lines_of_doc space doc) as (ls & E & _ & A & B).
    destruct (oe_build_profile_ok ls) as (b & P).
    exists ls. eexists. unfold outline_extractor.extract_and_group_lines.
    rewrite E. cbn [bind]. rewrite P. cbn [bind].
    split; [reflexivity | split; [| exact B]].
    intros l I. destruct (A l I) as (_ & _ & _ & G). exact G.
Qed.
End Stage1Facts.

(** X3 (both scripts, first loop of [extract_and_group_lines]): grouping
    loses no span and repeats none: the spans held by the rows, taken
    together, are the spans of the lines of the text blocks of the document,
    rearranged; the spans of other blocks are in no row. *)
Theorem grouping_keeps_every_span (doc : Pdf) :
  Permutation (concat (map spans (sorted_groups doc))) (pdf_spans doc).
Proof.
  unfold sorted_groups. rewrite map_map.
  transitivity (held_spans (group_pages 0 doc [])).
  - unfold held_spans. rewrite <- !flat_map_concat_map.
    apply Permutation_flat_map, sort_perm.
  - exact (group_pages_held doc 0 []).
Qed.

(** ** [Counter(xs).most_common(1)] *)

Section CounterFacts.
Variable A : Type.
Variable eqb : A -> A -> bool.
Hypothesis eqb_refl : forall x, eqb x x = true.
Hypothesis eqb_sym : forall x y, eqb x y = eqb y x.
Hypothesis eqb_trans :
  forall x y z, eqb x y = true -> eqb y z = true -> eqb x z = true.

Lemma occurrences_app (x : A) (xs ys : list A) :
  occurrences eqb x (xs ++ ys) = occurrences eqb x xs + occurrences eqb x ys.
Proof.
  unfold occurrences, len. rewrite filter_app, length_app. lia.
Qed.

Lemma occurrences_equiv (x y : A) (xs : list A) :
  eqb x y = true -> occurrences eqb x xs = occurrences eqb y xs.
Proof.
  intros E. unfold occurrences. f_equal. apply filter_ext. intros z.
  destruct (eqb y z) eqn:Y.
  - now apply eqb_trans with y.
  - destruct (eqb x z) eqn:X; auto.
    rewrite eqb_sym in E. rewrite <- Y. symmetry. now apply eqb_trans with x.
Qed.

Lemma occurrences_none (x : A) (xs : list A) :
  (forall z, In z xs -> eqb x z = false) -> occurrences eqb x xs = 0.
Proof.
  intros H. unfold occurrences. induction xs as [| z xs IH]; auto.
  simpl. rewrite (H z (or_introl eq_refl)). apply IH.
  intros w I. apply H. now right.
Qed.

Lemma first_match (B : Type) (p : B -> bool) (c : list B) :
  (forall i, In i c -> p i = false)
  \/ exists c1 i c2, c = c1 ++ i :: c2 /\ p i = true
                     /\ forall j, In j c1 -> p j = false.
Proof.
  induction c as [| a c [N | (c1 & i & c2 & -> & P & N)]].
  - left. intros i [].
  - destruct (p a) eqn:Pa.
    + right. exists [], a, c. repeat split; auto. intros j [].
    + left. intros i [<- | I]; auto.
  - destruct (p a) eqn:Pa.
    + right. exists [], a, (c1 ++ i :: c2). repeat split; auto. intros j [].
    + right. exists (a :: c1), i, c2. repeat split; auto.
      intros j [<- | I]; auto.
Qed.

Lemma counter_add_miss (x : A) (c : list (A * Z)) :
  (forall i, In i c -> eqb (fst i) x = false) ->
  counter_add eqb x c = c ++ [(x, 1)].
Proof.
  induction c as [| [y n] c IH]; simpl; auto. intros H.
  pose proof (H (y, n) (or_introl eq_refl)) as Hy. simpl in Hy.
  rewrite Hy. rewrite IH; auto.
Qed.

Lemma counter_add_hit (x y : A) (n : Z) (c1 c2 : list (A * Z)) :
  (forall i, In i c1 -> eqb (fst i) x = false) -> eqb y x = true ->
  counter_add eqb x (c1 ++ (y, n) :: c2) = c1 ++ (y, n + 1) :: c2.
Proof.
  intros H E. induction c1 as [| [z k] c1 IH]; simpl.
  - now rewrite E.
  - pose proof (H (z, k) (or_introl eq_refl)) as Hz. simpl in Hz.
    rewrite Hz. rewrite IH; auto.
    intros i I. apply H. now right.
Qed.

(** The counter [c] of the values [xs]: the counts are the numbers of
    occurrences, every value has an item, and the items are in the order of
    the first occurrences. *)
Lemma Counter_spec (xs : list A) :
  let c := Counter eqb xs in
  (forall y n, In (y, n) c -> n = occurrences eqb y xs)
  /\ (forall x, In x xs -> exists y n, In (y, n) c /\ eqb y x = true)
  /\ (forall k1 y k2, map fst c = k1 ++ y :: k2 ->
        (forall k, In k k1 -> eqb k y = false)
        /\ exists pre post,
             xs = pre ++ y :: post
             /\ forall z, In z pre -> exists k, In k k1 /\ eqb k z = true).
Proof.
  induction xs as [| x xs IH] using rev_ind.
  - simpl. split; [intros y n [] | split; [intros x [] |]].
    intros [| k k1] y k2 E; discriminate.
  - unfold Counter. rewrite fold_left_app. simpl.
    fold (Counter eqb xs). simpl in IH. destruct IH as (I1 & I2 & I3).
    set (c := Counter eqb xs) in *.
    destruct (first_match (fun i => eqb (fst i) x) c)
      as [N | (c1 & [y n] & c2 & Ec & Hy & N)].
    + rewrite counter_add_miss by exact N.
      assert (Z0 : occurrences eqb x xs = 0).
      { apply occurrences_none. intros z Iz.
        destruct (eqb x z) eqn:Ez; auto.
        destruct (I2 z Iz) as (y & n & Iy & Ey).
        specialize (N _ Iy). simpl in N. rewrite eqb_sym in Ez.
        rewrite (eqb_trans Ey Ez) in N. discriminate. }
      split; [| split].
      * intros y n I. rewrite occurrences_app.
        apply in_app_or in I as [I | [X | []]].
        -- specialize (N _ I). simpl in N. unfold occurrences at 2. simpl.
           rewrite N. simpl. rewrite (I1 _ _ I). unfold len. simpl. lia.
        -- injection X as <- <-. rewrite Z0. unfold occurrences. simpl.
           now rewrite eqb_refl.
      * intros z I. apply in_app_or in I as [I | [<- | []]].
        -- destruct (I2 z I) as (y & n & Iy & Ey). exists y, n.
           split; auto. apply in_or_app. now left.
        -- exists x, 1. split; auto. apply in_or_app. right. now left.
      * intros k1 y k2 E. rewrite map_app in E. simpl in E.
        destruct k2 as [| k k2] using rev_ind.
        -- apply app_inj_tail in E as [E <-]. split.
           ++ intros k Ik. rewrite <- E in Ik.
              apply in_map_iff in Ik as (i & <- & Ii). now apply N.
           ++ exists xs, []. split; auto. intros z Iz.
              destruct (I2 z Iz) as (y & n & Iy & Ey). exists y.
              split; auto. rewrite <- E. now apply (in_map fst) in Iy.
        -- clear IHk2.
           replace (k1 ++ y :: k2 ++ [k]) with ((k1 ++ y :: k2) ++ [k]) in E
             by now rewrite <- app_assoc.
           apply app_inj_tail in E as [E _].
           destruct (I3 _ _ _ E) as (D & pre & post & Ex & Hp).
           split; auto. exists pre, (post ++ [x]). split; auto.
           rewrite Ex. now rewrite <- app_assoc.
    + rewrite Ec. rewrite counter_add_hit by auto.
      assert (K : map fst (c1 ++ (y, n + 1) :: c2) = map fst c).
      { rewrite Ec, !map_app. reflexivity. }
      assert (Cy : forall z k, In (z, k) c ->
                     occurrences eqb z (xs ++ [x])
                     = k + (if eqb z x then 1 else 0)).
      { intros z k I. rewrite occurrences_app, <- (I1 _ _ I).
        unfold occurrences, len. simpl. now destruct (eqb z x). }
      split; [| split].
      * intros z k I. apply in_app_or in I as [I | [X | I]].
        -- rewrite (Cy z k) by (rewrite Ec; apply in_or_app; now left).
           specialize (N _ I). simpl in N. rewrite N. lia.
        -- injection X as <- <-.
           rewrite (Cy y n) by (rewrite Ec; apply in_or_app; right; now left).
           simpl in Hy. rewrite Hy. lia.
        -- rewrite (Cy z k)
             by (rewrite Ec; apply in_or_app; right; now right).
           destruct (in_split _ _ I) as (c2a & c2b & ->).
           assert (E : map fst c
                       = (map fst c1 ++ y :: map fst c2a) ++ z :: map fst c2b).
           { rewrite Ec, !map_app. simpl. rewrite map_app. simpl.
             now rewrite <- app_assoc. }
           destruct (I3 _ _ _ E) as (D & _).
           assert (Dy : eqb y z = false).
           { apply D. apply in_or_app. right. now left. }
           destruct (eqb z x) eqn:Zx; [| lia].
           simpl in Hy. rewrite (eqb_sym z x) in Zx.
           rewrite (eqb_trans Hy Zx) in Dy. discriminate.
      * intros z I.
        assert (X : exists y0, In y0 (map fst c) /\ eqb y0 z = true).
        { apply in_app_or in I as [I | [<- | []]].
          - destruct (I2 z I) as (y0 & n0 & I0 & E0). exists y0.
            split; auto. now apply (in_map fst) in I0.
          - exists y. split; auto. rewrite Ec, map_app. apply in_or_app.
            right. now left. }
        destruct X as (y0 & I0 & E0). rewrite <- K in I0.
        apply in_map_iff in I0 as ([y1 n1] & <- & I1'). now exists y1, n1.
      * intros k1 y0 k2 E. rewrite K in E.
        destruct (I3 _ _ _ E) as (D & pre & post & Ex & Hp).
        split; auto. exists pre, (post ++ [x]). split; auto.
        rewrite Ex. now rewrite <- app_assoc.
Qed.

Lemma most_from_spec (c : list (A * Z)) :
  forall (p1 : list (A * Z)) (m : A * Z) (p2 : list (A * Z)),
    (forall i, In i p1 -> snd i < snd m) ->
    (forall i, In i p2 -> snd i <= snd m) ->
    exists q1 q2,
      p1 ++ m :: p2 ++ c = q1 ++ most_from m c :: q2
      /\ (forall i, In i q1 -> snd i < snd (most_from m c))
      /\ (forall i, In i q2 -> snd i <= snd (most_from m c)).
Proof.
  induction c as [| it c IH]; intros p1 m p2 H1 H2; simpl.
  - exists p1, p2. rewrite app_nil_r. auto.
  - destruct (snd m <? snd it) eqn:L.
    + apply Z.ltb_lt in L.
      destruct (IH (p1 ++ m :: p2) it []) as (q1 & q2 & E & Q1 & Q2).
      * intros i I. apply in_app_or in I as [I | [<- | I]]; auto.
        -- specialize (H1 _ I). lia.
        -- specialize (H2 _ I). lia.
      * intros i [].
      * exists q1, q2. split; auto. rewrite <- E. simpl.
        now rewrite <- app_assoc.
    + apply Z.ltb_ge in L.
      destruct (IH p1 m (p2 ++ [it])) as (q1 & q2 & E & Q1 & Q2); auto.
      * intros i I. apply in_app_or in I as [I | [<- | []]]; auto.
      * exists q1, q2. split; auto. rewrite <- E.
        now rewrite <- app_assoc.
Qed.

(** [Counter(xs).most_common(1)[0][0]] on a non-empty [xs] is the first of
    the most frequent values. *)
Lemma mode_spec (x : A) (xs : list A) :
  exists m n,
    index0 (most_common_1 (Counter eqb (x :: xs))) = Ok (m, n)
    /\ n = occurrences eqb m (x :: xs)
    /\ first_mode eqb (x :: xs) m.
Proof.
  destruct (Counter_spec (x :: xs)) as (I1 & I2 & I3).
  destruct (Counter eqb (x :: xs)) as [| it c] eqn:Ec.
  { destruct (I2 x (or_introl eq_refl)) as (y & n & [] & _). }
  destruct (most_from_spec c [] it [] (fun i (F : In i []) => match F with end)
              (fun i (F : In i []) => match F with end))
    as (q1 & q2 & E & Q1 & Q2).
  simpl in E. destruct (most_from it c) as [m n] eqn:M. simpl in Q1, Q2.
  exists m, n. split; [simpl; now rewrite M |].
  assert (Im : In (m, n) (it :: c)).
  { rewrite E. apply in_or_app. right. now left. }
  assert (N : n = occurrences eqb m (x :: xs)) by now apply I1.
  split; auto.
  assert (K : map fst (it :: c) = map fst q1 ++ m :: map fst q2).
  { rewrite E, map_app. reflexivity. }
  destruct (I3 _ _ _ K) as (_ & pre & post & Ex & Hp).
  exists pre, post. split; auto. rewrite <- N. split.
  - intros y Iy. destruct (Hp y Iy) as (k & Ik & Ek).
    apply in_map_iff in Ik as ([k' nk] & <- & Ik). simpl in Ek.
    rewrite <- (occurrences_equiv _ Ek).
    rewrite <- (I1 k' nk) by (rewrite E; apply in_or_app; now left).
    apply (Q1 _ Ik).
  - intros y Iy. destruct (I2 y Iy) as (k & nk & Ik & Ek).
    rewrite <- (occurrences_equiv _ Ek). rewrite <- (I1 k nk Ik).
    rewrite E in Ik. apply in_app_or in Ik as [Ik | [X | Ik]].
    + specialize (Q1 _ Ik). simpl in Q1. lia.
    + injection X as _ <-. lia.
    + apply (Q2 _ Ik).
Qed.
End CounterFacts.

Lemma Qeq_bool_comm (x y : Q) : Qeq_bool x y = Qeq_bool y x.
Proof.
  destruct (Qeq_bool x y) eqn:A, (Qeq_bool y x) eqn:B; auto.
  - apply Qeq_bool_sym in A. congruence.
  - apply Qeq_bool_sym in B. congruence.
Qed.

Lemma Zeqb_trans (x y z : Z) :
  (x =? y) = true -> (y =? z) = true -> (x =? z) = true.
Proof. rewrite !Z.eqb_eq. congruence. Qed.

(** X4 (both scripts, the part of [extract_and_group_lines] under
    [# Build Document Profile]): the profile is always built.  The baseline
    font size is the first of the most frequent font sizes of the lines
    longer than 15 characters (20 in outline_extractor.py), and 10 (12 in
    outline_extractor.py) when there is no such line; the left margin of
    process_pdfs.py is the first of the most frequent integer left edges of
    the lines longer than 20 characters, and 72 when there is none. *)
Theorem profile_is_first_mode (lines : list LogicalLine) (pc : Z) :
  (exists pr,
      process_pdfs.build_profile lines pc = Ok pr
      /\ (sizes_of_long 15 lines = [] ->
          baseline_font_size pr = (10 # 1)%Q)
      /\ (sizes_of_long 15 lines <> [] ->
          first_mode Qeq_bool (sizes_of_long 15 lines)
                     (baseline_font_size pr))
      /\ (margins_of_long 20 lines = [] -> left_margin pr = 72)
      /\ (margins_of_long 20 lines <> [] ->
          first_mode Z.eqb (margins_of_long 20 lines) (left_margin pr)))
  /\ (exists pr,
         outline_extractor.build_profile lines = Ok pr
         /\ (sizes_of_long 20 lines = [] ->
             outline_extractor.baseline_font_size pr = (12 # 1)%Q)
         /\ (sizes_of_long 20 lines <> [] ->
             first_mode Qeq_bool (sizes_of_long 20 lines)
                        (outline_extractor.baseline_font_size pr))).
Proof.
  split.
  - unfold process_pdfs.build_profile.
    fold (sizes_of_long 15 lines). fold (margins_of_long 20 lines).
    destruct (sizes_of_long 15 lines) as [| f fs];
      [| destruct (@mode_spec _ Qeq_bool Qeq_bool_refl Qeq_bool_comm
                             Qeq_bool_trans f fs)
           as (m & n & -> & _ & M)];
      (destruct (margins_of_long 20 lines) as [| a ms];
       [| destruct (@mode_spec _ Z.eqb Z.eqb_refl Z.eqb_sym Zeqb_trans a ms)
            as (m' & n' & -> & _ & M')]);
      cbn [bind fst]; eexists; (split; [reflexivity |]); simpl;
      repeat split; auto; try congruence.
  - unfold outline_extractor.build_profile.
    fold (sizes_of_long 20 lines).
    destruct (sizes_of_long 20 lines) as [| f fs];
      [| destruct (@mode_spec _ Qeq_bool Qeq_bool_refl Qeq_bool_comm
                             Qeq_bool_trans f fs)
           as (m & n & -> & _ & M)];
      cbn [bind fst]; eexists; (split; [reflexivity |]); simpl;
      repeat split; auto; try congruence.
Qed.

(** ** Titles *)

Lemma max_from_spec (xs : list Q) :
  forall m, In (max_from m xs) (m :: xs)
            /\ forall y, In y (m :: xs) -> (y <= max_from m xs)%Q.
Proof.
  induction xs as [| x xs IH]; intros m; simpl.
  - split; [now left | intros y [<- | []]; apply Qle_refl].
  - destruct (Qltb m x) eqn:L.
    + apply Qltb_lt in L. destruct (IH x) as [I B]. split.
      * now right.
      * intros y [<- | Iy]; [| now apply B].
        apply Qle_trans with x; [now apply Qlt_le_weak |].
        apply B. now left.
    + assert (Lx : (x <= m)%Q).
      { unfold Qltb in L. apply negb_false_iff in L.
        now apply Qle_bool_iff. }
      destruct (IH m) as [I B]. split.
      * destruct I as [I | I]; [now left | right; now right].
      * intros y [<- | [<- | Iy]].
        -- apply B. now left.
        -- apply Qle_trans with m; [exact Lx | apply B; now left].
        -- apply B. now right.
Qed.

Lemma py_max_largest (f : LogicalLine -> Q) (l : LogicalLine)
      (ls : list LogicalLine) :
  exists m, py_max (map f (l :: ls)) = Ok m /\ largest f (l :: ls) m.
Proof.
  simpl. eexists. split; [reflexivity |].
  destruct (max_from_spec (map f ls) (f l)) as [I B]. split.
  - change (f l :: map f ls) with (map f (l :: ls)) in I.
    apply in_map_iff in I as (l' & E & I). now exists l'.
  - intros l' I'. apply B.
    change (f l :: map f ls) with (map f (l :: ls)).
    now apply in_map.
Qed.

Lemma lt_float_float_spec (a b : Q * Q) :
  lt_float_float a b = true
  <-> (fst a < fst b \/ (fst a == fst b /\ snd a < snd b))%Q.
Proof.
  unfold lt_float_float.
  rewrite orb_true_iff, andb_true_iff, !Qltb_lt, Qeq_bool_iff. reflexivity.
Qed.

Lemma lt_float_float_false (a b : Q * Q) :
  lt_float_float a b = false
  <-> (fst b < fst a \/ (fst a == fst b /\ snd b <= snd a))%Q.
Proof.
  rewrite <- not_true_iff_false, lt_float_float_spec. split.
  - intros H. destruct (Qlt_le_dec (fst b) (fst a)) as [L | L]; [now left |].
    right. destruct (Qlt_le_dec (fst a) (fst b)) as [L' | L'].
    + destruct H. now left.
    + assert (E : (fst a == fst b)%Q) by now apply Qle_antisym.
      split; auto. destruct (Qlt_le_dec (snd a) (snd b)) as [M | M]; auto.
      destruct H. right. auto.
  - intros [L | [E L]] [M | [E' M]]; lra.
Qed.

Lemma top_left_trans (a b c : LogicalLine) :
  top_left a b -> top_left b c -> top_left a c.
Proof.
  unfold top_left. rewrite !lt_float_float_false. simpl.
  intros [L | [E L]] [M | [E' M]]; [left | left | left | right]; lra.
Qed.

Lemma rstrip_app_nonempty (x b : str) :
  rstrip b <> [] -> rstrip (x ++ b) = x ++ rstrip b.
Proof.
  intros N. induction x as [| c x IH]; simpl; auto.
  rewrite rstrip_cons, IH. destruct (x ++ rstrip b) eqn:E; auto.
  destruct x; simpl in E; [congruence | discriminate].
Qed.

Lemma stripped_rstrip (s : str) : stripped s -> rstrip s = s.
Proof.
  intros E. destruct (strip_trimmed s) as [_ R]. now rewrite E in R.
Qed.

Lemma stripped_app (a b : str) :
  stripped a -> stripped b -> a <> [] -> b <> [] -> stripped (a ++ b).
Proof.
  intros Sa Sb Na Nb. pose proof (stripped_head Sa) as Ha.
  destruct a as [| c a]; [congruence |]. unfold stripped. simpl.
  rewrite strip_cons_keep by exact Ha. f_equal.
  rewrite rstrip_app_nonempty; [now rewrite (stripped_rstrip Sb) |].
  now rewrite (stripped_rstrip Sb).
Qed.

Lemma stripped_concat (ts : list str) :
  (forall t, In t ts -> t <> [] /\ stripped t) -> stripped (concat ts).
Proof.
  induction ts as [| t ts IH]; intros H; [reflexivity |].
  simpl. destruct (H t (or_introl eq_refl)) as [N S].
  assert (Sc : stripped (concat ts)) by (apply IH; intros; apply H; now right).
  destruct (concat ts) as [| c r] eqn:E; [now rewrite app_nil_r |].
  apply stripped_app; auto. discriminate.
Qed.

(** X6 (process_pdfs.py, [extract_title]): on lines as the extraction
    produces them the title is the text in the largest type of the first
    page: the lines of page 0 whose font size is less than 0.5 away from the
    largest font size of that page, taken from top to bottom and from left
    to right, their texts put one after the other with nothing in between.
    The title is empty exactly when page 0 has no line; the function never
    raises. *)
Theorem pp_title_is_largest_text (lines : list LogicalLine) :
  (forall l, In l lines -> text l <> [] /\ stripped (text l)) ->
  exists t,
    process_pdfs.extract_title lines = Ok t
    /\ ((forall l, In l lines -> page l <> 0) -> t = [])
    /\ ((exists l, In l lines /\ page l = 0) ->
        exists m tl,
          largest font_size (on_page_0 lines) m
          /\ Permutation tl
               (filter (fun l => Qltb (Qabs (font_size l - m)%Q) (1 # 2)%Q)
                       (on_page_0 lines))
          /\ StronglySorted top_left tl
          /\ t = concat (map text tl)
          /\ t <> []).
Proof.
  intros WF. unfold process_pdfs.extract_title. fold (on_page_0 lines).
  destruct (on_page_0 lines) as [| l0 ls0] eqn:P0.
  - exists []. split; [reflexivity | split; [reflexivity |]].
    intros (l & I & Pg).
    assert (X : In l (on_page_0 lines)).
    { apply filter_In. split; auto. now apply Z.eqb_eq. }
    rewrite P0 in X. destruct X.
  - destruct (py_max_largest font_size l0 ls0) as (m & -> & Lg).
    cbn [bind]. eexists. split; [reflexivity |].
    set (near := filter (fun l => Qltb (Qabs (font_size l - m)%Q) (1 # 2)%Q)
                        (l0 :: ls0)).
    set (tl := sort (fun a b => lt_float_float (y0 (bbox a), x0 (bbox a))
                                               (y0 (bbox b), x0 (bbox b)))
                    near).
    assert (Pm : Permutation tl near) by apply sort_perm.
    assert (WFt : forall t, In t (map text tl) -> t <> [] /\ stripped t).
    { intros t I. apply in_map_iff in I as (l & <- & I). apply WF.
      apply (Permutation_in _ Pm) in I. apply filter_In in I as [I _].
      rewrite <- P0 in I. now apply filter_In in I. }
    assert (S : strip (concat (map text tl)) = concat (map text tl))
      by now apply stripped_concat.
    split.
    + intros None. assert (X : In l0 (on_page_0 lines))
        by (rewrite P0; now left).
      apply filter_In in X as [X Pg]. apply Z.eqb_eq in Pg.
      now destruct (None l0 X).
    + intros _. exists m, tl. split; [exact Lg |].
      split; [exact Pm |]. split; [| split; [exact S |]].
      * apply sort_rel.
        -- intros a b c. apply top_left_trans.
        -- intros a b H. unfold top_left. apply lt_float_float_spec in H.
           apply lt_float_float_false. cbn [fst snd] in H |- *.
           destruct H as [H | [H1 H2]]; [now left |].
           right. split; lra.
        -- auto.
      * rewrite S. destruct Lg as [(lm & Im & Em) _].
        assert (In lm near).
        { apply filter_In. split; auto. apply Qltb_lt. rewrite Em.
          setoid_replace (m - m)%Q with 0%Q by ring. reflexivity. }
        apply (Permutation_in _ (Permutation_sym Pm)) in H.
        destruct (in_split _ _ H) as (t1 & t2 & ->).
        rewrite map_app, concat_app. simpl.
        assert (N : text lm <> []).
        { apply WF. rewrite <- P0 in Im. now apply filter_In in Im. }
        intros E. apply app_eq_nil in E as [_ E].
        apply app_eq_nil in E as [E _]. contradiction.
Qed.

Lemma pp_title_is_largest_text_witness :
  exists t,
    process_pdfs.extract_title title_page = Ok t
    /\ ((forall l, In l title_page -> page l <> 0) -> t = [])
    /\ ((exists l, In l title_page /\ page l = 0) ->
        exists m tl,
          largest font_size (on_page_0 title_page) m
          /\ Permutation tl
               (filter (fun l => Qltb (Qabs (font_size l - m)%Q) (1 # 2)%Q)
                       (on_page_0 title_page))
          /\ StronglySorted top_left tl
          /\ t = concat (map text tl)
          /\ t <> []).
Proof.
  apply (pp_title_is_largest_text title_page).
  intros l [<- | [<- | [<- | [<- | []]]]];
    (split; [vm_compute; discriminate | vm_compute; reflexivity]).
Defined.

Lemma nonspace_collapse (s : str) :
  forall b, existsb nonspace (collapse_from b s) = existsb nonspace s.
Proof.
  induction s as [| c s IH]; intros b; simpl; auto.
  unfold nonspace at 2. destruct (isspace c) eqn:E; simpl.
  - destruct b; simpl; now rewrite IH.
  - unfold nonspace at 1. rewrite E. reflexivity.
Qed.

Lemma nonspace_lstrip (s : str) :
  existsb nonspace (lstrip s) = existsb nonspace s.
Proof.
  unfold lstrip. induction s as [| c s IH]; simpl; auto.
  unfold nonspace at 2. destruct (isspace c) eqn:E; simpl; auto.
  unfold nonspace at 1. now rewrite E.
Qed.

Lemma nonspace_rstrip (s : str) :
  existsb nonspace (rstrip s) = existsb nonspace s.
Proof.
  induction s as [| c s IH]; auto.
  rewrite rstrip_cons. simpl. rewrite <- IH.
  destruct (rstrip s) as [| x r]; simpl; auto.
  unfold nonspace. destruct (isspace c) eqn:E; simpl; [reflexivity |].
  now rewrite E.
Qed.

Lemma clean_nonblank (s : str) :
  existsb nonspace s = true -> strip (collapse_ws s) <> [].
Proof.
  intros H E.
  assert (X : existsb nonspace (strip (collapse_ws s)) = true).
  { unfold strip, collapse_ws.
    now rewrite nonspace_rstrip, nonspace_lstrip, nonspace_collapse. }
  rewrite E in X. discriminate.
Qed.

Lemma join_nonblank (sep p : str) (parts : list str) :
  existsb nonspace p = true ->
  existsb nonspace (join sep (p :: parts)) = true.
Proof.
  intros H. simpl. destruct parts; auto.
  rewrite existsb_app, H. reflexivity.
Qed.

Lemma stripped_nonblank (t : str) :
  t <> [] -> stripped t -> existsb nonspace (strip t) = true.
Proof.
  intros N S. rewrite S. apply stripped_head in S.
  destruct t as [| c t]; [congruence |]. simpl. unfold nonspace.
  now rewrite S.
Qed.

(** X7 (outline_extractor.py, [extract_title], the part in front of the
    first [return title]): the function never raises; the title has no
    whitespace at either end and only single spaces inside; it is empty when
    page 0 has no line or when no line of page 0 begins above 40% of the
    lowest bottom edge of the page; otherwise it is the cleaned join, with
    single spaces, of the texts of the lines of that region whose font size
    is at most 0.5 away from the largest font size of the region, in the
    order of the lines, and it is not empty on lines as the extraction
    produces them. *)
Theorem oe_title_from_top_lines (lines : list LogicalLine) :
  exists t,
    outline_extractor.extract_title lines = Ok t
    /\ single_spaced false t = true
    /\ trimmed t
    /\ (on_page_0 lines = [] -> t = [])
    /\ (on_page_0 lines <> [] ->
        exists max_y,
          largest (fun l => y1 (bbox l)) (on_page_0 lines) max_y
          /\ (top_lines max_y lines = [] -> t = [])
          /\ (top_lines max_y lines <> [] ->
              exists max_font,
                largest font_size (top_lines max_y lines) max_font
                /\ t = strip (collapse_ws
                         (join space
                            (map (fun l => strip (text l))
                               (filter
                                  (fun l =>
                                     Qle_bool
                                       (Qabs (font_size l - max_font)%Q)
                                       (1 # 2)%Q)
                                  (top_lines max_y lines)))))
                /\ ((forall l, In l lines ->
                               text l <> [] /\ stripped (text l)) ->
                    t <> []))).
Proof.
  unfold outline_extractor.extract_title. fold (on_page_0 lines).
  destruct (on_page_0 lines) as [| l0 ls0] eqn:P0.
  - exists []. repeat split; auto. congruence.
  - destruct (py_max_largest (fun l => y1 (bbox l)) l0 ls0)
      as (max_y & -> & Ly).
    cbn [bind]. rewrite <- P0. fold (top_lines max_y lines).
    destruct (top_lines max_y lines) as [| l1 ls1] eqn:T1.
    + exists []. repeat split; auto; try congruence.
      intros _. exists max_y. rewrite P0 at 1. rewrite T1.
      repeat split; try apply Ly; congruence.
    + destruct (py_max_largest font_size l1 ls1) as (max_font & -> & Lf).
      cbn [bind]. eexists. split; [reflexivity |].
      split; [apply single_spaced_clean |]. split; [apply strip_trimmed |].
      split; [congruence |]. intros _. exists max_y. rewrite P0 at 1.
      rewrite T1. split; [exact Ly |]. split; [congruence |].
      intros _. exists max_font. split; [exact Lf |].
      split; [reflexivity |]. intros WF.
      destruct Lf as [(lm & Im & Em) _].
      assert (Ic : In lm (filter
                            (fun l => Qle_bool
                                        (Qabs (font_size l - max_font)%Q)
                                        (1 # 2)%Q)
                            (l1 :: ls1))).
      { apply filter_In. split; auto. apply Qle_bool_iff. rewrite Em.
        setoid_replace (max_font - max_font)%Q with 0%Q by ring.
        discriminate. }
      assert (Il : In lm lines).
      { rewrite <- T1 in Im. apply filter_In in Im as [Im _].
        now apply filter_In in Im. }
      destruct (filter _ (l1 :: ls1)) as [| c cs] eqn:F; [destruct Ic |].
      assert (Ic0 : In c (l1 :: ls1)).
      { assert (X : In c (c :: cs)) by now left.
        rewrite <- F in X. now apply filter_In in X. }
      assert (Il0 : In c lines).
      { rewrite <- T1 in Ic0. apply filter_In in Ic0 as [Ic0 _].
        now apply filter_In in Ic0. }
      destruct (WF c Il0) as [N S].
      apply clean_nonblank. cbn [map]. apply join_nonblank.
      now apply stripped_nonblank.
Qed.

(** ** The numbering rule of outline_extractor.py *)

Lemma matches_star_inv (r : regex) (s : str) :
  matches (Star r) s ->
  s = [] \/ exists s1 s2, s = s1 ++ s2 /\ matches r s1 /\ matches (Star r) s2.
Proof.
  intros H. inversion H; subst; [now left |]. right. now exists s1, s2.
Qed.

Lemma takewhile_app_stop (P : char -> bool) (xs ys : str) (c : char) :
  forallb P xs = true -> P c = false -> takewhile P (xs ++ c :: ys) = xs.
Proof.
  intros F Hc. induction xs as [| x xs IH]; simpl.
  - now rewrite Hc.
  - simpl in F. apply andb_true_iff in F as [Hx F]. rewrite Hx.
    now rewrite IH.
Qed.

Lemma count_char_app (c : char) (a b : str) :
  count_char c (a ++ b) = count_char c a + count_char c b.
Proof. unfold count_char, len. rewrite filter_app, length_app. lia. Qed.

Lemma count_char_cons (c x : char) (s : str) :
  count_char c (x :: s) = (if char_eqb c x then 1 else 0) + count_char c s.
Proof.
  unfold count_char, len. cbn [filter].
  destruct (char_eqb c x); simpl length; lia.
Qed.

Lemma dotted_cons (n : str) (segs : list str) :
  dotted (n :: segs) = n ++ concat (map (fun s => 46%N :: s) segs).
Proof.
  unfold dotted. revert n. induction segs as [| m segs IH]; intros n.
  - simpl. now rewrite app_nil_r.
  - change (join [46%N] (n :: m :: segs))
      with (n ++ [46%N] ++ join [46%N] (m :: segs)).
    rewrite IH. reflexivity.
Qed.

Section OENumbering.
Context {U : Unicode}.
Import outline_extractor.
Hypothesis plain : decimals_are_plain U.

Lemma digit_not_space (c : char) : isspace c = true -> isdecimal c = false.
Proof.
  intros H. destruct (isdecimal c) eqn:E; auto.
  destruct (plain c E) as [X _]. congruence.
Qed.

Lemma period_not_digit : isdecimal 46%N = false.
Proof.
  destruct (isdecimal 46%N) eqn:E; auto. now destruct (plain _ E) as [_ X].
Qed.

Lemma digits_no_period (n : str) :
  forallb isdecimal n = true -> count_char 46 n = 0.
Proof.
  unfold count_char. induction n as [| c n IH]; cbn [filter forallb]; auto.
  intros F. apply andb_true_iff in F as [Hc F].
  destruct (char_eqb 46 c) eqn:E; [| now apply IH].
  apply N.eqb_eq in E. subst c. rewrite period_not_digit in Hc.
  discriminate.
Qed.

Lemma digits_in_group (n : str) :
  forallb isdecimal n = true ->
  forallb (fun c => isdecimal c || char_eqb c 46) n = true.
Proof.
  induction n as [| c n IH]; simpl; auto. intros F.
  apply andb_true_iff in F as [-> F]. simpl. now apply IH.
Qed.

(** The tail of a numbering: each further segment behind a full stop. *)
Lemma tail_segments (segs : list str) :
  (forall n, In n segs -> digits n) ->
  let tl := concat (map (fun s => 46%N :: s) segs) in
  matches (Star (Cat dot (Plus d))) tl
  /\ forallb (fun c => isdecimal c || char_eqb c 46) tl = true
  /\ count_char 46 tl = len segs.
Proof.
  induction segs as [| m segs IH]; intros H; cbn [map concat app].
  - split; [constructor | split; reflexivity].
  - destruct (H m (or_introl eq_refl)) as [Nm Fm].
    destruct IH as (M & G & C); [intros; apply H; now right |].
    cbn zeta. split; [| split].
    + change (46%N :: m ++ concat (map (fun s => 46%N :: s) segs))
        with (([46%N] ++ m) ++ concat (map (fun s => 46%N :: s) segs)).
      constructor; auto. constructor.
      * now apply matches_chr.
      * now apply matches_plus_cls.
    + cbn [forallb]. unfold char_eqb at 1. rewrite N.eqb_refl, orb_true_r.
      cbn [andb]. rewrite forallb_app. apply andb_true_iff.
      split; [now apply digits_in_group | exact G].
    + rewrite count_char_cons, count_char_app, (digits_no_period _ Fm).
      unfold char_eqb. rewrite N.eqb_refl.
      replace (len (m :: segs)) with (1 + len segs)
        by (unfold len; simpl length; lia).
      f_equal. exact C.
Qed.

Lemma dotted_numbering (n : str) (segs : list str) :
  (forall m, In m (n :: segs) -> digits m) ->
  matches numbering (dotted (n :: segs))
  /\ forallb (fun c => isdecimal c || char_eqb c 46) (dotted (n :: segs))
     = true
  /\ count_char 46 (dotted (n :: segs)) + 1 = len (n :: segs).
Proof.
  intros H. destruct (H n (or_introl eq_refl)) as [Nn Fn].
  destruct (tail_segments segs) as (M & G & C);
    [intros; apply H; now right |].
  rewrite dotted_cons. split; [| split].
  - constructor; auto. now apply matches_plus_cls.
  - rewrite forallb_app, G, (digits_in_group _ Fn). reflexivity.
  - rewrite count_char_app, C, (digits_no_period _ Fn).
    unfold len. simpl length. lia.
Qed.

Lemma numbered_heading_intro (num rest : str) (w c : char) :
  matches numbering num -> isspace w = true -> any_char c = true ->
  re_match numbered_heading (num ++ w :: c :: rest) = true.
Proof.
  intros M Hw Hc. apply re_match_spec. exists (num ++ [w] ++ [c]), rest.
  split; [now rewrite <- !app_assoc |].
  unfold numbered_heading. constructor; auto. constructor.
  - apply matches_plus_cls. split; [discriminate |]. simpl. now rewrite Hw.
  - apply matches_plus_cls. split; [discriminate |]. simpl. now rewrite Hc.
Qed.

(** A numbering closed by a full stop that no digit follows - 1. Scope -
    is not what the pattern looks for. *)
Lemma numbered_heading_rejects (n tail : str) :
  digits n ->
  match tail with [] => True | x :: _ => isdecimal x = false end ->
  re_match numbered_heading (n ++ 46%N :: tail) = false.
Proof.
  intros [Nn Fn] T. apply not_true_iff_false. intros H.
  apply re_match_spec in H as (p & q & E & M). unfold numbered_heading in M.
  apply matches_cat_inv in M as (num & p1 & -> & Mn & M).
  apply matches_cat_inv in M as (sp & body & -> & Ms & _).
  unfold numbering in Mn.
  apply matches_cat_inv in Mn as (a & s' & -> & Ma & Mtl).
  apply matches_plus_cls in Ma as [Na Fa].
  apply matches_plus_cls in Ms as [Nsp Fsp].
  destruct sp as [| w0 sp]; [congruence |].
  simpl in Fsp. apply andb_true_iff in Fsp as [Hw0 _].
  apply matches_star_inv in Mtl as [-> | (s1 & s2 & -> & M1 & _)].
  - rewrite app_nil_r in E. rewrite <- !app_assoc in E. simpl in E.
    apply span_unique with (P := isdecimal) in E as (_ & X & _);
      auto using period_not_digit, digit_not_space.
    subst w0. vm_compute in Hw0. discriminate.
  - apply matches_cat_inv in M1 as (d1 & m' & -> & Md & Mm).
    apply matches_chr in Md as ->.
    apply matches_plus_cls in Mm as [Nm Fm].
    destruct m' as [| x m']; [congruence |].
    simpl in Fm. apply andb_true_iff in Fm as [Hx _].
    rewrite <- !app_assoc in E. simpl in E.
    apply span_unique with (P := isdecimal) in E as (_ & _ & X);
      auto using period_not_digit.
    subst tail. congruence.
Qed.

(** X13 (outline_extractor.py, [is_strong_heading]): on a trimmed text
    that passes the noise filter, a numbering of one, two or three segments
    of digits joined by full stops, followed by whitespace and by a further
    character that is not a line feed, gives H1, H2 or H3: the level is the
    number of segments.  With more than three segments, and when the
    numbering is closed by a full stop that no digit follows - 1. Scope -
    the structural rule does not apply and the level is decided by the
    prefix and format rules alone. *)
Theorem oe_numbering_depth_law (l : LogicalLine) (b : Q)
        (segs : list str) (n tail rest : str) (w c : char) :
  (forall m, In m (n :: segs) -> digits m) ->
  isspace w = true -> any_char c = true ->
  match tail with [] => True | x :: _ => isdecimal x = false end ->
  oe_passes (strip (text l)) ->
  (strip (text l) = dotted (n :: segs) ++ w :: c :: rest ->
   is_strong_heading l b
   = if len (n :: segs) <=? 3 then level_of (len (n :: segs))
     else weaker_rules l (strip (text l)) b)
  /\ (strip (text l) = n ++ 46%N :: tail ->
      re_match numbered_heading (strip (text l)) = false
      /\ is_strong_heading l b = weaker_rules l (strip (text l)) b).
Proof.
  intros D Hw Hc T (P1 & P2 & P3 & P4).
  assert (L : (len (strip (text l)) <? 3) = false) by now apply Z.ltb_ge.
  assert (W : (20 <? word_count (strip (text l))) = false)
    by now apply Z.ltb_ge.
  split.
  - intros E. unfold is_strong_heading. rewrite L, W, P3, P4. cbn [orb].
    destruct (dotted_numbering D) as (M & G & C).
    rewrite E at 1. rewrite (@numbered_heading_intro _ rest w c M Hw Hc).
    assert (G1 : group1 (strip (text l)) = dotted (n :: segs)).
    { rewrite E. unfold group1. apply takewhile_app_stop; auto.
      rewrite (digit_not_space _ Hw). simpl.
      destruct (char_eqb w 46) eqn:X; auto. apply N.eqb_eq in X. subst w.
      vm_compute in Hw. discriminate. }
    rewrite G1, C. reflexivity.
  - intros E. assert (R : re_match numbered_heading (strip (text l)) = false).
    { rewrite E. apply numbered_heading_rejects; auto.
      apply D. now left. }
    split; [exact R |].
    unfold is_strong_heading. now rewrite L, W, P3, P4, R.
Qed.
End OENumbering.

Lemma ascii_decimals_plain : decimals_are_plain ascii_unicode.
Proof.
  intros c H. simpl in H. unfold ascii_isdecimal in H.
  apply andb_true_iff in H as [H1 H2].
  apply N.leb_le in H1. apply N.leb_le in H2. split.
  - apply not_true_iff_false. intros S. unfold isspace in S.
    prop_of_bool; lia.
  - intros ->. vm_compute in H1. now apply H1.
Qed.

Lemma oe_numbering_depth_law_witness :
  outline_extractor.is_strong_heading (U := ascii_unicode)
    (sample_line (u "2.1 Scope") 12 false 1 72 100) 12
  = Some H2
  /\ re_match (outline_extractor.numbered_heading (U := ascii_unicode))
              (u "1. Introduction") = false
  /\ outline_extractor.is_strong_heading (U := ascii_unicode)
       (sample_line (u "1. Introduction") 12 false 1 72 100) 12
     = None.
Proof.
  assert (D1 : forall m, In m [u "2"; u "1"] -> digits (U := ascii_unicode) m).
  { intros m [<- | [<- | []]]; split; try discriminate; reflexivity. }
  assert (D2 : forall m, In m [u "1"] -> digits (U := ascii_unicode) m).
  { intros m [<- | []]; split; try discriminate; reflexivity. }
  assert (P1 : oe_passes (U := ascii_unicode)
                 (strip (text (sample_line (u "2.1 Scope")
                                 12 false 1 72 100)))).
  { repeat split; try reflexivity; vm_compute; discriminate. }
  assert (P2 : oe_passes (U := ascii_unicode)
                 (strip (text (sample_line (u "1. Introduction")
                                 12 false 1 72 100)))).
  { repeat split; try reflexivity; vm_compute; discriminate. }
  destruct (@oe_numbering_depth_law ascii_unicode ascii_decimals_plain
              (sample_line (u "2.1 Scope") 12 false 1 72 100) 12
              [u "1"] (u "2") [] (u "cope") 32%N 83%N
              D1 eq_refl eq_refl I P1) as [A _].
  destruct (@oe_numbering_depth_law ascii_unicode ascii_decimals_plain
              (sample_line (u "1. Introduction") 12 false 1 72 100) 12
              [] (u "1") (u " Introduction") [] 32%N 83%N
              D2 eq_refl eq_refl eq_refl P2) as [_ B].
  split; [| split].
  - rewrite A; reflexivity.
  - apply B. reflexivity.
  - destruct B as [_ B]; [reflexivity |]. rewrite B. reflexivity.
Defined.

(** ** The continuation merge of outline_extractor.py *)

Section OEMerge.
Context {U : Unicode}.
Import outline_extractor.

Lemma stub_pattern_numbered (t : str) :
  re_match stub_pattern t = true -> re_match numbered t = true.
Proof.
  intros H. apply re_match_spec in H as (p & q & -> & M).
  unfold stub_pattern in M.
  apply matches_cat_inv in M as (s1 & p1 & -> & M1 & M).
  apply matches_cat_inv in M as (s2 & s3 & -> & M2 & M3).
  apply re_match_spec. exists (s1 ++ s2), (s3 ++ q).
  split; [now rewrite <- !app_assoc |]. now constructor.
Qed.

Lemma oe_merge_fires (a b : Heading) (rest : list Heading) :
  same_page a b = true ->
  re_match stub_pattern (text (line a)) = true ->
  re_match numbered (text (line b)) = false ->
  merge_headings (a :: b :: rest) = oe_combine a b :: merge_headings rest.
Proof.
  intros P A B. cbn [merge_headings]. now rewrite P, A, B.
Qed.

(** X14 (outline_extractor.py, the [while] loop of [finalize_outline]): a
    heading whose text begins with one digit, a full stop and whitespace
    and that is followed, on its page, by a heading that does not begin
    with a digit and a full stop, absorbs it: its text becomes its own text,
    with every " - " turned into " – ", directly followed by the text of
    the second heading, without a separator, and the second heading is
    dropped; the scan resumes behind it.  Given just the two of them, the
    outline is that single entry. *)
Theorem oe_continuation_merge (a b : Heading) (profile : Profile) :
  same_page a b = true ->
  in_order a b ->
  re_match stub_pattern (text (line a)) = true ->
  re_match numbered (text (line b)) = false ->
  (forall pre post, exists pre',
      merge_headings (pre ++ a :: b :: post)
      = pre' ++ set_text a (replace (u " - ") (u " – ") (text (line a))
                            ++ text (line b))
             :: merge_headings post)
  /\ finalize_outline [a; b] profile
     = [mkEntry (level a)
                (strip (collapse_ws
                          (replace (u " - ") (u " – ") (text (line a))
                           ++ text (line b)))
                 ++ [32%N])
                (page (line a) + 1 - page_offset profile)].
Proof.
  intros P O A B. split.
  - intros pre post.
    assert (N : forall x, oe_absorbs x a = false).
    { intros x. unfold oe_absorbs.
      now rewrite (stub_pattern_numbered _ A), andb_false_r. }
    destruct (merge_with_reaches oe_absorbs oe_combine a (b :: post) N pre)
      as (pre' & E).
    exists pre'. rewrite oe_merge_headings, E. f_equal.
    rewrite <- oe_merge_headings. now apply oe_merge_fires.
  - unfold finalize_outline.
    rewrite sort_headings_pair by exact O.
    now rewrite oe_merge_fires by auto.
Qed.
End OEMerge.

Lemma oe_continuation_merge_witness :
  outline_extractor.finalize_outline (U := ascii_unicode) [overview; syllabus]
    (outline_extractor.mkProfile 12 0)
  = [mkEntry H1 (u "3. OverviewSyllabus ") 3]
  /\ outline_extractor.merge_headings (U := ascii_unicode)
       [overview; syllabus; appendix]
     = [set_text overview (u "3. OverviewSyllabus"); appendix].
Proof.
  assert (P1 : same_page overview syllabus = true) by reflexivity.
  assert (P2 : in_order overview syllabus) by reflexivity.
  assert (P3 : re_match (outline_extractor.stub_pattern (U := ascii_unicode))
                        (text (line overview)) = true)
    by reflexivity.
  assert (P4 : re_match (outline_extractor.numbered (U := ascii_unicode))
                        (text (line syllabus)) = false)
    by reflexivity.
  destruct (@oe_continuation_merge ascii_unicode overview syllabus
              (outline_extractor.mkProfile 12 0) P1 P2 P3 P4) as [M E].
  split.
  - rewrite E. vm_compute. reflexivity.
  - destruct (M [] [appendix]) as (pre' & Em). vm_compute. reflexivity.
Defined.

(** ** The whole pipeline *)

Section PipelineFacts.
Context {U : Unicode}.

Lemma oe_finalize_outline_pages (hs : list Heading)
      (profile : outline_extractor.Profile) (e : OutlineEntry) :
  In e (outline_extractor.finalize_outline hs profile) ->
  exists h, In h hs
            /\ o_page e
               = page (line h) + 1 - outline_extractor.page_offset profile.
Proof.
  intros I. rewrite oe_finalize_outline_eq in I.
  apply format_outline_In in I as (m & Im & -> & _).
  destruct (@merge_with_page oe_absorbs oe_combine oe_combine_page _ _ Im)
    as (h & Ih & E).
  exists h. split; [now apply sort_headings_In |].
  simpl. unfold final_page. now rewrite E.
Qed.

Lemma oe_find_headings_line (lines : list LogicalLine)
      (q : outline_extractor.Profile) (h : Heading) :
  In h (outline_extractor.find_headings lines q) -> In (line h) lines.
Proof.
  unfold outline_extractor.find_headings. intros I.
  apply in_app_or in I as [I | I].
  - now apply special_headings_In in I.
  - now apply regular_headings_In in I.
Qed.

(** X22 (both scripts, [process_single_pdf] with the stages it calls): in
    what the [try] block returns, the page offset is 0 or 1 and every entry
    of the outline is reported on a page between 1 - page_offset and
    page_count - page_offset, hence between 0 and the number of pages. *)
Theorem reported_pages_in_range (doc : Pdf) :
  (forall out,
      process_pdfs.run doc = Ok out ->
      exists lines profile,
        process_pdfs.extract_and_group_lines doc = Ok (lines, profile)
        /\ process_pdfs.process_single_pdf doc = out
        /\ (page_offset profile = 0 \/ page_offset profile = 1)
        /\ forall e, In e (outline out) ->
             1 - page_offset profile <= o_page e
             <= page_count doc - page_offset profile)
  /\ (forall out,
         outline_extractor.run doc = Ok out ->
         exists lines profile,
           outline_extractor.extract_and_group_lines doc = Ok (lines, profile)
           /\ outline_extractor.process_single_pdf doc = out
           /\ (outline_extractor.page_offset profile = 0
               \/ outline_extractor.page_offset profile = 1)
           /\ forall e, In e (outline out) ->
                1 - outline_extractor.page_offset profile <= o_page e
                <= page_count doc - outline_extractor.page_offset profile).
Proof.
  split; intros out R0.
  - destruct (pp_run_ok doc) as (lines & profile & t & E & P & T & R).
    rewrite R in R0. injection R0 as <-.
    destruct (logical_lines_of_doc [] doc) as (ls & E' & _ & A & _).
    assert (ls = lines) by congruence. subst ls.
    exists lines, profile.
    split; [| split; [| split]].
    + unfold process_pdfs.extract_and_group_lines. rewrite E. cbn [bind].
      now rewrite P.
    + unfold process_pdfs.process_single_pdf. now rewrite R.
    + destruct (pp_build_profile_ok lines (page_count doc)) as (b & lm & P').
      rewrite P in P'. injection P' as ->. simpl.
      destruct (_ && _); auto.
    + cbn [outline]. intros e I.
      apply finalize_outline_pages in I as (h & Ih & ->).
      apply find_headings_In in Ih as (l & Il & C).
      apply classify_line_line in C. rewrite C.
      destruct (A l Il) as (_ & _ & Pg & _). lia.
  - destruct (oe_run_ok doc) as (lines & profile & t & E & P & T & R).
    rewrite R in R0. injection R0 as <-.
    destruct (logical_lines_of_doc space doc) as (ls & E' & _ & A & _).
    assert (ls = lines) by congruence. subst ls.
    exists lines, profile.
    split; [| split; [| split]].
    + unfold outline_extractor.extract_and_group_lines. rewrite E.
      cbn [bind]. now rewrite P.
    + unfold outline_extractor.process_single_pdf. now rewrite R.
    + destruct (oe_build_profile_ok lines) as (b & P').
      rewrite P in P'. injection P' as ->. simpl.
      destruct (_ <? _); auto.
    + cbn [outline]. intros e I.
      apply oe_finalize_outline_pages in I as (h & Ih & ->).
      apply oe_find_headings_line in Ih.
      destruct (A _ Ih) as (_ & _ & Pg & _). lia.
Qed.
End PipelineFacts.

(** ** The order in which the headings were found *)

Lemma lt_int_float_spec (a b : Z * Q) :
  lt_int_float a b = true
  <-> fst a < fst b \/ (fst a = fst b /\ (snd a < snd b)%Q).
Proof.
  unfold lt_int_float.
  rewrite orb_true_iff, andb_true_iff, Z.ltb_lt, Z.eqb_eq, Qltb_lt.
  reflexivity.
Qed.

Lemma lt_int_float_false (a b : Z * Q) :
  lt_int_float a b = false
  <-> fst b < fst a \/ (fst a = fst b /\ (snd b <= snd a)%Q).
Proof.
  rewrite <- not_true_iff_false, lt_int_float_spec. split.
  - intros H. destruct (Z.lt_trichotomy (fst a) (fst b)) as [L | [E | L]].
    + destruct H. now left.
    + right. split; auto.
      destruct (Qlt_le_dec (snd a) (snd b)) as [M | M]; auto.
      destruct H. now right.
    + now left.
  - intros [L | [E L]] [M | [E' M]]; try lia.
    now apply Qle_not_lt in L.
Qed.

Lemma lt_int_float_asym (a b : Z * Q) :
  lt_int_float a b = true -> lt_int_float b a = false.
Proof.
  rewrite lt_int_float_spec, lt_int_float_false.
  intros [L | [E L]]; [now left | right].
  split; [now symmetry | now apply Qlt_le_weak].
Qed.

Lemma lt_int_float_le_trans (a b c : Z * Q) :
  lt_int_float b a = false -> lt_int_float c b = false ->
  lt_int_float c a = false.
Proof.
  rewrite !lt_int_float_false.
  intros [L | [E L]] [M | [E' M]]; [left | left | left | right]; try lia.
  split; [congruence |]. now apply Qle_trans with (snd b).
Qed.

Section SortUnique.
Variable A : Type.
Variable lt : A -> A -> bool.
Hypothesis lt_asym : forall a b, lt a b = true -> lt b a = false.
Hypothesis le_trans :
  forall a b c, lt b a = false -> lt c b = false -> lt c a = false.

Lemma strictly_sorted_unique (l1 l2 : list A) :
  StronglySorted (fun a b => lt a b = true) l1 ->
  StronglySorted (fun a b => lt a b = true) l2 ->
  Permutation l1 l2 -> l1 = l2.
Proof.
  revert l2. induction l1 as [| x l1 IH]; intros l2 S1 S2 P.
  - apply Permutation_nil in P. now subst.
  - destruct l2 as [| y l2].
    { apply Permutation_sym, Permutation_nil in P. discriminate. }
    assert (F1 : Forall (fun b => lt x b = true) l1) by now inversion S1.
    assert (F2 : Forall (fun b => lt y b = true) l2) by now inversion S2.
    assert (T1 : StronglySorted (fun a b => lt a b = true) l1)
      by now inversion S1.
    assert (T2 : StronglySorted (fun a b => lt a b = true) l2)
      by now inversion S2.
    rewrite Forall_forall in F1, F2.
    assert (E : x = y).
    { assert (Ix : In x (y :: l2))
        by (apply (Permutation_in _ P); now left).
      assert (Iy : In y (x :: l1))
        by (apply (Permutation_in _ (Permutation_sym P)); now left).
      destruct Ix as [<- | Ix]; auto. destruct Iy as [<- | Iy]; auto.
      specialize (F1 _ Iy). specialize (F2 _ Ix).
      apply lt_asym in F1. congruence. }
    subst y. f_equal. apply IH; auto.
    now apply Permutation_cons_inv in P.
Qed.

Lemma sort_strict (l : list A) :
  NoDup l ->
  (forall a b, In a l -> In b l -> a = b \/ lt a b = true \/ lt b a = true) ->
  StronglySorted (fun a b => lt a b = true) (sort lt l).
Proof.
  intros N T.
  assert (S : StronglySorted (fun a b => lt b a = false) (sort lt l)).
  { apply sort_rel; auto. }
  assert (N' : NoDup (sort lt l)).
  { apply Permutation_NoDup with l; auto. symmetry. apply sort_perm. }
  assert (T' : forall a b, In a (sort lt l) -> In b (sort lt l) ->
                           a = b \/ lt a b = true \/ lt b a = true).
  { intros a b Ia Ib. apply T; now apply sort_In with (lt := lt). }
  revert S N' T'. generalize (sort lt l). intros s.
  induction s as [| x s IH]; intros S N' T'; [constructor |].
  assert (Ss : StronglySorted (fun a b => lt b a = false) s)
    by now inversion S.
  assert (Fs : Forall (fun b => lt b x = false) s) by now inversion S.
  inversion N' as [| ? ? Nx Ns]; subst.
  constructor.
  - apply IH; auto. intros a b Ia Ib. apply T'; now right.
  - rewrite Forall_forall in *. intros b Ib.
    destruct (T' x b (or_introl eq_refl) (or_intror Ib)) as [E | [L | L]];
      auto.
    + subst b. contradiction.
    + rewrite (Fs b Ib) in L. discriminate.
Qed.
End SortUnique.

Lemma apart_sym (a b : Heading) : apart a b -> apart b a.
Proof. unfold apart. tauto. Qed.

Lemma distinct_positions_spec (hs : list Heading) :
  distinct_positions hs ->
  NoDup hs
  /\ forall a b, In a hs -> In b hs ->
                 a = b \/ lt_int_float (sort_key a) (sort_key b) = true
                 \/ lt_int_float (sort_key b) (sort_key a) = true.
Proof.
  intros D. split.
  - induction D as [| a l F D IH]; constructor; auto.
    intros I. rewrite Forall_forall in F. destruct (F a I) as [H | H];
      pose proof (lt_int_float_asym _ _ H); congruence.
  - intros a b Ia Ib.
    destruct (ForallOrdPairs_In D a b Ia Ib) as [E | [H | H]]; auto.
    destruct H; auto.
Qed.

Section OrderFacts.
Context {U : Unicode}.

Lemma sort_headings_perm (hs hs' : list Heading) :
  Permutation hs hs' -> distinct_positions hs ->
  sort_headings hs = sort_headings hs'.
Proof.
  intros P D. destruct (distinct_positions_spec D) as [N T].
  unfold sort_headings.
  apply strictly_sorted_unique
    with (lt := fun a b => lt_int_float (sort_key a) (sort_key b)).
  - intros a b. apply lt_int_float_asym.
  - apply sort_strict; auto.
    + intros a b. apply lt_int_float_asym.
    + intros a b c. apply lt_int_float_le_trans.
  - apply sort_strict.
    + intros a b. apply lt_int_float_asym.
    + intros a b c. apply lt_int_float_le_trans.
    + now apply Permutation_NoDup with hs.
    + intros a b Ia Ib.
      apply T; now apply (Permutation_in _ (Permutation_sym P)).
  - rewrite sort_perm. rewrite P. symmetry. apply sort_perm.
Qed.

(** X20 (both scripts, [headings.sort] in [finalize_outline]): the outline
    does not depend on the order in which the headings were found: when no
    two headings have the same page and the same height, any rearrangement
    of the list of headings gives the same outline. *)
Theorem outline_order_independent (hs hs' : list Heading) (p : Profile)
        (q : outline_extractor.Profile) :
  Permutation hs hs' ->
  distinct_positions hs ->
  process_pdfs.finalize_outline hs p = process_pdfs.finalize_outline hs' p
  /\ outline_extractor.finalize_outline hs q
     = outline_extractor.finalize_outline hs' q.
Proof.
  intros P D.
  rewrite !finalize_outline_eq, !oe_finalize_outline_eq.
  now rewrite (sort_headings_perm P D).
Qed.
End OrderFacts.

Lemma outline_order_independent_witness :
  process_pdfs.finalize_outline (U := ascii_unicode)
    [appendix; syllabus; overview] (mkProfile 12 0 72)
  = process_pdfs.finalize_outline (U := ascii_unicode)
      [overview; syllabus; appendix] (mkProfile 12 0 72)
  /\ outline_extractor.finalize_outline (U := ascii_unicode)
       [appendix; syllabus; overview] (outline_extractor.mkProfile 12 0)
     = outline_extractor.finalize_outline (U := ascii_unicode)
         [overview; syllabus; appendix] (outline_extractor.mkProfile 12 0).
Proof.
  apply (@outline_order_independent ascii_unicode).
  - apply perm_trans with [syllabus; appendix; overview].
    + apply perm_swap.
    + apply perm_trans with [syllabus; overview; appendix].
      * apply perm_skip, perm_swap.
      * apply perm_swap.
  - repeat constructor; right; reflexivity.
Defined.

(** * The two scripts side by side *)

(** ** What an entry is built from *)

Section Tie.
Context {U : Unicode}.
Variable absorbs : Heading -> Heading -> bool.
Variable combine : Heading -> Heading -> Heading.

Hypothesis combine_page :
  forall a b, page (line (combine a b)) = page (line a).
Hypothesis combine_level :
  forall a b, level (combine a b) = level a.
Hypothesis absorbs_page :
  forall a b, absorbs a b = true -> page (line b) = page (line a).

Lemma built_from_weaken (l l' : list Heading) (m h : Heading) :
  (forall z, In z l -> In z l') ->
  built_from absorbs combine l m h -> built_from absorbs combine l' m h.
Proof.
  intros W [E | (h' & I & A & E)]; [now left |].
  right. exists h'. auto.
Qed.

Lemma stands_for_weaken (l l' : list Heading) (m h : Heading) :
  (forall z, In z l -> In z l') ->
  stands_for absorbs combine l m h -> stands_for absorbs combine l' m h.
Proof.
  intros W [B | (h0 & I & A & E)].
  - left. now apply built_from_weaken with l.
  - right. exists h0. auto.
Qed.

Lemma built_from_origin (l : list Heading) (m h : Heading) :
  built_from absorbs combine l m h ->
  page (line m) = page (line h) /\ level m = level h.
Proof.
  intros [-> | (h' & _ & _ & ->)]; auto.
Qed.

Lemma stands_for_page (l : list Heading) (m h : Heading) :
  stands_for absorbs combine l m h -> page (line m) = page (line h).
Proof.
  intros [B | (h0 & _ & A & ->)].
  - now apply built_from_origin in B.
  - rewrite combine_page. symmetry. now apply absorbs_page.
Qed.

(** Every heading left by the loop is built from a heading given to it. *)
Lemma merge_with_built (l : list Heading) :
  forall m, In m (merge_with absorbs combine l) ->
            exists h, In h l /\ built_from absorbs combine l m h.
Proof.
  induction l as [| x | x y l IH1 IH2] using list_pair_ind; intros m I.
  - destruct I.
  - destruct I as [<- | []]. exists x. split; [now left | now left].
  - rewrite merge_with_cons2 in I. destruct (absorbs x y) eqn:A.
    + destruct I as [<- | I].
      * exists x. split; [now left |]. right. exists y.
        split; [right; now left | auto].
      * destruct (IH1 m I) as (h & Ih & B). exists h.
        split; [now right; right |].
        apply built_from_weaken with l; auto. intros z Iz. now right; right.
    + destruct I as [<- | I].
      * exists x. split; [now left | now left].
      * destruct (IH2 m I) as (h & Ih & B). exists h.
        split; [now right |].
        apply built_from_weaken with (y :: l); auto. intros z Iz. now right.
Qed.

(** Every heading given to the loop has a heading standing for it among
    those the loop leaves. *)
Lemma merge_with_stands (l : list Heading) :
  forall h, In h l ->
            exists m, In m (merge_with absorbs combine l)
                      /\ stands_for absorbs combine l m h.
Proof.
  induction l as [| x | x y l IH1 IH2] using list_pair_ind; intros h I.
  - destruct I.
  - destruct I as [-> | []]. exists h. split; [now left |]. left. now left.
  - rewrite merge_with_cons2. destruct (absorbs x y) eqn:A.
    + destruct I as [-> | [-> | I]].
      * exists (combine h y). split; [now left |]. left. right.
        exists y. split; [right; now left | auto].
      * exists (combine x h). split; [now left |]. right.
        exists x. split; [now left | auto].
      * destruct (IH1 h I) as (m & Im & S). exists m.
        split; [now right |].
        apply stands_for_weaken with l; auto. intros z Iz. now right; right.
    + destruct I as [-> | I].
      * exists h. split; [now left |]. left. now left.
      * destruct (IH2 h I) as (m & Im & S). exists m.
        split; [now right |].
        apply stands_for_weaken with (y :: l); auto. intros z Iz. now right.
Qed.

(** The sort, the merge and the last loop together. *)
Lemma finalise_normalises (hs : list Heading) (off : Z) :
  normalises_pages absorbs combine hs
    (merge_with absorbs combine (sort_headings hs))
    (format_outline (merge_with absorbs combine (sort_headings hs)) off [])
    off.
Proof.
  assert (W : forall z, In z (sort_headings hs) -> In z hs)
    by (intros z; apply sort_headings_In).
  split.
  - intros e I. apply format_outline_In in I as (m & Im & -> & _).
    destruct (merge_with_built _ _ Im) as (h & Ih & B).
    apply (@built_from_weaken _ hs _ _ W) in B.
    destruct (built_from_origin B) as [Pg Lv].
    exists m, h. split; [exact Im |]. split; [now apply W |].
    split; [exact B |]. split; [reflexivity |].
    cbn [entry_of o_level o_page]. unfold final_page. rewrite Pg.
    repeat split; auto; intros; lia.
  - intros h I. apply sort_headings_In in I.
    destruct (merge_with_stands _ _ I) as (m & Im & S).
    apply (@stands_for_weaken _ hs _ _ W) in S.
    destruct (format_outline_covers _ off [] _ Im) as [(e & Ie & K) | []].
    exists m, e. repeat split; auto.
    apply (f_equal snd) in K. cbn [entry_key key_of snd] in K.
    unfold final_page in K. rewrite K. now rewrite (stands_for_page S).
Qed.
End Tie.

(** ** The claims that both scripts are cited for *)

Section BothScripts.
Context {U : Unicode}.

(** C4: in both scripts every entry of the outline is the entry of one
    heading left by the merge - level, cleaned text and page together - and
    that heading is built from a heading given to the finaliser, which gives
    the entry its level and its page: the raw page plus one minus the
    offset, so that with offset 1 a heading of raw page 1 is reported on
    page 1 and with offset 0 a heading of raw page 0 on page 1.  Every
    heading given to the finaliser has a merged heading standing for it -
    itself, itself with an absorbed text, or the heading that absorbed it -
    and the entry under the key of that merged heading reports the page of
    the heading. *)
Theorem page_normalization (hs : list Heading) (profile : Profile)
        (q : outline_extractor.Profile) :
  normalises_pages pp_absorbs pp_combine hs
    (process_pdfs.merge_headings (sort_headings hs))
    (process_pdfs.finalize_outline hs profile)
    (page_offset profile)
  /\ normalises_pages oe_absorbs oe_combine hs
       (outline_extractor.merge_headings (sort_headings hs))
       (outline_extractor.finalize_outline hs q)
       (outline_extractor.page_offset q).
Proof.
  split.
  - rewrite finalize_outline_eq, pp_merge_headings.
    apply finalise_normalises.
    + apply pp_combine_page.
    + apply pp_combine_level.
    + apply pp_absorbs_page.
  - rewrite oe_finalize_outline_eq, oe_merge_headings.
    apply finalise_normalises.
    + apply oe_combine_page.
    + apply oe_combine_level.
    + apply oe_absorbs_page.
Qed.

(** C5, as amended: the two profilers differ.  In process_pdfs.py the
    offset is 1 exactly when the first page holds fewer than 10 logical
    lines and the document has more than one page, and 0 otherwise, so a
    document of one page always gets 0.  In outline_extractor.py the offset
    is 1 exactly when the first page holds fewer than 5 logical lines,
    whatever the number of pages. *)
Theorem page_offset_rule (doc : Pdf) :
  (exists lines profile,
      process_pdfs.extract_and_group_lines doc = Ok (lines, profile)
      /\ (page_offset profile = 1 <->
          len (filter (fun l => page l =? 0) lines) < 10
          /\ 1 < page_count doc)
      /\ (page_offset profile = 0 <->
          ~ (len (filter (fun l => page l =? 0) lines) < 10
             /\ 1 < page_count doc))
      /\ (page_count doc <= 1 -> page_offset profile = 0))
  /\ (exists lines profile,
         outline_extractor.extract_and_group_lines doc = Ok (lines, profile)
         /\ (outline_extractor.page_offset profile = 1 <->
             len (filter (fun l => page l =? 0) lines) < 5)
         /\ (outline_extractor.page_offset profile = 0 <->
             5 <= len (filter (fun l => page l =? 0) lines))).
Proof.
  split; [apply pp_page_offset_rule |].
  destruct (logical_lines_of_total space (sorted_groups doc))
    as (lines & E & _).
  destruct (oe_build_profile_ok lines) as (b & P).
  exists lines. eexists. split.
  - unfold outline_extractor.extract_and_group_lines. rewrite E.
    cbn [bind]. rewrite P. reflexivity.
  - cbn [outline_extractor.page_offset].
    destruct (len (filter (fun l => page l =? 0) lines) <? 5) eqn:A;
      rewrite ?Z.ltb_lt, ?Z.ltb_ge in A; repeat split; intros; lia.
Qed.

(** C7, as amended: in both scripts a heading that matches the numbered
    pattern of the script and is followed, on its page, by a heading that
    is not numbered absorbs it, at any position of the list, and the second
    heading is dropped; given just the two of them the outline is that
    single entry.  The scripts differ in the pattern and in the text: in
    process_pdfs.py - numerals, a separator, whitespace if any - the text
    becomes the two trimmed texts joined by one space; in
    outline_extractor.py - one digit, a full stop, whitespace - it becomes
    the first text, with " - " turned into " – ", directly followed by the
    second text, with nothing in between. *)
Theorem continuation_merge (a b : Heading) (profile : Profile)
        (q : outline_extractor.Profile) :
  same_page a b = true ->
  in_order a b ->
  (re_match process_pdfs.h1_pattern (text (line a)) = true ->
   re_match process_pdfs.numbered (text (line b)) = false ->
   (forall pre post, exists pre',
       process_pdfs.merge_headings (pre ++ a :: b :: post)
       = pre' ++ set_text a (strip (text (line a)) ++ [32%N]
                             ++ strip (text (line b)))
              :: process_pdfs.merge_headings post)
   /\ process_pdfs.finalize_outline [a; b] profile
      = [mkEntry (level a)
                 (strip (collapse_ws (strip (text (line a)) ++ [32%N]
                                      ++ strip (text (line b))))
                  ++ [32%N])
                 (page (line a) + 1 - page_offset profile)])
  /\ (re_match outline_extractor.stub_pattern (text (line a)) = true ->
      re_match outline_extractor.numbered (text (line b)) = false ->
      (forall pre post, exists pre',
          outline_extractor.merge_headings (pre ++ a :: b :: post)
          = pre' ++ set_text a (replace (u " - ") (u " – ") (text (line a))
                                ++ text (line b))
                 :: outline_extractor.merge_headings post)
      /\ outline_extractor.finalize_outline [a; b] q
         = [mkEntry (level a)
                    (strip (collapse_ws
                              (replace (u " - ") (u " – ") (text (line a))
                               ++ text (line b)))
                     ++ [32%N])
                    (page (line a) + 1 - outline_extractor.page_offset q)]).
Proof.
  intros P O. split; intros A B.
  - now apply pp_continuation_merge.
  - split.
    + intros pre post.
      assert (N : forall x, oe_absorbs x a = false).
      { intros x. unfold oe_absorbs.
        now rewrite (stub_pattern_numbered _ A), andb_false_r. }
      destruct (merge_with_reaches oe_absorbs oe_combine a (b :: post) N pre)
        as (pre' & E).
      exists pre'. rewrite oe_merge_headings, E. f_equal.
      rewrite <- oe_merge_headings. now apply oe_merge_fires.
    + unfold outline_extractor.finalize_outline.
      rewrite sort_headings_pair by exact O.
      now rewrite oe_merge_fires by auto.
Qed.

(** C8, as amended: the keyword rule is gated in one script only.  In
    process_pdfs.py a line whose trimmed text is one of the section
    keywords is classified by the keyword rule only when it is bold or
    larger than the baseline, and then as H1; when it is neither, it is not
    a heading.  In outline_extractor.py a line whose trimmed text is one of
    its four keywords is an H1 heading whatever its size and weight. *)
Theorem keyword_gating (l : LogicalLine) (profile : Profile)
        (q : outline_extractor.Profile) :
  (str_in (strip (text l)) process_pdfs.special_h1s = true ->
   (is_bold l = false ->
    (font_size l <= baseline_font_size profile)%Q ->
    process_pdfs.classify_line l profile = None
    /\ forall lines h,
         In h (process_pdfs.find_headings lines profile) -> line h <> l)
   /\ (forall lines h,
         In h (process_pdfs.find_headings lines profile) -> line h = l ->
         level h = H1
         /\ (is_bold l = true
             \/ (baseline_font_size profile < font_size l)%Q))
   /\ (process_pdfs.negative_filter (text l) = false ->
       is_bold l = true \/ (baseline_font_size profile < font_size l)%Q ->
       forall lines,
         In l lines ->
         In (mkHeading l H1) (process_pdfs.find_headings lines profile)))
  /\ (str_in (strip (text l)) outline_extractor.strong_H1s = true ->
      forall lines,
        In l lines ->
        In (mkHeading l H1) (outline_extractor.find_headings lines q)
        /\ forall h,
             In h (outline_extractor.find_headings lines q) ->
             line h = l -> level h = H1).
Proof.
  split; intros K.
  - now apply pp_keyword_gating.
  - intros lines I. split.
    + unfold outline_extractor.find_headings. apply in_or_app. left.
      apply special_headings_In. auto.
    + intros h Ih E. unfold outline_extractor.find_headings in Ih.
      apply in_app_or in Ih as [Ih | Ih].
      * now apply special_headings_In in Ih.
      * apply regular_headings_In in Ih as (_ & N & _).
        rewrite E in N. congruence.
Qed.
End BothScripts.

(** ** The claims of this part on concrete inputs *)

Lemma page_normalization_witness :
  process_pdfs.finalize_outline (U := ascii_unicode)
    [mkHeading (sample_line (u "2. Scope") 12 false 1 72 100) H1]
    (mkProfile 12 1 72)
  = [mkEntry H1 (u "2. Scope ") 1]
  /\ (exists e,
         In e (process_pdfs.finalize_outline (U := ascii_unicode)
                 [mkHeading (sample_line (u "2. Scope") 12 false 0 72 100) H1]
                 (mkProfile 12 0 72))
         /\ o_level e = H1 /\ o_page e = 1)
  /\ (exists e,
         In e (outline_extractor.finalize_outline (U := ascii_unicode)
                 [mkHeading (sample_line (u "2. Scope") 12 false 1 72 100) H1]
                 (outline_extractor.mkProfile 12 1))
         /\ o_page e = 1).
Proof.
  split; [vm_compute; reflexivity |].
  split.
  - pose proof (@page_normalization ascii_unicode
                  [mkHeading (sample_line (u "2. Scope") 12 false 0 72 100) H1]
                  (mkProfile 12 0 72) (outline_extractor.mkProfile 12 0))
      as T.
    unfold normalises_pages in T. destruct T as [[_ B] _].
    destruct (B _ (or_introl eq_refl)) as (m & e & _ & _ & Ie & _ & Pe).
    exists e. split; [exact Ie |]. split; [| rewrite Pe; reflexivity].
    destruct Ie as [<- | []]. reflexivity.
  - pose proof (@page_normalization ascii_unicode
                  [mkHeading (sample_line (u "2. Scope") 12 false 1 72 100) H1]
                  (mkProfile 12 1 72) (outline_extractor.mkProfile 12 1))
      as T.
    unfold normalises_pages in T. destruct T as [_ [_ B]].
    destruct (B _ (or_introl eq_refl)) as (m & e & _ & _ & Ie & _ & Pe).
    exists e. split; [exact Ie | rewrite Pe; reflexivity].
Defined.

(** C5 as stated fails for outline_extractor.py: [flyer_pdf] has one page
    with two logical lines, and the profiler of that script gives it the
    offset 1. *)
Lemma page_offset_rule_counterexample :
  page_count flyer_pdf = 1
  /\ exists lines profile,
       outline_extractor.extract_and_group_lines (U := ascii_unicode)
         flyer_pdf
       = Ok (lines, profile)
       /\ len (filter (fun l => page l =? 0) lines) = 2
       /\ outline_extractor.page_offset profile = 1.
Proof.
  split; [reflexivity |].
  eexists. eexists. split; [vm_compute; reflexivity |].
  split; reflexivity.
Qed.

Lemma continuation_merge_witness :
  process_pdfs.finalize_outline (U := ascii_unicode) [overview; syllabus]
    (mkProfile 12 0 72)
  = [mkEntry H1 (u "3. Overview Syllabus ") 3]
  /\ outline_extractor.finalize_outline (U := ascii_unicode)
       [overview; syllabus] (outline_extractor.mkProfile 12 0)
     = [mkEntry H1 (u "3. OverviewSyllabus ") 3].
Proof.
  assert (P1 : same_page overview syllabus = true) by reflexivity.
  assert (P2 : in_order overview syllabus) by reflexivity.
  assert (P3 : re_match process_pdfs.h1_pattern (text (line overview)) = true)
    by reflexivity.
  assert (P4 : re_match process_pdfs.numbered (text (line syllabus)) = false)
    by reflexivity.
  assert (P5 : re_match (outline_extractor.stub_pattern (U := ascii_unicode))
                        (text (line overview)) = true)
    by reflexivity.
  assert (P6 : re_match (outline_extractor.numbered (U := ascii_unicode))
                        (text (line syllabus)) = false)
    by reflexivity.
  destruct (@continuation_merge ascii_unicode overview syllabus
              (mkProfile 12 0 72) (outline_extractor.mkProfile 12 0) P1 P2)
    as [A B].
  destruct (A P3 P4) as [_ E1]. destruct (B P5 P6) as [_ E2].
  split; [rewrite E1 | rewrite E2]; vm_compute; reflexivity.
Defined.

(** C7 as stated fails for outline_extractor.py: on Scenario B - the two
    headings on one page, the first numbered, the second not - its
    finaliser gives the single entry "3. OverviewSyllabus", without the
    separating space. *)
Lemma continuation_merge_counterexample :
  same_page overview syllabus = true
  /\ re_match (outline_extractor.stub_pattern (U := ascii_unicode))
              (text (line overview)) = true
  /\ re_match (outline_extractor.numbered (U := ascii_unicode))
              (text (line syllabus)) = false
  /\ outline_extractor.finalize_outline (U := ascii_unicode)
       [overview; syllabus] (outline_extractor.mkProfile 12 0)
     = [mkEntry H1 (u "3. OverviewSyllabus ") 3]
  /\ outline_extractor.finalize_outline (U := ascii_unicode)
       [overview; syllabus] (outline_extractor.mkProfile 12 0)
     <> [mkEntry H1 (u "3. Overview Syllabus ") 3].
Proof.
  repeat split; try (vm_compute; reflexivity). vm_compute. discriminate.
Qed.

Lemma keyword_gating_witness :
  process_pdfs.classify_line (U := ascii_unicode) plain_references
    (mkProfile 12 0 72)
  = None
  /\ In (mkHeading plain_references H1)
        (outline_extractor.find_headings (U := ascii_unicode)
           [plain_references] (outline_extractor.mkProfile 12 0))
  /\ process_pdfs.find_headings (U := ascii_unicode)
       [sample_line (u "References") 12 true 4 72 100;
        sample_line (u "References") 14 false 5 72 100;
        plain_references]
       (mkProfile 12 0 72)
     = [mkHeading (sample_line (u "References") 12 true 4 72 100) H1;
        mkHeading (sample_line (u "References") 14 false 5 72 100) H1].
Proof.
  destruct (@keyword_gating ascii_unicode plain_references
              (mkProfile 12 0 72) (outline_extractor.mkProfile 12 0))
    as [A B].
  destruct (A eq_refl) as (A1 & _).
  split; [| split; [| vm_compute; reflexivity]].
  - apply A1; [reflexivity | vm_compute; discriminate].
  - apply (B eq_refl). now left.
Defined.

(** C8 as stated fails for outline_extractor.py: the line "References" in
    the baseline size and not bold is a keyword line that is neither bold
    nor larger than the baseline, and that script makes it an H1
    heading. *)
Lemma keyword_gating_counterexample :
  str_in (strip (text plain_references)) outline_extractor.strong_H1s = true
  /\ is_bold plain_references = false
  /\ (font_size plain_references == 12)%Q
  /\ outline_extractor.find_headings (U := ascii_unicode)
       [plain_references] (outline_extractor.mkProfile 12 0)
     = [mkHeading plain_references H1].
Proof. repeat split; vm_compute; reflexivity. Qed.


Lemma logical_lines_in_reading_order_witness :
  exists ls pr,
    process_pdfs.extract_and_group_lines (U := ascii_unicode) cover_pdf
    = Ok (ls, pr)
    /\ length ls = 2%nat
    /\ reading_order ls
    /\ forall l, In l ls ->
         text l <> [] /\ stripped (text l)
         /\ 0 <= page l < page_count cover_pdf.
Proof.
  destruct (process_pdfs.extract_and_group_lines (U := ascii_unicode)
              cover_pdf) as [[ls pr] |] eqn:E;
    [| vm_compute in E; discriminate E].
  exists ls, pr. split; [reflexivity |].
  split; [vm_compute in E; injection E as <- _; reflexivity |].
  exact (proj1 (@logical_lines_in_reading_order ascii_unicode cover_pdf)
               ls pr E).
Defined.

Lemma reported_pages_in_range_witness :
  exists out,
    process_pdfs.run (U := ascii_unicode) cover_pdf = Ok out
    /\ outline out = [mkEntry H1 (u "1. Introduction ") 0]
    /\ forall e, In e (outline out) -> 0 <= o_page e <= page_count cover_pdf.
Proof.
  destruct (process_pdfs.run (U := ascii_unicode) cover_pdf)
    as [out |] eqn:E; [| vm_compute in E; discriminate E].
  exists out. split; [reflexivity |].
  split; [vm_compute in E; injection E as <-; reflexivity |].
  destruct (proj1 (@reported_pages_in_range ascii_unicode cover_pdf) out E)
    as (lines & profile & _ & _ & O & R).
  intros e I. specialize (R e I). lia.
Defined.

(** ** The product [baseline_size * 1.4]

    The format rule compares the font size with the rounded product: for
    the baseline 11.25 the exact product with 7/5 is 15.75, the product of
    the script is the binary64 number just below it, and a bold line set in
    15.75pt is large. *)
Lemma format_rule_rounds :
  (float_mul (45 # 4) float_1_4 < 63 # 4)%Q
  /\ ((45 # 4) * (7 # 5) == 63 # 4)%Q
  /\ outline_extractor.is_strong_heading (U := ascii_unicode)
       (sample_line (u "Project Overview") (63 # 4) true 1 72 100) (45 # 4)
     = Some H2.
Proof. repeat split; vm_compute; reflexivity. Qed.
